(** * Mudhro back office: document lifecycle and milestone batch processor

    A shallow embedding of the expense attachment routes
    (routes/expenses.ts), the invoice service (services/invoiceService.ts)
    and the milestone invoice service
    (services/milestoneInvoiceService.ts), with the properties of the
    dual-store document lifecycle stated and proved over it; then the
    download routes of the expenses and the two services of the client
    portal (services/clientInvoiceService.ts,
    services/clientAuthService.ts), with their properties. *)

From Stdlib Require Import ZArith QArith Ascii String List Lia Bool.
From stdpp Require Import base option gmap strings list pretty sorting.

Local Open Scope string_scope.
Local Open Scope Z_scope.

(** ** JavaScript values and control flow *)

Module Js.

(** What a [throw] carries.  [AppError] is the class of
    middleware/errorHandler; every other exception (driver errors, storage
    errors) is a plain [Error]. *)
Inductive Exn : Type :=
| AppError (message : string) (statusCode : Z)
| Error (message : string).

Definition message (e : Exn) : string :=
  match e with AppError m _ => m | Error m => m end.

(** [error instanceof AppError] *)
Definition instanceofAppError (e : Exn) : bool :=
  match e with AppError _ _ => true | Error _ => false end.

Global Instance Exn_eq_dec : EqDecision Exn.
Proof. solve_decision. Defined.

(** Completion of an awaited call: the promise is fulfilled, is rejected,
    or never settles, and then the caller's [await] never resumes. *)
Inductive Outcome (A : Type) : Type :=
| Returns (a : A)
| Throws (e : Exn)
| Pending.
Arguments Returns {A} a.
Arguments Throws {A} e.
Arguments Pending {A}.

(** An async function over a store [S]: it runs to completion between two
    awaits of its caller, and what it wrote before throwing, or before it
    got stuck on a promise that never settles, stays written. *)
Definition M (S A : Type) : Type := S -> Outcome A * S.

Definition ret {S A} (a : A) : M S A := fun s => (Returns a, s).
Definition throw {S A} (e : Exn) : M S A := fun s => (Throws e, s).
(** A promise that never settles. *)
Definition never {S A} : M S A := fun s => (Pending, s).
Definition bind {S A B} (m : M S A) (k : A -> M S B) : M S B :=
  fun s => match m s with
           | (Returns a, s') => k a s'
           | (Throws e, s') => (Throws e, s')
           | (Pending, s') => (Pending, s')
           end.
(** [try { m } catch (error) { h error }]; no catch block runs for an
    [await] that never resumes. *)
Definition tryCatch {S A} (m : M S A) (h : Exn -> M S A) : M S A :=
  fun s => match m s with
           | (Returns a, s') => (Returns a, s')
           | (Throws e, s') => h e s'
           | (Pending, s') => (Pending, s')
           end.
Definition get {S} : M S S := fun s => (Returns s, s).
Definition modify {S} (f : S -> S) : M S unit := fun s => (Returns tt, f s).
(** An awaited call goes wrong only when the fault plan says so, with the
    exception the plan carries. *)
Definition failWhen {S} (fault : option Exn) : M S unit :=
  match fault with Some e => throw e | None => ret tt end.
(** A step whose failure leaves the promise of the function unsettled: the
    exception of the plan is lost. *)
Definition hangWhen {S} (fault : option Exn) : M S unit :=
  match fault with Some _ => never | None => ret tt end.


(** Two computations agree up to a relation on stores: from related stores
    they end the same way (the same value, the same exception, or neither
    settles) and leave related stores. *)
Definition agree {S A} (R : S -> S -> Prop) (m1 m2 : M S A) : Prop :=
  forall s1 s2, R s1 s2 -> (m1 s1).1 = (m2 s2).1 ∧ R (m1 s1).2 (m2 s2).2.

(** Truthiness of a nullable string: [null], [undefined] and [''] are falsy. *)
Definition truthy (s : option string) : bool :=
  match s with
  | Some s => negb (String.eqb s "")
  | None => false
  end.

(** [a || b] on a nullable string with a string default. *)
Definition orElse (s : option string) (d : string) : string :=
  match s with
  | Some s => if String.eqb s "" then d else s
  | None => d
  end.

(** [s.endsWith(suffix)] *)
Definition endsWith (s suffix : string) : bool :=
  let n := String.length s in
  let k := String.length suffix in
  (k <=? n)%nat && String.eqb (String.substring (n - k) k s) suffix.

(** [s.startsWith(p)] *)
Definition startsWith (s p : string) : bool := String.prefix p s.

(** [`${n}`] for a number that holds an integer. *)
Definition num (n : Z) : string := pretty n.

End Js.
Import Js.

Declare Scope js_scope.
Delimit Scope js_scope with js.
Notation "x <- m ;; k" := (bind m (fun x => k))
  (at level 100, m at next level, right associativity) : js_scope.
Notation "m ;;; k" := (bind m (fun _ => k))
  (at level 100, right associativity) : js_scope.
Local Open Scope js_scope.

(** ** Artifact store client *)

Module BlobStorageService.

Definition Buffer : Type := list Byte.byte.

Record Blob : Type := { content : Buffer; contentType : string }.

Inductive FileType : Type := INVOICE | EXPENSE.

(** Modelled from the spec: services/blobStorageService.ts is not among the
    sources.  The spec gives the path convention
    [{DocumentKind}/{Category}/{ownerId}/{fileName}] with the instances
    [Invoices/{ownerId}/{file}], [Expense/Uploaded_Documents/{ownerId}/{file}]
    and [Expense/Generated_pdfs/{ownerId}/{file}]; the callers rebuild the
    same strings by hand before a delete. *)
Definition pathOf (t : FileType) (category : option string) (ownerId : Z)
    (fileName : string) : string :=
  let kind := match t with INVOICE => "Invoices" | EXPENSE => "Expense" end in
  match category with
  | Some c => kind +:+ "/" +:+ c +:+ "/" +:+ num ownerId +:+ "/" +:+ fileName
  | None => kind +:+ "/" +:+ num ownerId +:+ "/" +:+ fileName
  end.

Section Client.
Context {S : Type}.
(** How the surrounding world holds its blob container. *)
Variable blobsOf : S -> gmap string Blob.
Variable withBlobs : gmap string Blob -> S -> S.

(** Modelled from the spec: [upload(bytes, filename, kind, ownerId,
    contentType, category) -> path]; the object is fully present or
    absent, so a failed upload writes nothing. *)
Definition uploadFile (fault : option Exn) (bytes : Buffer) (fileName : string)
    (t : FileType) (ownerId : Z) (mime : string) (category : option string)
    : M S string :=
  failWhen fault ;;;
  let p := pathOf t category ownerId fileName in
  modify (fun s => withBlobs
    (<[p := {| content := bytes; contentType := mime |}]> (blobsOf s)) s) ;;;
  ret p.

(** Modelled from the spec: [delete(path)] is idempotent, deleting a
    path that holds nothing is not an error; a failed delete removes
    nothing. *)
Definition deleteFile (fault : option Exn) (p : string) : M S unit :=
  failWhen fault ;;;
  modify (fun s => withBlobs (delete p (blobsOf s)) s).
End Client.

End BlobStorageService.
Import BlobStorageService.

(** ** Expense routes: attachment and PDF upload (routes/expenses.ts) *)

Module ExpenseRoutes.

Record ExpenseRow : Type := {
  id : Z;
  userId : Z;
  billNumber : option string;
  attachmentFileName : option string;
  expenseFileName : option string
}.

(** The two stores a handler talks to. *)
Record World : Type := {
  expenses : gmap Z ExpenseRow;
  blobs : gmap string Blob
}.

Definition withExpenses (t : gmap Z ExpenseRow) (w : World) : World :=
  {| expenses := t; blobs := blobs w |}.
Definition withBlobs (b : gmap string Blob) (w : World) : World :=
  {| expenses := expenses w; blobs := b |}.

(** Which awaited calls of one request go wrong. *)
Record Faults : Type := {
  uploadFails : option Exn;
  deleteOldFails : option Exn;
  patchFails : option Exn;
  rollbackDeleteFails : option Exn
}.

Definition noFaults : Faults :=
  {| uploadFails := None; deleteOldFails := None;
     patchFails := None; rollbackDeleteFails := None |}.

(** Modelled from the spec: services/expenseService.ts is not among the
    sources.  [getRecord(id, owner)]: a record of another owner is a
    NotFound like a missing one. *)
Definition getExpenseById (expenseId uid : Z) : M World ExpenseRow :=
  w <- get ;;
  match expenses w !! expenseId with
  | Some e => if decide (userId e = uid) then ret e
              else throw (AppError "Expense not found" 404)
  | None => throw (AppError "Expense not found" 404)
  end.

(** Modelled from the spec: the record patch of attach/replace-artifact
    ("patch the record's artifact-filename field to the new name"), for the
    uploaded-attachment reference; a failed patch leaves the row as it
    was. *)
Definition updateExpenseAttachmentFilename (fault : option Exn)
    (expenseId uid : Z) (fileName : string) : M World unit :=
  failWhen fault ;;;
  e <- getExpenseById expenseId uid ;;
  modify (fun w => withExpenses
    (<[expenseId := {| id := id e; userId := userId e;
                       billNumber := billNumber e;
                       attachmentFileName := Some fileName;
                       expenseFileName := expenseFileName e |}]> (expenses w)) w).

(** Modelled from the spec: the same patch for the generated-PDF
    reference. *)
Definition updateExpensePdfFilename (fault : option Exn)
    (expenseId uid : Z) (fileName : string) : M World unit :=
  failWhen fault ;;;
  e <- getExpenseById expenseId uid ;;
  modify (fun w => withExpenses
    (<[expenseId := {| id := id e; userId := userId e;
                       billNumber := billNumber e;
                       attachmentFileName := attachmentFileName e;
                       expenseFileName := Some fileName |}]> (expenses w)) w).

(** [req.file] as multer leaves it. *)
Record UploadedFile : Type := {
  originalname : string;
  mimetype : string;
  buffer : Buffer
}.

(** What a handler reads from the request: [req.user], the value of
    [decodeExpenseId(req.params.id)] (the decoders of utils/urlEncoder are
    outside the sources) and [req.file]. *)
Record Request : Type := {
  user : option Z;
  decodedId : option Z;
  file : option UploadedFile
}.

(** What a handler answers: [res.status(c).json({success, message, ...})]
    with the file name it reports, or [next(error)]. *)
Inductive Reply : Type :=
| Json (status : Z) (success : bool) (text : string) (fileName : option string)
| Next (error : Exn).

Section Handlers.
(** Node's [path.extname]. *)
Variable extname : string -> string.

(** Lines 344-346. *)
Definition fileExtension (f : UploadedFile) : string :=
  let ext := extname (originalname f) in
  if negb (String.eqb ext "") then ext
  else if String.eqb (mimetype f) "application/pdf" then ".pdf"
  else if startsWith (mimetype f) "image/" then ".jpg"
  else "".

(** Line 347. *)
Definition attachmentName (e : ExpenseRow) (expenseId : Z)
    (f : UploadedFile) (now : Z) : string :=
  orElse (billNumber e) ("BILL-" +:+ num expenseId)
    +:+ "_" +:+ num now +:+ fileExtension f.

(** Lines 425-427. *)
Definition pdfName (e : ExpenseRow) (expenseId : Z) : string :=
  if truthy (billNumber e) && endsWith (orElse (billNumber e) "") ".pdf"
  then orElse (billNumber e) ""
  else orElse (billNumber e) ("BILL-" +:+ num expenseId) +:+ ".pdf".

(** POST /:id/attachment, lines 318-384; [now] is [Date.now()]. *)
Definition postAttachment (flt : Faults) (now : Z) (req : Request)
    : M World Reply :=
  tryCatch
    (match user req with
     | None => ret (Json 401 false "Unauthorized" None)
     | Some uid =>
       match decodedId req with
       | None => ret (Json 400 false "Invalid expense ID" None)
       | Some expenseId =>
         if expenseId <=? 0
         then ret (Json 400 false "Invalid expense ID" None)
         else
           match file req with
           | None => ret (Json 400 false "Attachment file is required" None)
           | Some f =>
             expense <- getExpenseById expenseId uid ;;
             let fileName := attachmentName expense expenseId f now in
             blobPath <- uploadFile blobs withBlobs (uploadFails flt)
                           (buffer f) fileName EXPENSE uid (mimetype f)
                           (Some "Uploaded_Documents") ;;
             (if truthy (attachmentFileName expense)
              then
                let oldBlobPath :=
                  "Expense/Uploaded_Documents/" +:+ num uid +:+ "/"
                    +:+ orElse (attachmentFileName expense) "" in
                deleteFile blobs withBlobs (deleteOldFails flt) oldBlobPath
              else ret tt) ;;;
             tryCatch
               (updateExpenseAttachmentFilename (patchFails flt)
                  expenseId uid fileName)
               (fun error =>
                  deleteFile blobs withBlobs (rollbackDeleteFails flt)
                    blobPath ;;;
                  throw error) ;;;
             ret (Json 200 true "Expense attachment uploaded successfully"
                    (Some fileName))
           end
       end
     end)
    (fun error => ret (Next error)).

(** POST /:id/pdf, lines 396-467. *)
Definition postPdf (flt : Faults) (req : Request) : M World Reply :=
  tryCatch
    (match user req with
     | None => ret (Json 401 false "Unauthorized" None)
     | Some uid =>
       match decodedId req with
       | None => ret (Json 400 false "Invalid expense ID" None)
       | Some expenseId =>
         if expenseId <=? 0
         then ret (Json 400 false "Invalid expense ID" None)
         else
           match file req with
           | None => ret (Json 400 false "Expense PDF file is required" None)
           | Some f =>
             expense <- getExpenseById expenseId uid ;;
             let fileName := pdfName expense expenseId in
             blobPath <- uploadFile blobs withBlobs (uploadFails flt)
                           (buffer f) fileName EXPENSE uid (mimetype f)
                           (Some "Generated_pdfs") ;;
             (if truthy (expenseFileName expense)
                 && negb (String.eqb (orElse (expenseFileName expense) "")
                            fileName)
              then
                let oldBlobPath :=
                  "Expense/Generated_pdfs/" +:+ num uid +:+ "/"
                    +:+ orElse (expenseFileName expense) "" in
                deleteFile blobs withBlobs (deleteOldFails flt) oldBlobPath
              else ret tt) ;;;
             tryCatch
               (updateExpensePdfFilename (patchFails flt)
                  expenseId uid fileName)
               (fun error =>
                  deleteFile blobs withBlobs (rollbackDeleteFails flt)
                    blobPath ;;;
                  throw error) ;;;
             ret (Json 200 true "Expense PDF uploaded successfully"
                    (Some fileName))
           end
       end
     end)
    (fun error => ret (Next error)).
End Handlers.

(** The record's pointers resolve: each artifact name the row holds names an
    object of the store, at the path the download routes read
    (lines 497-505 and 552-553). *)
Definition attachmentPath (e : ExpenseRow) : option string :=
  if truthy (attachmentFileName e)
  then Some ("Expense/Uploaded_Documents/" +:+ num (userId e) +:+ "/"
               +:+ orElse (attachmentFileName e) "")
  else None.

Definition pdfPath (e : ExpenseRow) : option string :=
  if truthy (expenseFileName e)
  then Some ("Expense/Generated_pdfs/" +:+ num (userId e) +:+ "/"
               +:+ orElse (expenseFileName e) "")
  else None.

Definition resolves (w : World) (p : option string) : bool :=
  match p with
  | Some p => bool_decide (is_Some (blobs w !! p))
  | None => true
  end.

End ExpenseRoutes.

(** ** Relational record store: the tables the services read and write *)

Module Database.

(** Amounts are JavaScript numbers; they are carried as exact rationals. *)
Definition Amount : Type := Q.

(** A [Date] is carried as the instant it holds, in milliseconds since the
    epoch; [new Date(s)] on a date string is the library's parse and is not
    redone here.  A [DATE] column is carried as a day number. *)
Definition Instant : Type := Z.

Definition msPerDay : Z := 86400000.

(** The calendar day of an instant on a clock [tz] milliseconds ahead of
    UTC, as a day number. *)
Definition localDay (tz : Z) (t : Instant) : Z := (t + tz) / msPerDay.

Record UserRow : Type := { u_currency : option string }.
Record ClientRow : Type := { c_userId : Z }.
Record ProjectRow : Type := { p_userId : Z }.
Record ItemRow : Type := { i_userId : Z; i_name : string }.

Record InvoiceRow : Type := {
  id : Z;
  userId : Z;
  clientId : Z;
  projectId : option Z;
  invoiceNumber : option string;
  invoiceDate : Instant;
  dueDate : Instant;
  subTotalAmount : Amount;
  gst : Amount;
  totalAmount : Amount;
  currency : option string;
  totalInstallments : Z;
  currentInstallment : Z;
  additionalNotes : option string;
  paymentReminderRepetition : option (list string);
  status : option string;
  paymentTerms : option string;
  advanceAmount : option Amount;
  balanceDue : option Amount;
  balanceDueDate : option Instant;
  createdAt : Instant;
  updatedAt : Instant;
  invoiceFileName : option string
}.

Record InvoiceItemRow : Type := {
  ii_invoiceId : Z;
  ii_itemsId : Z;
  ii_quantity : Amount;
  ii_unitPrice : Amount
}.

Record PaymentRow : Type := { pay_invoiceId : Z; pay_userId : Z; pay_amount : Amount }.

Record ReminderRow : Type := {
  r_invoiceId : Z;
  r_dueDate : Instant;
  r_repetition : string
}.

(** agreement_payment_milestones, agreement_payment_terms, agreements. *)
Record MilestoneRow : Type := {
  m_agreementPaymentTermId : Z;
  m_description : option string;
  m_amount : Amount;
  m_milestoneDate : Z;
  m_status : option string
}.
Record TermRow : Type := { t_agreementId : Z }.
Record AgreementRow : Type := {
  a_projectId : Z;
  a_userId : Z;
  a_serviceType : string
}.

Record Tables : Type := {
  users : gmap Z UserRow;
  master_clients : gmap Z ClientRow;
  projects : gmap Z ProjectRow;
  project_clients : list (Z * Z);
  items : gmap Z ItemRow;
  items_seq : Z;
  invoices : gmap Z InvoiceRow;
  invoices_seq : Z;
  invoice_items : list InvoiceItemRow;
  payments : list PaymentRow;
  payment_reminders : list ReminderRow;
  agreement_payment_milestones : gmap Z MilestoneRow;
  agreement_payment_terms : gmap Z TermRow;
  agreements : gmap Z AgreementRow
}.

(** The relational store and the artifact store side by side. *)
Record World : Type := { db : Tables; blobs : gmap string Blob }.

Definition withDb (f : Tables -> Tables) (w : World) : World :=
  {| db := f (db w); blobs := blobs w |}.
Definition withBlobs (b : gmap string Blob) (w : World) : World :=
  {| db := db w; blobs := b |}.

Definition setInvoices (v : gmap Z InvoiceRow) (t : Tables) : Tables :=
  {| users := users t; master_clients := master_clients t;
     projects := projects t; project_clients := project_clients t;
     items := items t; items_seq := items_seq t;
     invoices := v; invoices_seq := invoices_seq t;
     invoice_items := invoice_items t; payments := payments t;
     payment_reminders := payment_reminders t;
     agreement_payment_milestones := agreement_payment_milestones t;
     agreement_payment_terms := agreement_payment_terms t;
     agreements := agreements t |}.

Definition setInvoicesSeq (v : Z) (t : Tables) : Tables :=
  {| users := users t; master_clients := master_clients t;
     projects := projects t; project_clients := project_clients t;
     items := items t; items_seq := items_seq t;
     invoices := invoices t; invoices_seq := v;
     invoice_items := invoice_items t; payments := payments t;
     payment_reminders := payment_reminders t;
     agreement_payment_milestones := agreement_payment_milestones t;
     agreement_payment_terms := agreement_payment_terms t;
     agreements := agreements t |}.

Definition setInvoiceItems (v : list InvoiceItemRow) (t : Tables) : Tables :=
  {| users := users t; master_clients := master_clients t;
     projects := projects t; project_clients := project_clients t;
     items := items t; items_seq := items_seq t;
     invoices := invoices t; invoices_seq := invoices_seq t;
     invoice_items := v; payments := payments t;
     payment_reminders := payment_reminders t;
     agreement_payment_milestones := agreement_payment_milestones t;
     agreement_payment_terms := agreement_payment_terms t;
     agreements := agreements t |}.

Definition setPayments (v : list PaymentRow) (t : Tables) : Tables :=
  {| users := users t; master_clients := master_clients t;
     projects := projects t; project_clients := project_clients t;
     items := items t; items_seq := items_seq t;
     invoices := invoices t; invoices_seq := invoices_seq t;
     invoice_items := invoice_items t; payments := v;
     payment_reminders := payment_reminders t;
     agreement_payment_milestones := agreement_payment_milestones t;
     agreement_payment_terms := agreement_payment_terms t;
     agreements := agreements t |}.

Definition setPaymentReminders (v : list ReminderRow) (t : Tables) : Tables :=
  {| users := users t; master_clients := master_clients t;
     projects := projects t; project_clients := project_clients t;
     items := items t; items_seq := items_seq t;
     invoices := invoices t; invoices_seq := invoices_seq t;
     invoice_items := invoice_items t; payments := payments t;
     payment_reminders := v;
     agreement_payment_milestones := agreement_payment_milestones t;
     agreement_payment_terms := agreement_payment_terms t;
     agreements := agreements t |}.

Definition setItems (v : gmap Z ItemRow) (seq : Z) (t : Tables) : Tables :=
  {| users := users t; master_clients := master_clients t;
     projects := projects t; project_clients := project_clients t;
     items := v; items_seq := seq;
     invoices := invoices t; invoices_seq := invoices_seq t;
     invoice_items := invoice_items t; payments := payments t;
     payment_reminders := payment_reminders t;
     agreement_payment_milestones := agreement_payment_milestones t;
     agreement_payment_terms := agreement_payment_terms t;
     agreements := agreements t |}.

Definition setMilestones (v : gmap Z MilestoneRow) (t : Tables) : Tables :=
  {| users := users t; master_clients := master_clients t;
     projects := projects t; project_clients := project_clients t;
     items := items t; items_seq := items_seq t;
     invoices := invoices t; invoices_seq := invoices_seq t;
     invoice_items := invoice_items t; payments := payments t;
     payment_reminders := payment_reminders t;
     agreement_payment_milestones := v;
     agreement_payment_terms := agreement_payment_terms t;
     agreements := agreements t |}.

(** [BEGIN ... COMMIT], with [ROLLBACK] in the catch block: what the
    transaction's own connection wrote is undone.  Sequences are not
    transactional, and the reminder service writes through a connection of
    its own, so neither is restored. *)
Definition rollbackTo (before after : Tables) : Tables :=
  setPaymentReminders (payment_reminders after)
    (setInvoicesSeq (invoices_seq after) before).

End Database.
Import Database.

(** ** Invoice service (services/invoiceService.ts) *)

Module InvoiceService.

Record InvoiceItemCreateData : Type := {
  itemsId : Z;
  quantity : Amount;
  unitPrice : Amount
}.

(** [InvoiceCreateData]; an absent optional field is [None]. *)
Record InvoiceCreateData : Type := {
  cd_userId : Z;
  cd_clientId : Z;
  cd_projectId : option Z;
  cd_invoiceNumber : option string;
  cd_invoiceDate : Instant;
  cd_dueDate : Instant;
  cd_subTotalAmount : option Amount;
  cd_gst : option Amount;
  cd_totalAmount : option Amount;
  cd_items : list InvoiceItemCreateData;
  cd_currency : option string;
  cd_totalInstallments : option Z;
  cd_currentInstallment : option Z;
  cd_additionalNotes : option string;
  cd_paymentReminderRepetition : option (list string);
  cd_paymentTerms : option string;
  cd_advanceAmount : option Amount;
  cd_balanceDue : option Amount;
  cd_balanceDueDate : option Instant
}.

(** [InvoiceUpdateData]: [None] is [undefined]; a nullable column has a
    second option for [null]. *)
Record InvoiceUpdateData : Type := {
  ud_clientId : option Z;
  ud_projectId : option (option Z);
  ud_invoiceNumber : option string;
  ud_invoiceDate : option Instant;
  ud_dueDate : option Instant;
  ud_subTotalAmount : option Amount;
  ud_gst : option Amount;
  ud_totalAmount : option Amount;
  ud_currency : option string;
  ud_totalInstallments : option Z;
  ud_currentInstallment : option Z;
  ud_additionalNotes : option string;
  ud_paymentReminderRepetition : option (option (list string));
  ud_status : option string;
  ud_paymentTerms : option string;
  ud_advanceAmount : option (option Amount);
  ud_balanceDue : option (option Amount);
  ud_balanceDueDate : option (option Instant)
}.

(** The patch with every field [undefined]. *)
Definition emptyUpdate : InvoiceUpdateData :=
  {| ud_clientId := None; ud_projectId := None; ud_invoiceNumber := None;
     ud_invoiceDate := None; ud_dueDate := None; ud_subTotalAmount := None;
     ud_gst := None; ud_totalAmount := None; ud_currency := None;
     ud_totalInstallments := None; ud_currentInstallment := None;
     ud_additionalNotes := None; ud_paymentReminderRepetition := None;
     ud_status := None; ud_paymentTerms := None; ud_advanceAmount := None;
     ud_balanceDue := None; ud_balanceDueDate := None |}.

(** Truthiness and [||] on nullable numbers: [0] is falsy. *)
Definition truthyQ (x : option Amount) : bool :=
  match x with Some q => negb (Qeq_bool q 0) | None => false end.
Definition orElseQ (x : option Amount) (d : Amount) : Amount :=
  match x with Some q => if Qeq_bool q 0 then d else q | None => d end.
Definition nullIfFalsyQ (x : option Amount) : option Amount :=
  if truthyQ x then x else None.
Definition truthyZ (x : option Z) : bool :=
  match x with Some z => negb (z =? 0) | None => false end.
Definition orElseZ (x : option Z) (d : Z) : Z :=
  match x with Some z => if z =? 0 then d else z | None => d end.
Definition nullIfFalsy (s : option string) : option string :=
  if truthy s then s else None.

(** Lines 1099-1139: the row as the API returns it, with its defaults.
    The driver hands a NUMERIC column over as a string, so a stored zero
    (['0.00']) is truthy: [advanceAmount] and [balanceDue] are null only
    when the column is. *)
Definition mapInvoiceToResponse (r : InvoiceRow) : InvoiceRow :=
  {| id := id r; userId := userId r; clientId := clientId r;
     projectId := if truthyZ (projectId r) then projectId r else None;
     invoiceNumber := invoiceNumber r;
     invoiceDate := invoiceDate r; dueDate := dueDate r;
     subTotalAmount := subTotalAmount r; gst := gst r;
     totalAmount := totalAmount r;
     currency := Some (orElse (currency r) "INR");
     totalInstallments := totalInstallments r;
     currentInstallment := currentInstallment r;
     additionalNotes := additionalNotes r;
     paymentReminderRepetition := paymentReminderRepetition r;
     status := Some (orElse (status r) "pending");
     paymentTerms := Some (orElse (paymentTerms r) "full");
     advanceAmount := advanceAmount r;
     balanceDue := balanceDue r;
     balanceDueDate := balanceDueDate r;
     createdAt := createdAt r; updatedAt := updatedAt r;
     invoiceFileName := invoiceFileName r |}.

(** [SELECT ... FROM invoices WHERE id = $1 AND "userId" = $2] *)
Definition selectInvoice (t : Tables) (invoiceId uid : Z) : option InvoiceRow :=
  match invoices t !! invoiceId with
  | Some r => if decide (userId r = uid) then Some r else None
  | None => None
  end.

(** [SELECT id FROM t WHERE id = $1 AND "userId" = $2] has a row. *)
Definition ownedBy {R} (owner : R -> Z) (t : gmap Z R) (k uid : Z) : bool :=
  match t !! k with
  | Some r => bool_decide (owner r = uid)
  | None => false
  end.

(** Modelled from the spec: services/paymentService.ts is not among the
    sources; leaving [paid] deletes the payment records of the invoice, on
    the caller's transaction. *)
Definition deletePaymentsByInvoiceId (invoiceId uid : Z) : M World unit :=
  modify (withDb (fun t => setPayments
    (filter (fun p => ¬ (pay_invoiceId p = invoiceId ∧ pay_userId p = uid))
            (payments t)) t)).

(** Modelled from the spec: services/paymentReminderService.ts is not among
    the sources and the spec only names the repetition field; a reminder
    row per repetition value stands for the schedule. *)
Definition createPaymentReminders (fault : option Exn) (invoiceId : Z)
    (due : Instant) (repetition : list string) : M World unit :=
  failWhen fault ;;;
  modify (withDb (fun t => setPaymentReminders
    (payment_reminders t ++
       map (fun k => {| r_invoiceId := invoiceId; r_dueDate := due;
                        r_repetition := k |}) repetition) t)).

(** Modelled from the spec: the same service's delete, by invoice. *)
Definition deletePaymentRemindersByInvoiceId (fault : option Exn) (invoiceId : Z)
    : M World unit :=
  failWhen fault ;;;
  modify (withDb (fun t => setPaymentReminders
    (filter (fun r => r_invoiceId r ≠ invoiceId) (payment_reminders t)) t)).

(** The catch block of a transactional service function: [ROLLBACK], then
    an [AppError] is rethrown and anything else becomes a 500. *)
Definition rollbackAndRethrow {A} (before : World) (text : string)
    (error : Exn) : M World A :=
  modify (withDb (rollbackTo (db before))) ;;;
  if instanceofAppError error then throw error
  else throw (AppError text 500).

(** The NotFound of every invoice operation. *)
Definition notFound : Exn := AppError "Invoice not found" 404.

Section Service.
(** Offset of the process's local time from UTC, in milliseconds. *)
Variable tz : Z.
(** What the schema stores in "invoiceNumber" for row [id] when the
    INSERT gives NULL; the schema is not among the sources. *)
Variable invoiceNumberDefault : Z -> option string.
(** The PDF layout of [generateInvoicePdf], lines 605-903. *)
Variable render : InvoiceRow -> list InvoiceItemRow -> Buffer.

(** [d.setHours(0, 0, 0, 0)] *)
Definition setHours0 (t : Instant) : Instant := t - (t + tz) mod msPerDay.

(** Lines 86-90 and 445-452: [dueDateObj < today ? 'overdue' : 'pending']
    after both were moved to local midnight. *)
Definition statusFor (due now : Instant) : string :=
  if setHours0 due <? setHours0 now then "overdue" else "pending".

(** Lines 60-78. *)
Definition subTotalOf (d : InvoiceCreateData) : Amount :=
  if negb (length (cd_items d) =? 0)%nat && negb (truthyQ (cd_subTotalAmount d))
  then fold_left (fun sum item => sum + quantity item * unitPrice item)%Q
         (cd_items d) 0%Q
  else orElseQ (cd_subTotalAmount d) 0%Q.

Definition totalOf (d : InvoiceCreateData) : Amount :=
  let gstPercentage := orElseQ (cd_gst d) 0%Q in
  if negb (length (cd_items d) =? 0)%nat && negb (truthyQ (cd_subTotalAmount d))
  then
    if negb (truthyQ (cd_totalAmount d)) && negb (Qle_bool gstPercentage 0)
    then (subTotalOf d + subTotalOf d * gstPercentage / 100)%Q
    else if negb (truthyQ (cd_totalAmount d)) then subTotalOf d
    else orElseQ (cd_totalAmount d) 0%Q
  else orElseQ (cd_totalAmount d) 0%Q.

(** The row of the INSERT, lines 93-131.  Amounts are exact rationals
    where the code computes in doubles.  [dueDate] is stored as passed, as
    it is when the caller passes a string; when the caller passes a Date
    object, line 89 moves that object to its local midnight before the
    INSERT reads it. *)
Definition newInvoiceRow (w : World) (now : Instant) (d : InvoiceCreateData)
    : InvoiceRow :=
  let newId := invoices_seq (db w) + 1 in
  let defaultCurrency :=
    orElse (from_option u_currency None (users (db w) !! cd_userId d)) "INR" in
  {| id := newId; userId := cd_userId d; clientId := cd_clientId d;
     projectId := if truthyZ (cd_projectId d) then cd_projectId d else None;
     invoiceNumber :=
       if truthy (cd_invoiceNumber d) then cd_invoiceNumber d
       else invoiceNumberDefault newId;
     invoiceDate := cd_invoiceDate d; dueDate := cd_dueDate d;
     subTotalAmount := subTotalOf d;
     gst := orElseQ (cd_gst d) 0%Q;
     totalAmount := totalOf d;
     currency := Some (orElse (cd_currency d) defaultCurrency);
     totalInstallments := orElseZ (cd_totalInstallments d) 1;
     currentInstallment := orElseZ (cd_currentInstallment d) 1;
     additionalNotes :=
       Some (orElse (cd_additionalNotes d) "Thank you for your business");
     paymentReminderRepetition :=
       match cd_paymentReminderRepetition d with
       | Some (k :: ks) => Some (k :: ks)
       | _ => None
       end;
     status := Some (statusFor (cd_dueDate d) now);
     paymentTerms := Some (orElse (cd_paymentTerms d) "full");
     advanceAmount := nullIfFalsyQ (cd_advanceAmount d);
     balanceDue := nullIfFalsyQ (cd_balanceDue d);
     balanceDueDate := cd_balanceDueDate d;
     createdAt := now; updatedAt := now;
     invoiceFileName := None |}.

(** Lines 136-156: each item is checked, then inserted. *)
Fixpoint insertItems (invoiceId uid : Z) (l : list InvoiceItemCreateData)
    : M World unit :=
  match l with
  | [] => ret tt
  | item :: rest =>
    w <- get ;;
    if ownedBy i_userId (items (db w)) (itemsId item) uid
    then
      modify (withDb (fun t => setInvoiceItems
        (invoice_items t ++
           [{| ii_invoiceId := invoiceId; ii_itemsId := itemsId item;
               ii_quantity := quantity item;
               ii_unitPrice := unitPrice item |}]) t)) ;;;
      insertItems invoiceId uid rest
    else throw (AppError ("Item with ID " +:+ num (itemsId item)
                            +:+ " not found") 404)
  end.

(** [createInvoice], lines 18-185.  [dbFault]: the first statement of the
    transaction fails; [reminderFault]: the reminder service fails. *)
Definition createInvoice (dbFault reminderFault : option Exn) (now : Instant)
    (d : InvoiceCreateData) : M World InvoiceRow :=
  before <- get ;;
  tryCatch
    (failWhen dbFault ;;;
     w <- get ;;
     (if bool_decide (is_Some (users (db w) !! cd_userId d)) then ret tt
      else throw (AppError "User not found" 404)) ;;;
     (if ownedBy c_userId (master_clients (db w)) (cd_clientId d) (cd_userId d)
      then ret tt else throw (AppError "Client not found" 404)) ;;;
     (if truthyZ (cd_projectId d)
      then
        if ownedBy p_userId (projects (db w))
             (default 0 (cd_projectId d)) (cd_userId d)
        then ret tt else throw (AppError "Project not found" 404)
      else ret tt) ;;;
     let invoice := newInvoiceRow w now d in
     modify (withDb (fun t =>
       setInvoices (<[id invoice := invoice]> (invoices t))
         (setInvoicesSeq (id invoice) t))) ;;;
     insertItems (id invoice) (cd_userId d) (cd_items d) ;;;
     match cd_paymentReminderRepetition d with
     | Some repetition =>
       tryCatch
         (createPaymentReminders reminderFault (id invoice) (cd_dueDate d)
            repetition)
         (fun _ => ret tt)
     | None => ret tt
     end ;;;
     ret (mapInvoiceToResponse invoice))
    (rollbackAndRethrow before "Failed to create invoice").

(** [getInvoiceById], lines 222-255. *)
Definition getInvoiceById (dbFault : option Exn) (invoiceId uid : Z)
    : M World InvoiceRow :=
  tryCatch
    (failWhen dbFault ;;;
     w <- get ;;
     match selectInvoice (db w) invoiceId uid with
     | None => throw (AppError "Invoice not found" 404)
     | Some r => ret (mapInvoiceToResponse r)
     end)
    (fun error =>
       if instanceofAppError error then throw error
       else throw (AppError "Failed to retrieve invoice" 500)).
(** Lines 313-419: the SET clauses, in the order they are pushed. *)
Definition updateFields (u : InvoiceUpdateData) : list string :=
  (if ud_clientId u is Some _ then ["clientId"] else []) ++
  (if ud_projectId u is Some _ then ["projectId"] else []) ++
  (if ud_invoiceNumber u is Some _ then ["invoiceNumber"] else []) ++
  (if ud_invoiceDate u is Some _ then ["invoiceDate"] else []) ++
  (if ud_dueDate u is Some _ then ["dueDate"] else []) ++
  (if ud_subTotalAmount u is Some _ then ["subTotalAmount"] else []) ++
  (if ud_gst u is Some _ then ["gst"] else []) ++
  (if ud_totalAmount u is Some _ then ["totalAmount"] else []) ++
  (if ud_currency u is Some _ then ["currency"] else []) ++
  (if ud_totalInstallments u is Some _ then ["totalInstallments"] else []) ++
  (if ud_currentInstallment u is Some _ then ["currentInstallment"] else []) ++
  (if ud_additionalNotes u is Some _ then ["additionalNotes"] else []) ++
  (if ud_paymentReminderRepetition u is Some _
   then ["paymentReminderRepetition"] else []) ++
  (if ud_status u is Some _ then ["status"] else []) ++
  (if ud_paymentTerms u is Some _ then ["paymentTerms"] else []) ++
  (if ud_advanceAmount u is Some _ then ["advanceAmount"] else []) ++
  (if ud_balanceDue u is Some _ then ["balanceDue"] else []) ++
  (if ud_balanceDueDate u is Some _ then ["balanceDueDate"] else []).

(** The row after [UPDATE invoices SET ..., "updatedAt" =
    CURRENT_TIMESTAMP], lines 427-439. *)
Definition updatedRow (r : InvoiceRow) (u : InvoiceUpdateData)
    (now : Instant) : InvoiceRow :=
  {| id := id r; userId := userId r;
     clientId := default (clientId r) (ud_clientId u);
     projectId := default (projectId r) (ud_projectId u);
     invoiceNumber :=
       if ud_invoiceNumber u is Some n then Some n else invoiceNumber r;
     invoiceDate := default (invoiceDate r) (ud_invoiceDate u);
     dueDate := default (dueDate r) (ud_dueDate u);
     subTotalAmount := default (subTotalAmount r) (ud_subTotalAmount u);
     gst := default (gst r) (ud_gst u);
     totalAmount := default (totalAmount r) (ud_totalAmount u);
     currency := if ud_currency u is Some c then Some c else currency r;
     totalInstallments :=
       default (totalInstallments r) (ud_totalInstallments u);
     currentInstallment :=
       default (currentInstallment r) (ud_currentInstallment u);
     additionalNotes :=
       if ud_additionalNotes u is Some n then Some n else additionalNotes r;
     paymentReminderRepetition :=
       match ud_paymentReminderRepetition u with
       | Some (Some (k :: ks)) => Some (k :: ks)
       | Some _ => None
       | None => paymentReminderRepetition r
       end;
     status := if ud_status u is Some s then Some s else status r;
     paymentTerms :=
       if ud_paymentTerms u is Some p then Some p else paymentTerms r;
     advanceAmount := default (advanceAmount r) (ud_advanceAmount u);
     balanceDue := default (balanceDue r) (ud_balanceDue u);
     balanceDueDate := default (balanceDueDate r) (ud_balanceDueDate u);
     createdAt := createdAt r; updatedAt := now;
     invoiceFileName := invoiceFileName r |}.

Definition withStatus (s : string) (r : InvoiceRow) : InvoiceRow :=
  {| id := id r; userId := userId r; clientId := clientId r;
     projectId := projectId r; invoiceNumber := invoiceNumber r;
     invoiceDate := invoiceDate r; dueDate := dueDate r;
     subTotalAmount := subTotalAmount r; gst := gst r;
     totalAmount := totalAmount r; currency := currency r;
     totalInstallments := totalInstallments r;
     currentInstallment := currentInstallment r;
     additionalNotes := additionalNotes r;
     paymentReminderRepetition := paymentReminderRepetition r;
     status := Some s; paymentTerms := paymentTerms r;
     advanceAmount := advanceAmount r; balanceDue := balanceDue r;
     balanceDueDate := balanceDueDate r;
     createdAt := createdAt r; updatedAt := updatedAt r;
     invoiceFileName := invoiceFileName r |}.

Definition withFileName (f : string) (now : Instant) (r : InvoiceRow)
    : InvoiceRow :=
  {| id := id r; userId := userId r; clientId := clientId r;
     projectId := projectId r; invoiceNumber := invoiceNumber r;
     invoiceDate := invoiceDate r; dueDate := dueDate r;
     subTotalAmount := subTotalAmount r; gst := gst r;
     totalAmount := totalAmount r; currency := currency r;
     totalInstallments := totalInstallments r;
     currentInstallment := currentInstallment r;
     additionalNotes := additionalNotes r;
     paymentReminderRepetition := paymentReminderRepetition r;
     status := status r; paymentTerms := paymentTerms r;
     advanceAmount := advanceAmount r; balanceDue := balanceDue r;
     balanceDueDate := balanceDueDate r;
     createdAt := createdAt r; updatedAt := now;
     invoiceFileName := Some f |}.

(** Line 389. *)
Definition validStatus (s : string) : bool :=
  bool_decide (s ∈ ["paid"; "pending"; "overdue"]).

(** Lines 443-459 in one piece: the row [updateInvoice] ends with, from
    the row its UPDATE returned. *)
Definition statusAfterUpdate (u : InvoiceUpdateData) (now : Instant)
    (returned : InvoiceRow) : InvoiceRow :=
  match ud_dueDate u, ud_status u with
  | Some due, None =>
    if bool_decide (status returned = Some "paid") then returned
    else withStatus (statusFor due now) returned
  | _, _ => returned
  end.

(** [updateInvoice], lines 260-495.  [dbFault]: the first statement of the
    transaction fails; the other two faults are the reminder service's. *)
Definition updateInvoice (dbFault reminderDeleteFault reminderCreateFault : option Exn)
    (now : Instant) (invoiceId uid : Z) (u : InvoiceUpdateData)
    : M World InvoiceRow :=
  before <- get ;;
  tryCatch
    (failWhen dbFault ;;;
     w <- get ;;
     match selectInvoice (db w) invoiceId uid with
     | None => throw (AppError "Invoice not found" 404)
     | Some existing =>
       let currentStatus := status existing in
       (if bool_decide (currentStatus = Some "paid")
           && (bool_decide (ud_status u = Some "pending")
               || bool_decide (ud_status u = Some "overdue"))
        then deletePaymentsByInvoiceId invoiceId uid else ret tt) ;;;
       (if truthyZ (ud_clientId u)
        then
          if ownedBy c_userId (master_clients (db w))
               (default 0 (ud_clientId u)) uid
          then ret tt else throw (AppError "Client not found" 404)
        else ret tt) ;;;
       (match ud_projectId u with
        | Some (Some p) =>
          if ownedBy p_userId (projects (db w)) p uid
          then ret tt else throw (AppError "Project not found" 404)
        | _ => ret tt
        end) ;;;
       (match ud_status u with
        | Some s =>
          if validStatus s then ret tt
          else throw (AppError
                 "Invalid status. Must be one of: paid, pending, overdue" 400)
        | None => ret tt
        end) ;;;
       (if (length (updateFields u) =? 0)%nat
        then throw (AppError "No fields to update" 400) else ret tt) ;;;
       let returned := updatedRow existing u now in
       modify (withDb (fun t =>
         setInvoices (<[invoiceId := returned]> (invoices t)) t)) ;;;
       updatedInvoice <-
         match ud_dueDate u, ud_status u with
         | Some due, None =>
           if bool_decide (status returned = Some "paid") then ret returned
           else
             let newStatus := statusFor due now in
             modify (withDb (fun t =>
               setInvoices (alter (withStatus newStatus) invoiceId
                              (invoices t)) t)) ;;;
             ret (withStatus newStatus returned)
         | _, _ => ret returned
         end ;;
       (if bool_decide (is_Some (ud_paymentReminderRepetition u))
           || bool_decide (is_Some (ud_dueDate u))
        then
          tryCatch
            (deletePaymentRemindersByInvoiceId reminderDeleteFault invoiceId ;;;
             match paymentReminderRepetition updatedInvoice with
             | Some repetition =>
               createPaymentReminders reminderCreateFault invoiceId
                 (default (dueDate updatedInvoice) (ud_dueDate u)) repetition
             | None => ret tt
             end)
            (fun _ => ret tt)
        else ret tt) ;;;
       ret (mapInvoiceToResponse updatedInvoice)
     end)
    (rollbackAndRethrow before "Failed to update invoice").

(** [deleteInvoice], lines 500-541; the DELETE cascades to the invoice's
    items. *)
Definition deleteInvoice (dbFault blobFault : option Exn) (invoiceId uid : Z)
    : M World unit :=
  tryCatch
    (failWhen dbFault ;;;
     w <- get ;;
     match selectInvoice (db w) invoiceId uid with
     | None => throw (AppError "Invoice not found" 404)
     | Some invoice =>
       modify (withDb (fun t =>
         setInvoiceItems
           (filter (fun i => ii_invoiceId i ≠ invoiceId) (invoice_items t))
           (setInvoices (delete invoiceId (invoices t)) t))) ;;;
       if truthy (invoiceFileName invoice)
       then
         tryCatch
           (deleteFile blobs withBlobs blobFault
              ("Invoices/" +:+ num uid +:+ "/"
                 +:+ orElse (invoiceFileName invoice) ""))
           (fun _ => ret tt)
       else ret tt
     end)
    (fun error =>
       if instanceofAppError error then throw error
       else throw (AppError "Failed to delete invoice" 500)).

(** [generateInvoicePdf], lines 546-909: the joined SELECT, then the
    layout.  The function is [new Promise(async (resolve, reject) => ...)].
    Before line 603 a failure reaches the catch block of lines 904-907,
    which releases the client and rejects.  Line 603 releases the client,
    so when the layout fails afterwards ([renderFault]) the catch block
    releases it a second time; that call throws before [reject] is reached
    and the promise never settles. *)
Definition generateInvoicePdf (renderFault : option Exn) (invoiceId uid : Z)
    : M World Buffer :=
  w <- get ;;
  match selectInvoice (db w) invoiceId uid with
  | Some r =>
    if bool_decide (is_Some (users (db w) !! uid))
       && bool_decide (is_Some (master_clients (db w) !! clientId r))
    then
      hangWhen renderFault ;;;
      ret (render r
             (filter (fun i => ii_invoiceId i = invoiceId)
                     (invoice_items (db w))))
    else throw (AppError "Invoice not found" 404)
  | None => throw (AppError "Invoice not found" 404)
  end.

(** [updateInvoicePdfFilename], lines 914-936. *)
Definition updateInvoicePdfFilename (dbFault : option Exn) (now : Instant)
    (invoiceId uid : Z) (fileName : string) : M World unit :=
  failWhen dbFault ;;;
  w <- get ;;
  match selectInvoice (db w) invoiceId uid with
  | None => throw (AppError "Invoice not found" 404)
  | Some r =>
    modify (withDb (fun t =>
      setInvoices (<[invoiceId := withFileName fileName now r]> (invoices t)) t))
  end.
End Service.

End InvoiceService.

(** ** Milestone invoice service (services/milestoneInvoiceService.ts) *)

Module MilestoneInvoiceService.
Import InvoiceService.

(** [ProcessMilestoneInvoicesResult], lines 9-14. *)
Record ProcessMilestoneInvoicesResult : Type := {
  processed : Z;
  created : Z;
  failed : Z;
  errors : list (Z * string)
}.

(** A run: the two stores and the [result] object the loops mutate. *)
Record Run : Type := {
  world : World;
  result : ProcessMilestoneInvoicesResult
}.

Definition liftW {A} (m : M World A) : M Run A :=
  fun r => match m (world r) with
           | (o, w) => (o, {| world := w; result := result r |})
           end.
Definition onResult (f : ProcessMilestoneInvoicesResult -> ProcessMilestoneInvoicesResult)
    : M Run unit :=
  modify (fun r => {| world := world r; result := f (result r) |}).

Definition incProcessed (x : ProcessMilestoneInvoicesResult) :=
  {| processed := processed x + 1; created := created x;
     failed := failed x; errors := errors x |}.
Definition incCreated (x : ProcessMilestoneInvoicesResult) :=
  {| processed := processed x; created := created x + 1;
     failed := failed x; errors := errors x |}.
(** [result.failed++; result.errors.push({ milestoneId, error })] *)
Definition recordFailure (milestoneId : Z) (text : string)
    (x : ProcessMilestoneInvoicesResult) :=
  {| processed := processed x; created := created x;
     failed := failed x + 1; errors := errors x ++ [(milestoneId, text)] |}.

(** A row of the SELECT of lines 83-102. *)
Record DueMilestone : Type := {
  id : Z;
  agreementPaymentTermId : Z;
  description : option string;
  amount : Amount;
  milestoneDate : Z;
  status : option string;
  agreementId : Z;
  projectId : Z;
  userId : Z;
  serviceType : string
}.

(** Which awaited calls of a run go wrong, by milestone and by client.
    [connectFails] is [pool.connect()] of line 61; [renderFails] is the
    layout inside generateInvoicePdf, whose failure leaves that promise
    unsettled. *)
Record Faults : Type := {
  connectFails : option Exn;
  queryFails : option Exn;
  clientsFail : Z -> option Exn;
  itemsFail : Z -> option Exn;
  createFails : Z -> Z -> option Exn;
  renderFails : Z -> Z -> option Exn;
  uploadFails : Z -> Z -> option Exn;
  patchFails : Z -> Z -> option Exn;
  markFails : Z -> option Exn
}.

Definition noFaults : Faults :=
  {| connectFails := None;
     queryFails := None; clientsFail := fun _ => None;
     itemsFail := fun _ => None; createFails := fun _ _ => None;
     renderFails := fun _ _ => None; uploadFails := fun _ _ => None;
     patchFails := fun _ _ => None; markFails := fun _ => None |}.

(** Two fault plans that differ at most in two of the PDF steps of a
    client: the upload and the file-name patch. *)
Definition sameButUploadSteps (f1 f2 : Faults) : Prop :=
  connectFails f1 = connectFails f2
  ∧ queryFails f1 = queryFails f2
  ∧ (forall m, clientsFail f1 m = clientsFail f2 m)
  ∧ (forall m, itemsFail f1 m = itemsFail f2 m)
  ∧ (forall m c, createFails f1 m c = createFails f2 m c)
  ∧ (forall m c, renderFails f1 m c = renderFails f2 m c)
  ∧ (forall m, markFails f1 m = markFails f2 m).

(** An invoice row without its artifact pointer and the timestamp the
    pointer's patch touches. *)
Definition withoutArtifact (r : InvoiceRow) : InvoiceRow :=
  {| Database.id := Database.id r; Database.userId := Database.userId r;
     clientId := clientId r; Database.projectId := Database.projectId r;
     invoiceNumber := invoiceNumber r;
     invoiceDate := invoiceDate r; dueDate := dueDate r;
     subTotalAmount := subTotalAmount r; gst := gst r;
     totalAmount := totalAmount r; currency := currency r;
     totalInstallments := totalInstallments r;
     currentInstallment := currentInstallment r;
     additionalNotes := additionalNotes r;
     paymentReminderRepetition := paymentReminderRepetition r;
     Database.status := Database.status r; paymentTerms := paymentTerms r;
     advanceAmount := advanceAmount r; balanceDue := balanceDue r;
     balanceDueDate := balanceDueDate r;
     createdAt := createdAt r; updatedAt := 0;
     invoiceFileName := None |}.

(** Everything the relational store holds apart from the artifact
    pointers: all tables, with the invoices blanked as above. *)
Definition records (w : World) : Tables :=
  setInvoices (withoutArtifact <$> invoices (db w)) (db w).

Definition sameRecords (w1 w2 : World) : Prop := records w1 = records w2.

Definition sameRun (r1 r2 : Run) : Prop :=
  sameRecords (world r1) (world r2) ∧ result r1 = result r2.

(** [s.toLowerCase()], on the ASCII letters of a string of bytes; letters
    outside ASCII are left as they are. *)
Definition lowerAscii (c : ascii) : ascii :=
  let n := nat_of_ascii c in
  if ((65 <=? n) && (n <=? 90))%nat then ascii_of_nat (n + 32) else c.
Fixpoint toLowerCase (s : string) : string :=
  match s with
  | EmptyString => EmptyString
  | String c r => String (lowerAscii c) (toLowerCase r)
  end.

(** Rows of a table in key order. *)
Definition rowsById {R} (t : gmap Z R) : list (Z * R) :=
  merge_sort (fun a b => Z.leb a.1 b.1) (map_to_list t).

(** Modelled from the spec: services/projectClientService.ts is not among
    the sources; "resolve its project's clients". *)
Definition getClientsByProjectId (fault : option Exn) (project uid : Z)
    : M World (list Z) :=
  failWhen fault ;;;
  w <- get ;;
  ret (map snd (filter (fun pc => pc.1 = project) (project_clients (db w)))).

(** Modelled from the spec: services/itemService.ts is not among the
    sources; the owner's line-item categories. *)
Definition getItemsByUserId (fault : option Exn) (uid : Z)
    : M World (list (Z * ItemRow)) :=
  failWhen fault ;;;
  w <- get ;;
  ret (filter (fun i => i_userId i.2 = uid) (rowsById (items (db w)))).

(** Modelled from the spec: the same service's insert of a new category. *)
Definition createItem (name : string) (uid : Z) : M World Z :=
  w <- get ;;
  let newId := items_seq (db w) + 1 in
  modify (withDb (fun t =>
    setItems (<[newId := {| i_userId := uid; i_name := name |}]> (items t))
      newId t)) ;;;
  ret newId.

(** [getOrCreateItemByName], lines 22-48. *)
Definition getOrCreateItemByName (fault : option Exn) (uid : Z) (itemName : string)
    : M World Z :=
  tryCatch
    (existing <- getItemsByUserId fault uid ;;
     match
       find (fun i => String.eqb (toLowerCase (i_name i.2)) (toLowerCase itemName))
            existing
     with
     | Some existingItem => ret existingItem.1
     | None => createItem itemName uid
     end)
    (fun error => throw error).

(** [for (const x of l) { body }] *)
Fixpoint forOf {S A} (l : list A) (body : A -> M S unit) : M S unit :=
  match l with
  | [] => ret tt
  | x :: rest => body x ;;; forOf rest body
  end.

(** [`${v}`] of a nullable string. *)
Definition template (v : option string) : string := default "null" v.

Section Processor.
Variable tz : Z.
Variable invoiceNumberDefault : Z -> option string.
Variable render : InvoiceRow -> list InvoiceItemRow -> Buffer.

(** Lines 72-76: the local date of the process, as a day number. *)
Definition todayOf (now : Instant) : Z := localDay tz now.

(** Lines 83-102: due, unprocessed milestones joined with their term and
    agreement, ordered by id. *)
Definition selectDueMilestones (t : Tables) (today : Z) : list DueMilestone :=
  omap (fun kv : Z * MilestoneRow =>
          let (k, m) := kv in
          term ← agreement_payment_terms t !! m_agreementPaymentTermId m;
          a ← agreements t !! t_agreementId term;
          if bool_decide (m_milestoneDate m = today)
             && (bool_decide (m_status m = Some "pending")
                 || bool_decide (m_status m = None))
          then Some {| id := k;
                       agreementPaymentTermId := m_agreementPaymentTermId m;
                       description := m_description m;
                       amount := m_amount m;
                       milestoneDate := m_milestoneDate m;
                       status := m_status m;
                       agreementId := t_agreementId term;
                       projectId := a_projectId a;
                       userId := a_userId a;
                       serviceType := a_serviceType a |}
          else None)
       (rowsById (agreement_payment_milestones t)).

(** Lines 264-269: [UPDATE agreement_payment_milestones SET status =
    'created' WHERE id = $1]. *)
Definition markCreated (fault : option Exn) (milestoneId : Z) : M World unit :=
  failWhen fault ;;;
  modify (withDb (fun t => setMilestones
    (alter (fun m => {| m_agreementPaymentTermId := m_agreementPaymentTermId m;
                        m_description := m_description m;
                        m_amount := m_amount m;
                        m_milestoneDate := m_milestoneDate m;
                        m_status := Some "created" |})
           milestoneId (agreement_payment_milestones t)) t)).

(** Lines 177-198.  [milestoneDate] is the calendar day of the DATE column
    and the invoice is dated on that day.  The code takes
    [toISOString().split('T')[0]] of the Date the driver built at the
    local midnight of that day, which is the same day on a process clock
    at or west of UTC and the day before east of it. *)
Definition invoiceDataFor (m : DueMilestone) (itemId projectClient : Z)
    : InvoiceCreateData :=
  let invoiceDateStr := milestoneDate m * msPerDay in
  {| cd_userId := userId m; cd_clientId := projectClient;
     cd_projectId := Some (projectId m);
     cd_invoiceNumber := None;
     cd_invoiceDate := invoiceDateStr; cd_dueDate := invoiceDateStr;
     cd_subTotalAmount := Some (amount m);
     cd_gst := Some 0%Q;
     cd_totalAmount := Some (amount m);
     cd_items := [{| itemsId := itemId; quantity := 1%Q;
                     unitPrice := amount m |}];
     cd_currency := None; cd_totalInstallments := None;
     cd_currentInstallment := None;
     cd_additionalNotes :=
       Some (orElse (description m)
               ("Invoice for milestone: " +:+ serviceType m));
     cd_paymentReminderRepetition := None;
     cd_paymentTerms := Some "full";
     cd_advanceAmount := None; cd_balanceDue := None;
     cd_balanceDueDate := None |}.

(** Lines 207-238: generate and upload the PDF, then patch the record; any
    failure is logged and dropped. *)
Definition generateAndUpload (flt : Faults) (now : Instant) (m : DueMilestone)
    (projectClient : Z) (invoice : InvoiceRow) : M World unit :=
  tryCatch
    (pdfBuffer <- generateInvoicePdf render
                    (renderFails flt (id m) projectClient)
                    (Database.id invoice) (userId m) ;;
     let fileName := template (invoiceNumber invoice) +:+ ".pdf" in
     blobPath <- uploadFile blobs withBlobs
                   (uploadFails flt (id m) projectClient)
                   pdfBuffer fileName INVOICE (userId m) "application/pdf"
                   None ;;
     updateInvoicePdfFilename (patchFails flt (id m) projectClient) now
       (Database.id invoice) (userId m) fileName)
    (fun pdfError => ret tt).

(** Lines 167-255: the body of the loop over the clients. *)
Definition processClient (flt : Faults) (now : Instant) (m : DueMilestone)
    (itemId projectClient : Z) : M Run unit :=
  tryCatch
    (invoice <- liftW (createInvoice tz invoiceNumberDefault
                         (createFails flt (id m) projectClient) None now
                         (invoiceDataFor m itemId projectClient)) ;;
     liftW (generateAndUpload flt now m projectClient invoice) ;;;
     onResult incCreated)
    (fun error =>
       onResult (recordFailure (id m)
         ("Failed to create invoice for client " +:+ num projectClient
            +:+ ": " +:+ message error))).

(** Lines 114-286: the body of the loop over the milestones. *)
Definition processMilestone (flt : Faults) (now : Instant) (m : DueMilestone)
    : M Run unit :=
  onResult incProcessed ;;;
  tryCatch
    (clients <- liftW (getClientsByProjectId (clientsFail flt (id m))
                         (projectId m) (userId m)) ;;
     if (length clients =? 0)%nat
     then
       onResult (recordFailure (id m)
         ("No clients found for project " +:+ num (projectId m)))
     else
       got <- tryCatch
                (itemId <- liftW (getOrCreateItemByName (itemsFail flt (id m))
                                    (userId m) (serviceType m)) ;;
                 ret (Some itemId))
                (fun error =>
                   onResult (recordFailure (id m)
                     ("Failed to get/create item: " +:+ message error)) ;;;
                   ret None) ;;
       match got with
       | None => ret tt
       | Some itemId =>
         forOf clients (processClient flt now m itemId) ;;;
         liftW (markCreated (markFails flt (id m)) (id m))
       end)
    (fun error =>
       onResult (recordFailure (id m)
         (orElse (Some (message error)) "Unknown error"))).

(** [processMilestoneInvoices], lines 60-298; [now] is the clock of the
    process.  [pool.connect()] of line 61 is awaited before the [try] of
    line 69, so its failure leaves the function as it is. *)
Definition processMilestoneInvoices (flt : Faults) (now : Instant)
    : M World ProcessMilestoneInvoicesResult :=
  failWhen (connectFails flt) ;;;
  fun w =>
    let start :=
      {| world := w;
         result := {| processed := 0; created := 0; failed := 0;
                      errors := [] |} |} in
    let run : M Run ProcessMilestoneInvoicesResult :=
      tryCatch
        (failWhen (queryFails flt) ;;;
         r <- get ;;
         let milestones := selectDueMilestones (db (world r)) (todayOf now) in
         if (length milestones =? 0)%nat then ret (result r)
         else
           forOf milestones (processMilestone flt now) ;;;
           r' <- get ;;
           ret (result r'))
        (fun error =>
           throw (AppError ("Failed to process milestone invoices: "
                              +:+ message error) 500)) in
    match run start with
    | (o, r) => (o, world r)
    end.
End Processor.

End MilestoneInvoiceService.

(** ** Concrete stores and requests used by the examples below *)

Module Scenarios.
Import ExpenseRoutes.

Definition oldBytes : Buffer := [Byte.x01].
Definition newBytes : Buffer := [Byte.x02].
Definition oldBlob : Blob := {| content := oldBytes; contentType := "image/png" |}.
Definition oldPdf : Blob :=
  {| content := oldBytes; contentType := "application/pdf" |}.

(** Expense 1 of user 7, with an attachment and a generated PDF in place. *)
Definition expense1 : ExpenseRow :=
  {| id := 1; userId := 7; billNumber := Some "B1";
     attachmentFileName := Some "old.png";
     expenseFileName := Some "B1.pdf" |}.

Definition expenseWorld : World :=
  {| expenses := {[ 1 := expense1 ]};
     blobs := {[ "Expense/Uploaded_Documents/7/old.png" := oldBlob;
                 "Expense/Generated_pdfs/7/B1.pdf" := oldPdf ]} |}.

Definition pngUpload : UploadedFile :=
  {| originalname := "new.png"; mimetype := "image/png"; buffer := newBytes |}.
Definition pdfUpload : UploadedFile :=
  {| originalname := "bill.pdf"; mimetype := "application/pdf";
     buffer := newBytes |}.

Definition attachmentRequest : Request :=
  {| user := Some 7; decodedId := Some 1; file := Some pngUpload |}.
Definition pdfRequest : Request :=
  {| user := Some 7; decodedId := Some 1; file := Some pdfUpload |}.

(** [path.extname] on the two uploads above. *)
Definition extnameOf (name : string) : string :=
  if String.eqb name "new.png" then ".png"
  else if String.eqb name "bill.pdf" then ".pdf" else "".

Definition dbDown : Exn := Error "connection terminated unexpectedly".

(** Only the record patch goes wrong. *)
Definition patchFailure : Faults :=
  {| uploadFails := None; deleteOldFails := None;
     patchFails := Some dbDown; rollbackDeleteFails := None |}.

(** The record patch goes wrong, and then the delete of the rollback. *)
Definition blobDeleteDown : Exn := Error "RestError: delete timed out".
Definition patchAndRollbackFailure : Faults :=
  {| uploadFails := None; deleteOldFails := None;
     patchFails := Some dbDown; rollbackDeleteFails := Some blobDeleteDown |}.

Definition uploadInstant : Z := 1700000000000.

(** Day 20000 of the epoch, one hour after UTC midnight, on a UTC clock. *)
Definition today : Z := 20000.
Definition clock : Instant := today * msPerDay + 3600000.

Definition invoiceNumbers (invoiceId : Z) : option string :=
  Some ("INV-" +:+ num invoiceId).
Definition pdfBytes (r : InvoiceRow) (l : list InvoiceItemRow) : Buffer :=
  [Byte.x25; Byte.x50; Byte.x44; Byte.x46].

(** Invoice 1 of user 7, paid, with one payment and one reminder. *)
Definition paidInvoice : InvoiceRow :=
  {| Database.id := 1; Database.userId := 7; clientId := 31;
     projectId := None; invoiceNumber := Some "INV-1";
     invoiceDate := (today - 30) * msPerDay;
     dueDate := (today + 10) * msPerDay;
     subTotalAmount := 100%Q; gst := 0%Q; totalAmount := 100%Q;
     currency := Some "USD"; totalInstallments := 1; currentInstallment := 1;
     additionalNotes := None; paymentReminderRepetition := None;
     status := Some "paid"; paymentTerms := Some "full";
     advanceAmount := None; balanceDue := None; balanceDueDate := None;
     createdAt := (today - 30) * msPerDay;
     updatedAt := (today - 30) * msPerDay;
     invoiceFileName := Some "INV-1.pdf" |}.

(** Invoice 2 of user 7, pending. *)
Definition openInvoice : InvoiceRow :=
  {| Database.id := 2; Database.userId := 7; clientId := 31;
     projectId := None; invoiceNumber := Some "INV-2";
     invoiceDate := (today - 5) * msPerDay;
     dueDate := (today + 10) * msPerDay;
     subTotalAmount := 40%Q; gst := 0%Q; totalAmount := 40%Q;
     currency := Some "USD"; totalInstallments := 1; currentInstallment := 1;
     additionalNotes := None; paymentReminderRepetition := None;
     status := Some "pending"; paymentTerms := Some "full";
     advanceAmount := None; balanceDue := None; balanceDueDate := None;
     createdAt := (today - 5) * msPerDay;
     updatedAt := (today - 5) * msPerDay;
     invoiceFileName := None |}.

(** Users 7 and 8; project 5 has clients 31 and 32, project 6 has none.
    Milestone 1 (project 5) and milestone 2 (project 6) are due today. *)
Definition tables : Tables :=
  {| users := {[ 7 := {| u_currency := Some "USD" |};
                 8 := {| u_currency := None |} ]};
     master_clients := {[ 31 := {| c_userId := 7 |};
                          32 := {| c_userId := 7 |} ]};
     projects := {[ 5 := {| p_userId := 7 |}; 6 := {| p_userId := 7 |} ]};
     project_clients := [(5, 31); (5, 32)];
     items := {[ 1 := {| i_userId := 7; i_name := "design" |} ]};
     items_seq := 1;
     invoices := {[ 1 := paidInvoice; 2 := openInvoice ]};
     invoices_seq := 2;
     invoice_items := [];
     payments := [{| pay_invoiceId := 1; pay_userId := 7;
                     pay_amount := 100%Q |}];
     payment_reminders := [{| r_invoiceId := 1;
                              r_dueDate := (today + 10) * msPerDay;
                              r_repetition := "weekly" |}];
     agreement_payment_milestones :=
       {[ 1 := {| m_agreementPaymentTermId := 11; m_description := None;
                  m_amount := 100%Q; m_milestoneDate := today;
                  m_status := Some "pending" |};
          2 := {| m_agreementPaymentTermId := 12; m_description := None;
                  m_amount := 50%Q; m_milestoneDate := today;
                  m_status := Some "pending" |} ]};
     agreement_payment_terms := {[ 11 := {| t_agreementId := 21 |};
                                   12 := {| t_agreementId := 22 |} ]};
     agreements :=
       {[ 21 := {| a_projectId := 5; a_userId := 7;
                   a_serviceType := "Design" |};
          22 := {| a_projectId := 6; a_userId := 7;
                   a_serviceType := "Development" |} ]} |}.

Definition office : Database.World :=
  {| Database.db := tables;
     Database.blobs := {[ "Invoices/7/INV-1.pdf" := oldPdf ]} |}.

(** The same office with no invoice at all. *)
Definition officeWithoutInvoices : Database.World :=
  {| Database.db := setInvoices ∅ tables; Database.blobs := ∅ |}.

(** The office with milestone 1 only. *)
Definition studio : Database.World :=
  {| Database.db :=
       setMilestones (delete 2 (agreement_payment_milestones tables)) tables;
     Database.blobs := ∅ |}.

(** The office with milestone 2 only: its project has no client. *)
Definition emptyProjectOffice : Database.World :=
  {| Database.db :=
       setMilestones (delete 1 (agreement_payment_milestones tables)) tables;
     Database.blobs := ∅ |}.

Definition onlyFor (milestoneId client : Z) (e : Exn) (m c : Z) : option Exn :=
  if bool_decide (m = milestoneId) && bool_decide (c = client)
  then Some e else None.

(** The file-name patch of milestone 1, client 31 fails. *)
Definition patchFailsOnce : MilestoneInvoiceService.Faults :=
  {| MilestoneInvoiceService.connectFails := None;
     MilestoneInvoiceService.queryFails := None;
     MilestoneInvoiceService.clientsFail := fun _ => None;
     MilestoneInvoiceService.itemsFail := fun _ => None;
     MilestoneInvoiceService.createFails := fun _ _ => None;
     MilestoneInvoiceService.renderFails := fun _ _ => None;
     MilestoneInvoiceService.uploadFails := fun _ _ => None;
     MilestoneInvoiceService.patchFails := onlyFor 1 31 dbDown;
     MilestoneInvoiceService.markFails := fun _ => None |}.

(** The layout of the PDF fails for milestone 1, client 31. *)
Definition renderFailsOnce : MilestoneInvoiceService.Faults :=
  {| MilestoneInvoiceService.connectFails := None;
     MilestoneInvoiceService.queryFails := None;
     MilestoneInvoiceService.clientsFail := fun _ => None;
     MilestoneInvoiceService.itemsFail := fun _ => None;
     MilestoneInvoiceService.createFails := fun _ _ => None;
     MilestoneInvoiceService.renderFails :=
       onlyFor 1 31 (Error "unknown image format");
     MilestoneInvoiceService.uploadFails := fun _ _ => None;
     MilestoneInvoiceService.patchFails := fun _ _ => None;
     MilestoneInvoiceService.markFails := fun _ => None |}.

(** The upload fails for milestone 1, client 32. *)
Definition uploadFailsOnce : MilestoneInvoiceService.Faults :=
  {| MilestoneInvoiceService.connectFails := None;
     MilestoneInvoiceService.queryFails := None;
     MilestoneInvoiceService.clientsFail := fun _ => None;
     MilestoneInvoiceService.itemsFail := fun _ => None;
     MilestoneInvoiceService.createFails := fun _ _ => None;
     MilestoneInvoiceService.renderFails := fun _ _ => None;
     MilestoneInvoiceService.uploadFails :=
       onlyFor 1 32 (Error "StoreUnavailable");
     MilestoneInvoiceService.patchFails := fun _ _ => None;
     MilestoneInvoiceService.markFails := fun _ => None |}.

(** Row 1 of the due-milestone query on [tables]. *)
Definition dueMilestone1 : MilestoneInvoiceService.DueMilestone :=
  {| MilestoneInvoiceService.id := 1;
     MilestoneInvoiceService.agreementPaymentTermId := 11;
     MilestoneInvoiceService.description := None;
     MilestoneInvoiceService.amount := 100%Q;
     MilestoneInvoiceService.milestoneDate := today;
     MilestoneInvoiceService.status := Some "pending";
     MilestoneInvoiceService.agreementId := 21;
     MilestoneInvoiceService.projectId := 5;
     MilestoneInvoiceService.userId := 7;
     MilestoneInvoiceService.serviceType := "Design" |}.

(** A run of the batch on [studio] before its first milestone. *)
Definition studioRun : MilestoneInvoiceService.Run :=
  {| MilestoneInvoiceService.world := studio;
     MilestoneInvoiceService.result :=
       {| MilestoneInvoiceService.processed := 1;
          MilestoneInvoiceService.created := 0;
          MilestoneInvoiceService.failed := 0;
          MilestoneInvoiceService.errors := [] |} |}.

(** A new invoice for client 31, due yesterday / due today. *)
Definition invoiceDue (due : Instant) : InvoiceService.InvoiceCreateData :=
  {| InvoiceService.cd_userId := 7; InvoiceService.cd_clientId := 31;
     InvoiceService.cd_projectId := None;
     InvoiceService.cd_invoiceNumber := Some "INV-3";
     InvoiceService.cd_invoiceDate := clock;
     InvoiceService.cd_dueDate := due;
     InvoiceService.cd_subTotalAmount := Some 10%Q;
     InvoiceService.cd_gst := None;
     InvoiceService.cd_totalAmount := Some 10%Q;
     InvoiceService.cd_items := [];
     InvoiceService.cd_currency := None;
     InvoiceService.cd_totalInstallments := None;
     InvoiceService.cd_currentInstallment := None;
     InvoiceService.cd_additionalNotes := None;
     InvoiceService.cd_paymentReminderRepetition := None;
     InvoiceService.cd_paymentTerms := None;
     InvoiceService.cd_advanceAmount := None;
     InvoiceService.cd_balanceDue := None;
     InvoiceService.cd_balanceDueDate := None |}.

(** A patch that only moves the due date. *)
Definition moveDueDate (due : Instant) : InvoiceService.InvoiceUpdateData :=
  {| InvoiceService.ud_clientId := None; InvoiceService.ud_projectId := None;
     InvoiceService.ud_invoiceNumber := None;
     InvoiceService.ud_invoiceDate := None;
     InvoiceService.ud_dueDate := Some due;
     InvoiceService.ud_subTotalAmount := None; InvoiceService.ud_gst := None;
     InvoiceService.ud_totalAmount := None; InvoiceService.ud_currency := None;
     InvoiceService.ud_totalInstallments := None;
     InvoiceService.ud_currentInstallment := None;
     InvoiceService.ud_additionalNotes := None;
     InvoiceService.ud_paymentReminderRepetition := None;
     InvoiceService.ud_status := None; InvoiceService.ud_paymentTerms := None;
     InvoiceService.ud_advanceAmount := None;
     InvoiceService.ud_balanceDue := None;
     InvoiceService.ud_balanceDueDate := None |}.

End Scenarios.

(** * Further definitions *)

(** ** Pre- and postconditions of a call *)

Module Triples.

(** From a store satisfying [P], the call, when it completes, either
    returns [a] in a store satisfying [Q a] or throws [e] in a store
    satisfying [X e]. *)
Definition triple {S A} (P : S -> Prop) (m : M S A)
    (Q : A -> S -> Prop) (X : Exn -> S -> Prop) : Prop :=
  forall s, P s ->
    match m s with
    | (Returns a, s') => Q a s'
    | (Throws e, s') => X e s'
    | (Pending, _) => True
    end.

End Triples.
Import Triples.

(** ** Invoice service: the listing (services/invoiceService.ts) *)

Module InvoiceListing.
Import InvoiceService.

(** [ORDER BY "invoiceDate" DESC, "createdAt" DESC]: [a] may come before
    [b]. *)
Definition newerFirst (a b : InvoiceRow) : bool :=
  (invoiceDate b <? invoiceDate a)
  || ((invoiceDate a =? invoiceDate b) && (createdAt b <=? createdAt a)).

(** [SELECT ... FROM invoices WHERE "userId" = $1 ORDER BY ...] *)
Definition selectInvoicesOf (t : Tables) (uid : Z) : list InvoiceRow :=
  merge_sort newerFirst
    (filter (fun r => Database.userId r = uid)
            (map snd (map_to_list (invoices t)))).

(** [getInvoicesByUserId], lines 190-217; every failure becomes a 500. *)
Definition getInvoicesByUserId (dbFault : option Exn) (uid : Z)
    : M World (list InvoiceRow) :=
  tryCatch
    (failWhen dbFault ;;;
     w <- get ;;
     ret (map mapInvoiceToResponse (selectInvoicesOf (db w) uid)))
    (fun error => throw (AppError "Failed to fetch invoices" 500)).

End InvoiceListing.

(** ** Invariants and frames used by the properties *)

Module Invariants.
Import InvoiceService.

(** What a transaction body may have changed when it throws: nothing in
    the artifact store and no reminder. *)
Definition untouchedOutside (w s : World) : Prop :=
  blobs s = blobs w
  ∧ payment_reminders (db s) = payment_reminders (db w).

(** What a transaction on the invoices' connection leaves alone. *)
Definition outsideTransaction (w s : World) : Prop :=
  blobs s = blobs w
  ∧ payment_reminders (db s) = payment_reminders (db w)
  ∧ invoices_seq (db s) = invoices_seq (db w).

(** [currentStatus === 'paid'] and the patch asks for pending or overdue. *)
Definition leavesPaid (existing : InvoiceRow) (u : InvoiceUpdateData) : bool :=
  bool_decide (status existing = Some "paid")
  && (bool_decide (ud_status u = Some "pending")
      || bool_decide (ud_status u = Some "overdue")).

Definition paymentsAfter (existing : InvoiceRow) (u : InvoiceUpdateData)
    (invoiceId uid : Z) (l : list PaymentRow) : list PaymentRow :=
  if leavesPaid existing u
  then filter (fun p => ¬ (pay_invoiceId p = invoiceId ∧ pay_userId p = uid)) l
  else l.

(** The two stores up to the reminder table. *)
Definition sameButReminders (w1 w2 : World) : Prop :=
  withDb (setPaymentReminders []) w1 = withDb (setPaymentReminders []) w2.

Import MilestoneInvoiceService.

(** The name comparison of line 30. *)
Definition sameName (itemName : string) (i : Z * ItemRow) : bool :=
  String.eqb (toLowerCase (i_name i.2)) (toLowerCase itemName).

Definition dueRow (t : Tables) (today : Z) (k : Z) (m : MilestoneRow)
    : option DueMilestone :=
  term ← agreement_payment_terms t !! m_agreementPaymentTermId m;
  a ← agreements t !! t_agreementId term;
  if bool_decide (m_milestoneDate m = today)
     && (bool_decide (m_status m = Some "pending")
         || bool_decide (m_status m = None))
  then Some {| id := k;
               agreementPaymentTermId := m_agreementPaymentTermId m;
               description := m_description m;
               amount := m_amount m;
               milestoneDate := m_milestoneDate m;
               status := m_status m;
               agreementId := t_agreementId term;
               projectId := a_projectId a;
               userId := a_userId a;
               serviceType := a_serviceType a |}
  else None.

(** What the counters of a run satisfy while [n] milestones of [ids] have
    been examined. *)
Definition counted (ids : list Z) (n : Z) (r : Run) : Prop :=
  processed (result r) = n
  ∧ failed (result r) = Z.of_nat (length (errors (result r)))
  ∧ Forall (fun e : Z * string => e.1 ∈ ids) (errors (result r))
  ∧ 0 <= created (result r).




End Invariants.
Import Invariants.

(** ** Further scenarios *)

Module MoreScenarios.
Import InvoiceService MilestoneInvoiceService Scenarios.

Definition storeDown : Exn := Error "RestError: service unavailable".

(** Reopen an invoice for a client that is not the user's. *)
Definition reopenForUnknownClient : InvoiceUpdateData :=
  {| ud_clientId := Some 99; ud_projectId := None;
     ud_invoiceNumber := None; ud_invoiceDate := None; ud_dueDate := None;
     ud_subTotalAmount := None; ud_gst := None; ud_totalAmount := None;
     ud_currency := None; ud_totalInstallments := None;
     ud_currentInstallment := None; ud_additionalNotes := None;
     ud_paymentReminderRepetition := None;
     ud_status := Some "pending"; ud_paymentTerms := None;
     ud_advanceAmount := None; ud_balanceDue := None;
     ud_balanceDueDate := None |}.

(** Reopen an invoice. *)
Definition reopen : InvoiceUpdateData :=
  {| ud_clientId := None; ud_projectId := None;
     ud_invoiceNumber := None; ud_invoiceDate := None; ud_dueDate := None;
     ud_subTotalAmount := None; ud_gst := None; ud_totalAmount := None;
     ud_currency := None; ud_totalInstallments := None;
     ud_currentInstallment := None; ud_additionalNotes := None;
     ud_paymentReminderRepetition := None;
     ud_status := Some "pending"; ud_paymentTerms := None;
     ud_advanceAmount := None; ud_balanceDue := None;
     ud_balanceDueDate := None |}.

(** A new invoice whose second line names an item of nobody. *)
Definition invoiceWithUnknownItem : InvoiceCreateData :=
  {| cd_userId := 7; cd_clientId := 31; cd_projectId := None;
     cd_invoiceNumber := None; cd_invoiceDate := clock;
     cd_dueDate := (today + 3) * msPerDay;
     cd_subTotalAmount := None; cd_gst := None; cd_totalAmount := None;
     cd_items := [ {| itemsId := 1; quantity := 2%Q; unitPrice := 5%Q |};
                   {| itemsId := 44; quantity := 1%Q; unitPrice := 1%Q |} ];
     cd_currency := None; cd_totalInstallments := None;
     cd_currentInstallment := None; cd_additionalNotes := None;
     cd_paymentReminderRepetition := None; cd_paymentTerms := None;
     cd_advanceAmount := None; cd_balanceDue := None;
     cd_balanceDueDate := None |}.

(** The first query of the batch fails. *)
Definition queryDown : MilestoneInvoiceService.Faults :=
  {| connectFails := None;
     queryFails := Some dbDown;
     clientsFail := fun _ => None;
     itemsFail := fun _ => None;
     createFails := fun _ _ => None;
     renderFails := fun _ _ => None;
     uploadFails := fun _ _ => None;
     patchFails := fun _ _ => None;
     markFails := fun _ => None |}.

(** The creation of the invoice for client 31 of milestone 1 fails, and so
    does every upload. *)
Definition client31Fails : MilestoneInvoiceService.Faults :=
  {| connectFails := None;
     queryFails := None;
     clientsFail := fun _ => None;
     itemsFail := fun _ => None;
     createFails := onlyFor 1 31 dbDown;
     renderFails := fun _ _ => None;
     uploadFails := fun _ _ => Some storeDown;
     patchFails := fun _ _ => None;
     markFails := fun _ => None |}.

End MoreScenarios.

(** ** Strings: [trim] *)

Module JsStrings.

(** The white space and line terminators of the ASCII range: TAB, LF, VT,
    FF, CR and SP. *)
Definition isWhiteSpace (c : ascii) : bool :=
  let n := nat_of_ascii c in
  ((9 <=? n) && (n <=? 13))%nat || (n =? 32)%nat.

Fixpoint trimStart (s : string) : string :=
  match s with
  | EmptyString => EmptyString
  | String c r => if isWhiteSpace c then trimStart r else s
  end.

Fixpoint trimEnd (s : string) : string :=
  match s with
  | EmptyString => EmptyString
  | String c r =>
    match trimEnd r with
    | EmptyString => if isWhiteSpace c then EmptyString else String c EmptyString
    | kept => String c kept
    end
  end.

(** [s.trim()], on the ASCII characters. *)
Definition trim (s : string) : string := trimEnd (trimStart s).

(** [v && v.trim() !== ''] on a nullable string. *)
Definition notBlank (v : option string) : bool :=
  truthy v && negb (String.eqb (trim (orElse v EmptyString)) EmptyString).

(** The double quote of a header value. *)
Definition dquote : string := String (ascii_of_nat 34) EmptyString.

End JsStrings.
Import JsStrings.

(** ** Artifact store client: download *)

Module BlobDownload.

(** What [downloadFile] resolves to. *)
Record FileData : Type := {
  buffer : Buffer;
  contentType : string;
  contentLength : Z
}.

Section Client.
Context {S : Type}.
Variable blobsOf : S -> gmap string Blob.

(** Modelled from the spec: services/blobStorageService.ts is not among the
    sources.  [download(path) -> (bytes, contentType, length)]; "any store
    miss surfaces as a distinct NotFound", here [missing]. *)
Definition downloadFile (fault : option Exn) (missing : Exn) (p : string)
    : M S FileData :=
  failWhen fault ;;;
  s <- get ;;
  match blobsOf s !! p with
  | Some b =>
    ret {| buffer := content b;
           contentType := BlobStorageService.contentType b;
           contentLength := Z.of_nat (length (content b)) |}
  | None => throw missing
  end.
End Client.

End BlobDownload.

(** ** Expense routes: downloads (routes/expenses.ts) *)

Module ExpenseDownloads.
Import ExpenseRoutes.

(** What a download handler answers: the file with its three headers, a
    JSON reply, or [next(error)]. *)
Inductive Answer : Type :=
| Sent (contentType : string) (contentLength : Z) (contentDisposition : string)
       (body : Buffer)
| Replied (r : Reply).

Section Handlers.
(** The built-in [encodeURIComponent]. *)
Variable encodeURIComponent : string -> string.
(** The exception of the store for a path that holds nothing. *)
Variable missing : Exn.

Definition disposition (fileName : string) : string :=
  "attachment; filename=" +:+ dquote +:+ encodeURIComponent fileName
    +:+ dquote.

Definition send (fileName : string) (fileData : BlobDownload.FileData)
    : Answer :=
  Sent (BlobDownload.contentType fileData)
       (BlobDownload.contentLength fileData)
       (disposition fileName)
       (BlobDownload.buffer fileData).

(** Lines 497-501. *)
Definition downloadName (e : ExpenseRow) (expenseId : Z) : string :=
  if notBlank (expenseFileName e) then orElse (expenseFileName e) EmptyString
  else pdfName e expenseId.

(** GET /:id/pdf, lines 475-515. *)
Definition getPdf (downloadFails : option Exn) (req : Request)
    : M World Answer :=
  tryCatch
    (match user req with
     | None => ret (Replied (Json 401 false "Unauthorized" None))
     | Some uid =>
       match decodedId req with
       | None => ret (Replied (Json 400 false "Invalid expense ID" None))
       | Some expenseId =>
         if expenseId <=? 0
         then ret (Replied (Json 400 false "Invalid expense ID" None))
         else
           expense <- getExpenseById expenseId uid ;;
           let fileName := downloadName expense expenseId in
           let blobPath :=
             "Expense/Generated_pdfs/" +:+ num uid +:+ "/" +:+ fileName in
           fileData <- BlobDownload.downloadFile blobs downloadFails missing
                         blobPath ;;
           ret (send fileName fileData)
       end
     end)
    (fun error => ret (Replied (Next error))).

(** GET /:id/attachment, lines 522-562. *)
Definition getAttachment (downloadFails : option Exn) (req : Request)
    : M World Answer :=
  tryCatch
    (match user req with
     | None => ret (Replied (Json 401 false "Unauthorized" None))
     | Some uid =>
       match decodedId req with
       | None => ret (Replied (Json 400 false "Invalid expense ID" None))
       | Some expenseId =>
         if expenseId <=? 0
         then ret (Replied (Json 400 false "Invalid expense ID" None))
         else
           expense <- getExpenseById expenseId uid ;;
           if negb (truthy (attachmentFileName expense))
           then ret (Replied (Json 404 false "Expense attachment not found"
                                None))
           else
             let name := orElse (attachmentFileName expense) EmptyString in
             let blobPath :=
               "Expense/Uploaded_Documents/" +:+ num uid +:+ "/" +:+ name in
             fileData <- BlobDownload.downloadFile blobs downloadFails missing
                           blobPath ;;
             ret (send name fileData)
       end
     end)
    (fun error => ret (Replied (Next error))).
End Handlers.

End ExpenseDownloads.

(** ** Client portal: invoices of a client (services/clientInvoiceService.ts) *)

Module ClientInvoiceService.
Import InvoiceService InvoiceListing.

(** The NotFound of every by-id operation of the portal. *)
Definition accessDenied : Exn :=
  AppError "Invoice not found or access denied" 404.

(** The catch block of the service's functions: an [AppError] is rethrown
    and anything else becomes a 500 with the function's own text. *)
Definition rethrowOr {A} (text : string) (error : Exn) : M World A :=
  if instanceofAppError error then throw error
  else throw (AppError text 500).

(** [SELECT ... FROM invoices WHERE id = $1 AND "clientId" = $2] *)
Definition selectClientInvoice (t : Tables) (invoiceId cid : Z)
    : option InvoiceRow :=
  match invoices t !! invoiceId with
  | Some r => if decide (clientId r = cid) then Some r else None
  | None => None
  end.

(** [SELECT ... FROM invoices WHERE "clientId" = $1 ORDER BY "invoiceDate"
    DESC, "createdAt" DESC] *)
Definition selectInvoicesOfClient (t : Tables) (cid : Z) : list InvoiceRow :=
  merge_sort newerFirst
    (filter (fun r => clientId r = cid) (map snd (map_to_list (invoices t)))).

(** [getClientInvoices], lines 45-87.  The service's own
    [mapInvoiceToResponse] (lines 250-290) is the text of the invoice
    service's, so that definition is used. *)
Definition getClientInvoices (dbFault : option Exn) (cid : Z)
    : M World (list InvoiceRow) :=
  tryCatch
    (failWhen dbFault ;;;
     w <- get ;;
     if bool_decide (is_Some (master_clients (db w) !! cid))
     then ret (map mapInvoiceToResponse (selectInvoicesOfClient (db w) cid))
     else throw (AppError "Client not found" 404))
    (rethrowOr "Failed to fetch invoices").

(** [getClientInvoiceById], lines 93-128. *)
Definition getClientInvoiceById (dbFault : option Exn) (invoiceId cid : Z)
    : M World InvoiceRow :=
  tryCatch
    (failWhen dbFault ;;;
     w <- get ;;
     match selectClientInvoice (db w) invoiceId cid with
     | None => throw accessDenied
     | Some r => ret (mapInvoiceToResponse r)
     end)
    (rethrowOr "Failed to retrieve invoice").

(** What [getClientInvoicePdf] resolves to. *)
Record PdfData : Type := {
  buffer : Buffer;
  fileName : string;
  contentType : string
}.

(** Lines 156-161; [invoiceNumber.endsWith] on a NULL invoice number is a
    TypeError. *)
Definition pdfFileName (invoice : InvoiceRow) : M World string :=
  if notBlank (invoiceFileName invoice)
  then ret (orElse (invoiceFileName invoice) EmptyString)
  else
    match invoiceNumber invoice with
    | Some n => ret (if endsWith n ".pdf" then n else n +:+ ".pdf")
    | None =>
      throw (Error "Cannot read properties of null (reading 'endsWith')")
    end.

(** [getClientInvoicePdf], lines 134-183; [missing] is the exception of the
    store for a path that holds nothing. *)
Definition getClientInvoicePdf (dbFault downloadFault : option Exn)
    (missing : Exn) (invoiceId cid : Z) : M World PdfData :=
  tryCatch
    (failWhen dbFault ;;;
     w <- get ;;
     match selectClientInvoice (db w) invoiceId cid with
     | None => throw accessDenied
     | Some invoice =>
       let userId := userId invoice in
       name <- pdfFileName invoice ;;
       let blobPath := "Invoices/" +:+ num userId +:+ "/" +:+ name in
       fileData <- BlobDownload.downloadFile blobs downloadFault missing
                     blobPath ;;
       ret {| buffer := BlobDownload.buffer fileData;
              fileName := name;
              contentType :=
                orElse (Some (BlobDownload.contentType fileData))
                       "application/pdf" |}
     end)
    (rethrowOr "Failed to retrieve invoice PDF").

(** A row of [getClientInvoiceItems]; the id and the two timestamps of an
    invoice item are not columns of [invoice_items] as the store holds
    it. *)
Record ClientInvoiceItem : Type := {
  invoiceId : Z;
  itemsId : Z;
  quantity : Amount;
  unitPrice : Amount;
  itemName : string
}.

(** [SELECT ... FROM invoice_items ii INNER JOIN items i ON ii."itemsId" =
    i.id WHERE ii."invoiceId" = $1 ORDER BY ii."createdAt" ASC]; the rows
    of [invoice_items] are held in the order of their insertion. *)
Definition selectItemsOfInvoice (t : Tables) (invoice : Z)
    : list ClientInvoiceItem :=
  omap (fun ii =>
          if decide (ii_invoiceId ii = invoice)
          then
            i ← items t !! ii_itemsId ii;
            Some {| invoiceId := ii_invoiceId ii; itemsId := ii_itemsId ii;
                    quantity := ii_quantity ii; unitPrice := ii_unitPrice ii;
                    itemName := i_name i |}
          else None)
       (invoice_items t).

(** [getClientInvoiceItems], lines 189-245. *)
Definition getClientInvoiceItems (dbFault : option Exn) (invoice cid : Z)
    : M World (list ClientInvoiceItem) :=
  tryCatch
    (failWhen dbFault ;;;
     w <- get ;;
     match selectClientInvoice (db w) invoice cid with
     | None => throw accessDenied
     | Some _ => ret (selectItemsOfInvoice (db w) invoice)
     end)
    (rethrowOr "Failed to retrieve invoice items").

End ClientInvoiceService.

(** ** Client portal: accounts and one-time codes
    (services/clientAuthService.ts) *)

Module ClientAuthService.
Import MilestoneInvoiceService.

(** The columns of [master_clients] that the service reads. *)
Record ClientAccount : Type := {
  mc_email : option string;
  mc_fullName : string
}.

(** [client_auth]; the row id is the position in the table. *)
Record AuthRow : Type := {
  client_id : Z;
  email : string;
  password_hash : string;
  is_email_verified : bool
}.

(** [client_email_otp]; the row id is the position in the table. *)
Record OtpRow : Type := {
  otp_client_id : Z;
  otp_hash : string;
  expires_at : Instant;
  attempts : Z;
  is_used : bool;
  created_at : Instant
}.

Record Store : Type := {
  master_clients : gmap Z ClientAccount;
  client_auth : list AuthRow;
  client_email_otp : list OtpRow
}.

Definition withAuth (v : list AuthRow) (s : Store) : Store :=
  {| master_clients := master_clients s; client_auth := v;
     client_email_otp := client_email_otp s |}.
Definition withOtps (v : list OtpRow) (s : Store) : Store :=
  {| master_clients := master_clients s; client_auth := client_auth s;
     client_email_otp := v |}.

(** What the three account functions resolve to. *)
Record ClientInfo : Type := {
  clientId : Z;
  clientEmail : string;
  fullName : option string
}.

(** The catch block of the service's functions: an [AppError] is rethrown
    and anything else becomes a 500 with the function's own text. *)
Definition rethrowOr {A} (text : string) (error : Exn) : M Store A :=
  if instanceofAppError error then throw error
  else throw (AppError text 500).

(** [SELECT id FROM client_auth WHERE client_id = $1 OR email = $2] has a
    row. *)
Definition existingAuth (s : Store) (cid : Z) (lowered : string) : bool :=
  existsb (fun a => (client_id a =? cid) || String.eqb (email a) lowered)
          (client_auth s).

Definition markUsed (r : OtpRow) : OtpRow :=
  {| otp_client_id := otp_client_id r; otp_hash := otp_hash r;
     expires_at := expires_at r; attempts := attempts r;
     is_used := true; created_at := created_at r |}.

Definition oneMoreAttempt (r : OtpRow) : OtpRow :=
  {| otp_client_id := otp_client_id r; otp_hash := otp_hash r;
     expires_at := expires_at r; attempts := attempts r + 1;
     is_used := is_used r; created_at := created_at r |}.

(** [SELECT ... FROM client_email_otp WHERE client_id = $1 AND is_used =
    FALSE ORDER BY created_at DESC LIMIT 1], with the row's position.  Among
    rows created at the same instant the database is free to choose; the
    properties below hold for any choice. *)
Definition latestUnused (l : list OtpRow) (cid : Z) : option (nat * OtpRow) :=
  head (merge_sort (fun a b : nat * OtpRow => created_at b.2 <=? created_at a.2)
          (filter (fun kr : nat * OtpRow =>
                     otp_client_id kr.2 = cid ∧ is_used kr.2 = false)
                  (imap pair l))).

Section Service.
(** utils/password.ts is not among the sources: [hashPassword] with the
    salt it draws, and [comparePassword]. *)
Variable hashPassword : string -> string -> string.
Variable comparePassword : string -> string -> bool.
(** Lines 6-7: the two settings, read from the environment. *)
Variable OTP_EXPIRY_MINUTES : Z.
Variable MAX_OTP_ATTEMPTS : Z.

(** [createClientAuth], lines 12-58. *)
Definition createClientAuth (dbFault : option Exn) (salt : string)
    (cid : Z) (mail password : string) : M Store unit :=
  tryCatch
    (failWhen dbFault ;;;
     s <- get ;;
     if negb (bool_decide (is_Some (master_clients s !! cid)))
     then throw (AppError "Client not found" 404)
     else if existingAuth s cid (toLowerCase mail)
     then throw (AppError
            "Client authentication already exists for this client or email"
            400)
     else
       let passwordHash := hashPassword salt password in
       modify (fun s => withAuth
         (client_auth s ++
            [{| client_id := cid; email := toLowerCase mail;
                password_hash := passwordHash;
                is_email_verified := false |}]) s))
    (rethrowOr "Failed to create client authentication").

(** [registerClientAuth], lines 64-123; the first row of the lookup by
    email is the one with the least id. *)
Definition registerClientAuth (dbFault : option Exn) (salt : string)
    (mail password : string) : M Store ClientInfo :=
  tryCatch
    (failWhen dbFault ;;;
     s <- get ;;
     match
       find (fun kv : Z * ClientAccount =>
               bool_decide (mc_email kv.2 = Some (toLowerCase mail)))
            (rowsById (master_clients s))
     with
     | None =>
       throw (AppError
         "Email not found. Please contact your administrator to set up your account."
         404)
     | Some (cid, clientData) =>
       if existingAuth s cid (toLowerCase mail)
       then throw (AppError "Account already exists. Please login instead."
                     400)
       else if (String.length password <? 8)%nat
       then throw (AppError "Password must be at least 8 characters long"
                     400)
       else
         let passwordHash := hashPassword salt password in
         modify (fun s => withAuth
           (client_auth s ++
              [{| client_id := cid; email := toLowerCase mail;
                  password_hash := passwordHash;
                  is_email_verified := true |}]) s) ;;;
         ret {| clientId := cid; clientEmail := toLowerCase mail;
                fullName := Some (mc_fullName clientData) |}
     end)
    (rethrowOr "Failed to create client account").

(** [SELECT ... FROM client_auth ca INNER JOIN master_clients mc ON
    ca.client_id = mc.id WHERE ca.email = $1] *)
Definition selectAuthWithClient (s : Store) (lowered : string)
    : list (AuthRow * ClientAccount) :=
  omap (fun a =>
          if String.eqb (email a) lowered
          then mc ← master_clients s !! client_id a; Some (a, mc)
          else None)
       (client_auth s).

(** [validateClientPassword], lines 128-170. *)
Definition validateClientPassword (dbFault : option Exn)
    (mail password : string) : M Store ClientInfo :=
  tryCatch
    (failWhen dbFault ;;;
     s <- get ;;
     match head (selectAuthWithClient s (toLowerCase mail)) with
     | None => throw (AppError "Invalid email or password" 401)
     | Some (auth, mc) =>
       if negb (comparePassword password (password_hash auth))
       then throw (AppError "Invalid email or password" 401)
       else ret {| clientId := client_id auth; clientEmail := email auth;
                   fullName := Some (mc_fullName mc) |}
     end)
    (rethrowOr "Failed to validate client credentials").

(** [generateOTP], lines 176-215.  [draw] is the value of
    [crypto.randomInt(100000, 999999)], [now] the clock of the process and
    [dbNow] the [CURRENT_TIMESTAMP] of the database. *)
Definition generateOTP (dbFault : option Exn) (salt : string) (draw : Z)
    (now dbNow : Instant) (cid : Z) (mail : string) : M Store string :=
  tryCatch
    (let otp := num draw in
     let otpHash := hashPassword salt otp in
     let expiresAt := now + OTP_EXPIRY_MINUTES * 60000 in
     failWhen dbFault ;;;
     modify (fun s => withOtps
       (map (fun r =>
               if bool_decide (otp_client_id r = cid)
                  && negb (is_used r) && (dbNow <? expires_at r)
               then markUsed r else r)
            (client_email_otp s)) s) ;;;
     modify (fun s => withOtps
       (client_email_otp s ++
          [{| otp_client_id := cid; otp_hash := otpHash;
              expires_at := expiresAt; attempts := 0; is_used := false;
              created_at := dbNow |}]) s) ;;;
     ret otp)
    (fun error => throw (AppError "Failed to generate OTP" 500)).

(** Lines 287-291. *)
Definition invalidOtp (remainingAttempts : Z) : Exn :=
  AppError ("Invalid OTP. " +:+ num remainingAttempts +:+ " attempt"
              +:+ (if remainingAttempts =? 1 then EmptyString else "s")
              +:+ " remaining") 400.

(** [verifyOTP], lines 220-312; [now] is the clock of the process. *)
Definition verifyOTP (dbFault : option Exn) (now : Instant)
    (mail otp : string) : M Store ClientInfo :=
  tryCatch
    (failWhen dbFault ;;;
     s <- get ;;
     match find (fun a => String.eqb (email a) (toLowerCase mail))
                (client_auth s) with
     | None => throw (AppError "Invalid email" 401)
     | Some auth =>
       let cid := client_id auth in
       match latestUnused (client_email_otp s) cid with
       | None =>
         throw (AppError "No valid OTP found. Please request a new OTP" 400)
       | Some (otpId, otpRecord) =>
         if expires_at otpRecord <? now
         then throw (AppError "OTP has expired. Please request a new OTP" 400)
         else if is_used otpRecord
         then throw (AppError "OTP has already been used" 400)
         else if MAX_OTP_ATTEMPTS <=? attempts otpRecord
         then
           modify (fun s => withOtps
             (alter markUsed otpId (client_email_otp s)) s) ;;;
           throw (AppError
             "Maximum OTP attempts exceeded. Please request a new OTP" 400)
         else if negb (comparePassword otp (otp_hash otpRecord))
         then
           modify (fun s => withOtps
             (alter oneMoreAttempt otpId (client_email_otp s)) s) ;;;
           throw (invalidOtp (MAX_OTP_ATTEMPTS - (attempts otpRecord + 1)))
         else
           modify (fun s => withOtps
             (alter markUsed otpId (client_email_otp s)) s) ;;;
           ret {| clientId := cid; clientEmail := toLowerCase mail;
                  fullName := None |}
       end
     end)
    (rethrowOr "Failed to verify OTP").
End Service.

End ClientAuthService.

Module AuthInvariants.
Import ClientAuthService.

(** Row [k] is an unused code of client [cid]. *)
Definition unusedCode (l : list OtpRow) (cid : Z) (k : nat) (r : OtpRow)
    : Prop :=
  l !! k = Some r ∧ otp_client_id r = cid ∧ is_used r = false.

(** Row [k] is the one unused code of client [cid] that was created
    last. *)
Definition newestCode (l : list OtpRow) (cid : Z) (k : nat) (r : OtpRow)
    : Prop :=
  unusedCode l cid k r
  ∧ forall k' r', unusedCode l cid k' r' -> k' ≠ k ->
                  created_at r' < created_at r.

(** The account that a login with [mail] finds. *)
Definition accountOf (s : Store) (mail : string) : option AuthRow :=
  find (fun a => String.eqb (email a) (MilestoneInvoiceService.toLowerCase mail)) (client_auth s).

End AuthInvariants.
Import AuthInvariants.

Module AccountInvariants.
Import ClientAuthService.

(** No two accounts share an email or a client, and every stored email is
    in lower case. *)
Definition uniqueAccounts (s : Store) : Prop :=
  NoDup (email <$> client_auth s)
  ∧ NoDup (client_id <$> client_auth s)
  ∧ Forall (fun a => MilestoneInvoiceService.toLowerCase (email a) = email a)
           (client_auth s).

End AccountInvariants.
Import AccountInvariants.

Module DownloadScenarios.
Import ExpenseRoutes Scenarios.

(** The store's answer for a path that holds nothing. *)
Definition blobNotFound : Exn := Error "BlobNotFound".

(** A download request of user 7, and one of user 8, for expense 1. *)
Definition downloadRequest : Request :=
  {| user := Some 7; decodedId := Some 1; file := None |}.
Definition foreignDownloadRequest : Request :=
  {| user := Some 8; decodedId := Some 1; file := None |}.

(** Percent-encoding leaves the names of these scenarios as they are. *)
Definition plainName (s : string) : string := s.

(** Only the upload goes wrong. *)
Definition uploadFailure : Faults :=
  {| uploadFails := Some dbDown; deleteOldFails := None;
     patchFails := None; rollbackDeleteFails := None |}.

End DownloadScenarios.

Module AuthScenarios.
Import ClientAuthService.

Section Guesses.
Variable comparePassword : string -> string -> bool.
Variable MAX_OTP_ATTEMPTS : Z.

(** The store after a series of [verifyOTP] calls for [mail], each with
    its instant and its code. *)
Fixpoint guessAll (mail : string) (guesses : list (Instant * string))
    (s : Store) : Store :=
  match guesses with
  | [] => s
  | g :: rest =>
    guessAll mail rest
      (verifyOTP comparePassword MAX_OTP_ATTEMPTS None g.1 mail g.2 s).2
  end.
End Guesses.

(** A stand-in for the password library that keeps the password as its
    own hash, whatever the salt. *)
Definition plainHash (salt password : string) : string := password.
Definition plainCompare (password hash : string) : bool :=
  String.eqb password hash.

(** Client 31 with a mailbox; nobody has registered. *)
Definition portal : Store :=
  {| master_clients :=
       {[ 31 := {| mc_email := Some "ana@example.com";
                   mc_fullName := "Ana" |} ]};
     client_auth := [];
     client_email_otp := [] |}.

(** Ana has an account and one code, created at instant 1000 and good
    until 301000. *)
Definition anaAccount : AuthRow :=
  {| client_id := 31; email := "ana@example.com";
     password_hash := plainHash "s1" "correct horse";
     is_email_verified := true |}.
Definition anaCode : OtpRow :=
  {| otp_client_id := 31; otp_hash := plainHash "s2" "123456";
     expires_at := 301000; attempts := 0; is_used := false;
     created_at := 1000 |}.
Definition portalWithCode : Store :=
  {| master_clients := master_clients portal;
     client_auth := [anaAccount];
     client_email_otp := [anaCode] |}.

End AuthScenarios.
Import AuthScenarios.

(** * Properties *)

(** ** Attach/replace-artifact on expenses *)

Section ExpenseRouteFacts.
Import ExpenseRoutes.
Variable extname : string -> string.

Lemma getExpenseById_owned (w : World) expenseId uid e :
  expenses w !! expenseId = Some e -> userId e = uid ->
  getExpenseById expenseId uid w = (Returns e, w).
Proof.
  intros Hl Hu. unfold getExpenseById, bind, get. rewrite Hl.
  by rewrite decide_True.
Qed.

(** The attachment route when only the record patch throws [err]: the
    reply is [next(err)], the new object is gone and no row changed. *)
Lemma postAttachment_patch_failure flt now req (w : World) uid expenseId f e err :
  user req = Some uid -> decodedId req = Some expenseId -> 0 < expenseId ->
  file req = Some f ->
  expenses w !! expenseId = Some e -> userId e = uid ->
  uploadFails flt = None -> deleteOldFails flt = None ->
  patchFails flt = Some err -> rollbackDeleteFails flt = None ->
  let newPath := pathOf EXPENSE (Some "Uploaded_Documents") uid
                   (attachmentName extname e expenseId f now) in
  let out := postAttachment extname flt now req w in
  out.1 = Returns (Next err)
  ∧ blobs out.2 !! newPath = None
  ∧ expenses out.2 = expenses w.
Proof.
  intros Hu Hd Hpos Hf Hl Ho Hup Hdel Hpatch Hrb.
  unfold postAttachment, tryCatch, bind.
  rewrite Hu, Hd, Hf.
  destruct (Z.leb_spec expenseId 0) as [?|_]; [lia|].
  rewrite (getExpenseById_owned _ _ _ _ Hl Ho).
  unfold uploadFile, deleteFile, updateExpenseAttachmentFilename,
    bind, failWhen, modify, ret, throw.
  rewrite Hup, Hdel, Hpatch, Hrb.
  destruct (truthy (attachmentFileName e)); simpl;
    (split; [done | split; [apply lookup_delete_eq | done]]).
Qed.

(** The same for the PDF route. *)
Lemma postPdf_patch_failure flt req (w : World) uid expenseId f e err :
  user req = Some uid -> decodedId req = Some expenseId -> 0 < expenseId ->
  file req = Some f ->
  expenses w !! expenseId = Some e -> userId e = uid ->
  uploadFails flt = None -> deleteOldFails flt = None ->
  patchFails flt = Some err -> rollbackDeleteFails flt = None ->
  let newPath := pathOf EXPENSE (Some "Generated_pdfs") uid
                   (pdfName e expenseId) in
  let out := postPdf flt req w in
  out.1 = Returns (Next err)
  ∧ blobs out.2 !! newPath = None
  ∧ expenses out.2 = expenses w.
Proof.
  intros Hu Hd Hpos Hf Hl Ho Hup Hdel Hpatch Hrb.
  unfold postPdf, tryCatch, bind.
  rewrite Hu, Hd, Hf.
  destruct (Z.leb_spec expenseId 0) as [?|_]; [lia|].
  rewrite (getExpenseById_owned _ _ _ _ Hl Ho).
  unfold uploadFile, deleteFile, updateExpensePdfFilename,
    bind, failWhen, modify, ret, throw.
  rewrite Hup, Hdel, Hpatch, Hrb.
  destruct (truthy (expenseFileName e) && _); simpl;
    (split; [done | split; [apply lookup_delete_eq | done]]).
Qed.
(** With only the patch failing, the object the row names is gone after the
    request: it was deleted before the patch was tried. *)
Lemma postAttachment_patch_failure_old_gone flt now req (w : World)
    uid expenseId f e err :
  user req = Some uid -> decodedId req = Some expenseId -> 0 < expenseId ->
  file req = Some f ->
  expenses w !! expenseId = Some e -> userId e = uid ->
  truthy (attachmentFileName e) = true ->
  uploadFails flt = None -> deleteOldFails flt = None ->
  patchFails flt = Some err -> rollbackDeleteFails flt = None ->
  let out := postAttachment extname flt now req w in
  expenses out.2 !! expenseId = Some e
  ∧ resolves out.2 (attachmentPath e) = false.
Proof.
  intros Hu Hd Hpos Hf Hl Ho Ht Hup Hdel Hpatch Hrb.
  unfold postAttachment, tryCatch, bind.
  rewrite Hu, Hd, Hf.
  destruct (Z.leb_spec expenseId 0) as [?|_]; [lia|].
  rewrite (getExpenseById_owned _ _ _ _ Hl Ho).
  unfold uploadFile, deleteFile, updateExpenseAttachmentFilename,
    bind, failWhen, modify, ret, throw.
  rewrite Hup, Hdel, Hpatch, Hrb, Ht. simpl.
  split; [done|].
  unfold resolves, attachmentPath. rewrite Ht, Ho. simpl.
  apply bool_decide_eq_false. intros [b Hb].
  match type of Hb with
  | delete ?p1 (delete ?p2 _) !! _ = _ =>
    destruct (decide (p1 = p2)) as [Heq|Hne]
  end.
  - rewrite <- Heq, lookup_delete_eq in Hb. done.
  - rewrite lookup_delete_ne, lookup_delete_eq in Hb by done. done.
Qed.
End ExpenseRouteFacts.

(** Strings: cancellation on both sides of an append. *)
Section StringFacts.
Lemma length_app (a s : string) :
  String.length (a +:+ s) = (String.length a + String.length s)%nat.
Proof. induction a as [|c a IH]; simpl; [done | by rewrite IH]. Qed.

Lemma app_inj_r (a b s : string) : a +:+ s = b +:+ s -> a = b.
Proof.
  intros H.
  assert (Hlen : String.length a = String.length b).
  { apply (f_equal String.length) in H. rewrite !length_app in H. lia. }
  revert b H Hlen.
  induction a as [|c a IH]; intros [|c' b] H Hlen; simpl in *; try done.
  injection H as -> H. f_equal. apply IH; [done | lia].
Qed.

Lemma pathOf_inj t c u a b : pathOf t c u a = pathOf t c u b -> a = b.
Proof.
  unfold pathOf. destruct c; intros H;
    repeat (apply (inj (String.app _)) in H); done.
Qed.

Lemma num_inj a b : num a = num b -> a = b.
Proof. apply (inj pretty). Qed.

Lemma eqb_false_ne (a b : string) : String.eqb a b = false -> a ≠ b.
Proof. apply String.eqb_neq. Qed.
End StringFacts.

Section ExpenseUploadFacts.
Import ExpenseRoutes.
Variable extname : string -> string.

(** Two uploads at different instants never share an attachment name. *)
Lemma attachmentName_inj_time e expenseId f t1 t2 :
  attachmentName extname e expenseId f t1
    = attachmentName extname e expenseId f t2 -> t1 = t2.
Proof.
  unfold attachmentName. intros H.
  apply (inj (String.app _)) in H.
  apply (inj (String.app _)) in H.
  apply app_inj_r in H. by apply num_inj.
Qed.

(** The PDF route without faults: the object sits at the path of
    [pdfName] and the row references that name. *)
Lemma postPdf_success req (w : World) uid expenseId f e :
  user req = Some uid -> decodedId req = Some expenseId -> 0 < expenseId ->
  file req = Some f ->
  expenses w !! expenseId = Some e -> userId e = uid ->
  let name := pdfName e expenseId in
  let out := postPdf noFaults req w in
  out.1 = Returns (Json 200 true "Expense PDF uploaded successfully"
                     (Some name))
  ∧ blobs out.2 !! pathOf EXPENSE (Some "Generated_pdfs") uid name
      = Some {| content := buffer f; contentType := mimetype f |}
  ∧ expenses out.2 !! expenseId
      = Some {| id := id e; userId := userId e; billNumber := billNumber e;
                attachmentFileName := attachmentFileName e;
                expenseFileName := Some name |}.
Proof.
  intros Hu Hd Hpos Hf Hl Ho.
  unfold postPdf, tryCatch, bind.
  rewrite Hu, Hd, Hf.
  destruct (Z.leb_spec expenseId 0) as [?|_]; [lia|].
  rewrite (getExpenseById_owned _ _ _ _ Hl Ho).
  unfold uploadFile, deleteFile, updateExpensePdfFilename,
    bind, failWhen, modify, ret, throw. simpl.
  destruct (truthy (expenseFileName e)) eqn:Ht; simpl.
  - destruct (String.eqb _ _) eqn:Hne; simpl.
    + rewrite (getExpenseById_owned _ expenseId uid e); [|done..]. simpl.
      split; [done|]. split; [apply lookup_insert_eq|apply lookup_insert_eq].
    + rewrite (getExpenseById_owned _ expenseId uid e); [|done..]. simpl.
      split; [done|]. split; [|apply lookup_insert_eq].
      rewrite lookup_delete_ne.
      * apply lookup_insert_eq.
      * intros Heq. apply eqb_false_ne in Hne. apply Hne.
        by apply (pathOf_inj EXPENSE (Some "Generated_pdfs") uid).
  - rewrite (getExpenseById_owned _ expenseId uid e); [|done..]. simpl.
    split; [done|]. split; apply lookup_insert_eq.
Qed.

(** The attachment route without faults: the reply and the row carry the
    timestamped name. *)
Lemma postAttachment_success now req (w : World) uid expenseId f e :
  user req = Some uid -> decodedId req = Some expenseId -> 0 < expenseId ->
  file req = Some f ->
  expenses w !! expenseId = Some e -> userId e = uid ->
  let name := attachmentName extname e expenseId f now in
  let out := postAttachment extname noFaults now req w in
  out.1 = Returns (Json 200 true "Expense attachment uploaded successfully"
                     (Some name))
  ∧ expenses out.2 !! expenseId
      = Some {| id := id e; userId := userId e; billNumber := billNumber e;
                attachmentFileName := Some name;
                expenseFileName := expenseFileName e |}.
Proof.
  intros Hu Hd Hpos Hf Hl Ho.
  unfold postAttachment, tryCatch, bind.
  rewrite Hu, Hd, Hf.
  destruct (Z.leb_spec expenseId 0) as [?|_]; [lia|].
  rewrite (getExpenseById_owned _ _ _ _ Hl Ho).
  unfold uploadFile, deleteFile, updateExpenseAttachmentFilename,
    bind, failWhen, modify, ret, throw. simpl.
  destruct (truthy (attachmentFileName e)); simpl;
    (rewrite (getExpenseById_owned _ expenseId uid e); [|done..]); simpl;
    (split; [done | apply lookup_insert_eq]).
Qed.

(** The attachment route without faults, when the timestamped name is not
    the name the row held: the new bytes sit at the path of the new name,
    which is not the path of the object the row referenced, and that
    object is deleted. *)
Lemma postAttachment_stored now req (w : World) uid expenseId f e :
  user req = Some uid -> decodedId req = Some expenseId -> 0 < expenseId ->
  file req = Some f ->
  expenses w !! expenseId = Some e -> userId e = uid ->
  let name := attachmentName extname e expenseId f now in
  attachmentFileName e ≠ Some name ->
  let out := postAttachment extname noFaults now req w in
  blobs out.2 !! pathOf EXPENSE (Some "Uploaded_Documents") uid name
    = Some {| content := buffer f; contentType := mimetype f |}
  ∧ (forall old, attachmentPath e = Some old ->
       old ≠ pathOf EXPENSE (Some "Uploaded_Documents") uid name
       ∧ blobs out.2 !! old = None).
Proof.
  intros Hu Hd Hpos Hf Hl Ho name Hname.
  unfold postAttachment, tryCatch, bind.
  rewrite Hu, Hd, Hf.
  destruct (Z.leb_spec expenseId 0) as [?|_]; [lia|].
  rewrite (getExpenseById_owned _ _ _ _ Hl Ho).
  unfold uploadFile, deleteFile, updateExpenseAttachmentFilename,
    bind, failWhen, modify, ret, throw. simpl.
  unfold attachmentPath. rewrite Ho.
  destruct (truthy (attachmentFileName e)) eqn:Ht; simpl;
    (rewrite (getExpenseById_owned _ expenseId uid e); [|done..]); simpl.
  - assert (Hne : "Expense/Uploaded_Documents/" +:+ num uid +:+ "/"
                    +:+ orElse (attachmentFileName e) ""
                  ≠ pathOf EXPENSE (Some "Uploaded_Documents") uid name).
    { intros Heq.
      apply (pathOf_inj EXPENSE (Some "Uploaded_Documents") uid) in Heq.
      apply Hname. revert Ht Heq. unfold truthy, orElse.
      destruct (attachmentFileName e) as [old|]; [|done].
      destruct (String.eqb old ""); [done|]. by intros _ ->. }
    split.
    + rewrite lookup_delete_ne by done. apply lookup_insert_eq.
    + intros old [= <-]. split; [done | apply lookup_delete_eq].
  - split; [apply lookup_insert_eq | done].
Qed.
End ExpenseUploadFacts.

Section ExpenseRouteClaims.
Import ExpenseRoutes Scenarios.

(** C1 (the code departs from the claim).  The claim: the old artifact is
    deleted only after the record was patched, so the record's pointer
    never dangles, whichever single step fails.  Both routes delete the
    old object before the patch (lines 360-366, 440-446).  Replacing the
    attachment of expense 1 with only the patch failing: the pointer
    resolved before the request; afterwards the row still names
    [old.png] and no object is at its path.  On the PDF route the upload
    went over [B1.pdf] in place and the rollback removed it, with the
    same outcome. *)
Theorem replace_with_failed_patch_leaves_dangling_pointer :
  let before := expenseWorld in
  let a := postAttachment extnameOf patchFailure uploadInstant
             attachmentRequest before in
  let p := postPdf patchFailure pdfRequest before in
  (resolves before (attachmentPath expense1) = true
   ∧ a.1 = Returns (Next dbDown)
   ∧ expenses a.2 !! 1 = Some expense1
   ∧ resolves a.2 (attachmentPath expense1) = false)
  ∧ (resolves before (pdfPath expense1) = true
     ∧ p.1 = Returns (Next dbDown)
     ∧ expenses p.2 !! 1 = Some expense1
     ∧ resolves p.2 (pdfPath expense1) = false).
Proof. vm_compute. repeat split; reflexivity. Qed.

(** C6 (the code departs from the claim).  The claim: when the record
    patch fails, the newly uploaded object is deleted, the original error
    reaches the caller, and the record's artifact-filename field keeps its
    value, pointing at the original artifact.  Replacing the attachment of
    expense 1, and its PDF, with only the patch failing: the new object is
    deleted, the patch's error is answered and the row keeps [old.png] and
    [B1.pdf]; but the object each name pointed at is no longer in the
    store.  The attachment route deleted it before it tried the patch
    (lines 360-366, the defect of C1); the PDF route uploaded over it and
    its rollback deleted it.  When the delete of the rollback fails as
    well (lines 370-374), the caller gets that error in place of the
    patch's, and the new object stays in the store. *)
Theorem failed_patch_loses_the_original_artifact :
  let before := expenseWorld in
  let oldAttachment := "Expense/Uploaded_Documents/7/old.png" in
  let oldGenerated := "Expense/Generated_pdfs/7/B1.pdf" in
  let newAttachment :=
    pathOf EXPENSE (Some "Uploaded_Documents") 7
      (attachmentName extnameOf expense1 1 pngUpload uploadInstant) in
  let a := postAttachment extnameOf patchFailure uploadInstant
             attachmentRequest before in
  let p := postPdf patchFailure pdfRequest before in
  let a' := postAttachment extnameOf patchAndRollbackFailure uploadInstant
              attachmentRequest before in
  (blobs before !! oldAttachment = Some oldBlob
   ∧ a.1 = Returns (Next dbDown)
   ∧ blobs a.2 !! newAttachment = None
   ∧ (attachmentFileName <$> expenses a.2 !! 1) = Some (Some "old.png")
   ∧ blobs a.2 !! oldAttachment = None)
  ∧ (blobs before !! oldGenerated = Some oldPdf
     ∧ p.1 = Returns (Next dbDown)
     ∧ (expenseFileName <$> expenses p.2 !! 1) = Some (Some "B1.pdf")
     ∧ blobs p.2 !! oldGenerated = None)
  ∧ (a'.1 = Returns (Next blobDeleteDown)
     ∧ blobs a'.2 !! newAttachment
         = Some {| content := newBytes; contentType := "image/png" |}
     ∧ (attachmentFileName <$> expenses a'.2 !! 1) = Some (Some "old.png")
     ∧ blobs a'.2 !! oldAttachment = None).
Proof. vm_compute. repeat split; reflexivity. Qed.

(** C8, counterexample.  The PDF route names the upload [B1.pdf], the very
    name expense 1 references, and the object at that path is replaced in
    place by the new bytes. *)
Lemma pdf_upload_overwrites_in_place :
  let path := "Expense/Generated_pdfs/7/B1.pdf" in
  let out := postPdf noFaults pdfRequest expenseWorld in
  ¬ (pdfName expense1 1 ≠ orElse (expenseFileName expense1) "")
  ∧ blobs expenseWorld !! path = Some oldPdf
  ∧ out.1 = Returns (Json 200 true "Expense PDF uploaded successfully"
                       (Some "B1.pdf"))
  ∧ blobs out.2 !! path
      = Some {| content := newBytes; contentType := "application/pdf" |}.
Proof.
  cbv zeta. split; [intros H; apply H; reflexivity|].
  vm_compute. repeat split; reflexivity.
Qed.

(** C8, amended.  An attachment upload names the new bytes
    [<bill>_<Date.now()><ext>]: uploads for the same expense and file at
    different instants get different names, and the reply and the patched
    row carry that name.  When that name is not the name the row held
    before, the new bytes are stored under it, at a path other than that
    of the object the row referenced, and that object is deleted, not
    overwritten.  An expense PDF upload stores them under [pdfName], which
    has no timestamp: the row references that name afterwards, the object
    at its path holds the new bytes, and the next upload computes the same
    name again, so it overwrites that object in place. *)
Theorem upload_names_timestamped_for_attachments_only
    (extname : string -> string) :
  (forall e expenseId f t1 t2, t1 ≠ t2 ->
     attachmentName extname e expenseId f t1
       ≠ attachmentName extname e expenseId f t2)
  ∧ (forall now req (w : World) uid expenseId f e,
       user req = Some uid -> decodedId req = Some expenseId ->
       0 < expenseId -> file req = Some f ->
       expenses w !! expenseId = Some e -> userId e = uid ->
       let name := attachmentName extname e expenseId f now in
       let out := postAttachment extname noFaults now req w in
       out.1 = Returns (Json 200 true
                          "Expense attachment uploaded successfully"
                          (Some name))
       ∧ (attachmentFileName <$> expenses out.2 !! expenseId)
           = Some (Some name)
       ∧ (attachmentFileName e ≠ Some name ->
          blobs out.2 !! pathOf EXPENSE (Some "Uploaded_Documents") uid name
            = Some {| content := buffer f; contentType := mimetype f |}
          ∧ forall old, attachmentPath e = Some old ->
              old ≠ pathOf EXPENSE (Some "Uploaded_Documents") uid name
              ∧ blobs out.2 !! old = None))
  ∧ (forall req (w : World) uid expenseId f e,
       user req = Some uid -> decodedId req = Some expenseId ->
       0 < expenseId -> file req = Some f ->
       expenses w !! expenseId = Some e -> userId e = uid ->
       let name := pdfName e expenseId in
       let out := postPdf noFaults req w in
       out.1 = Returns (Json 200 true "Expense PDF uploaded successfully"
                          (Some name))
       ∧ blobs out.2 !! pathOf EXPENSE (Some "Generated_pdfs") uid name
           = Some {| content := buffer f; contentType := mimetype f |}
       ∧ (exists e', expenses out.2 !! expenseId = Some e'
                     ∧ expenseFileName e' = Some name
                     ∧ pdfName e' expenseId = name)).
Proof.
  split; [|split].
  - intros e expenseId f t1 t2 Hne Heq. apply Hne.
    by apply (attachmentName_inj_time extname e expenseId f).
  - intros now req w uid expenseId f e Hu Hd Hpos Hf Hl Ho.
    destruct (postAttachment_success extname now req w uid expenseId f e)
      as [H1 H2]; try done.
    cbv zeta. rewrite H1, H2. split; [done|]. split; [done|].
    intros Hname.
    by apply (postAttachment_stored extname now req w uid expenseId f e).
  - intros req w uid expenseId f e Hu Hd Hpos Hf Hl Ho.
    destruct (postPdf_success req w uid expenseId f e) as (H1 & H2 & H3);
      try done.
    cbv zeta. split; [done|]. split; [done|].
    eexists. split; [exact H3|]. done.
Qed.

Lemma upload_names_timestamped_for_attachments_only_witness :
  attachmentName extnameOf expense1 1 pngUpload uploadInstant
    ≠ attachmentName extnameOf expense1 1 pngUpload (uploadInstant + 1)
  ∧ (let name := attachmentName extnameOf expense1 1 pngUpload
                   uploadInstant in
     let out := postAttachment extnameOf noFaults uploadInstant
                  attachmentRequest expenseWorld in
     out.1 = Returns (Json 200 true
                        "Expense attachment uploaded successfully"
                        (Some name))
     ∧ (attachmentFileName <$> expenses out.2 !! 1) = Some (Some name)
     ∧ blobs out.2 !! pathOf EXPENSE (Some "Uploaded_Documents") 7 name
         = Some {| content := buffer pngUpload;
                   contentType := mimetype pngUpload |}
     ∧ blobs out.2 !! "Expense/Uploaded_Documents/7/old.png" = None)
  ∧ (let out := postPdf noFaults pdfRequest expenseWorld in
     out.1 = Returns (Json 200 true "Expense PDF uploaded successfully"
                        (Some (pdfName expense1 1)))
     ∧ blobs out.2 !! pathOf EXPENSE (Some "Generated_pdfs") 7
                        (pdfName expense1 1)
         = Some {| content := buffer pdfUpload;
                   contentType := mimetype pdfUpload |}
     ∧ (exists e', expenses out.2 !! 1 = Some e'
                   ∧ expenseFileName e' = Some (pdfName expense1 1)
                   ∧ pdfName e' 1 = pdfName expense1 1)).
Proof.
  destruct (upload_names_timestamped_for_attachments_only extnameOf)
    as (Ha & Hat & Hp).
  split; [|split].
  - apply Ha. unfold uploadInstant. lia.
  - destruct (Hat uploadInstant attachmentRequest expenseWorld 7 1 pngUpload
                expense1) as (H1 & H2 & H3); 
      [reflexivity | reflexivity | lia | reflexivity | reflexivity
      | reflexivity |].
    destruct H3 as [H3 H4]; [vm_compute; discriminate|].
    destruct (H4 "Expense/Uploaded_Documents/7/old.png") as [_ H5];
      [reflexivity|].
    cbv zeta. split; [exact H1|]. split; [exact H2|]. split; [exact H3|].
    exact H5.
  - apply (Hp pdfRequest expenseWorld 7 1 pdfUpload expense1);
      reflexivity.
Defined.
End ExpenseRouteClaims.

(** ** Inverting a completed call *)

Section Inversion.
Lemma bind_returns {S A B} (m : M S A) (k : A -> M S B) s b s' :
  bind m k s = (Returns b, s') ->
  exists a s1, m s = (Returns a, s1) ∧ k a s1 = (Returns b, s').
Proof.
  unfold bind. destruct (m s) as [[a|e|] s1]; [eauto | done..].
Qed.

Lemma guard_returns {S} (c : bool) (e : Exn) (s : S) a s' :
  (if c then ret tt else throw e) s = (Returns a, s') -> c = true ∧ s' = s.
Proof. destruct c; unfold ret, throw; intros; by simplify_eq. Qed.

Lemma failWhen_returns {S} f (s : S) a s' :
  failWhen f s = (Returns a, s') -> f = None ∧ s' = s.
Proof. destruct f; unfold failWhen, ret, throw; intros; by simplify_eq. Qed.

Lemma bind_failWhen_None {S B} (k : unit -> M S B) (s : S) :
  bind (failWhen None) k s = k tt s.
Proof. done. Qed.

Lemma rollback_same (w : World) : withDb (rollbackTo (db w)) w = w.
Proof. by destruct w as [[] ?]. Qed.
End Inversion.

Tactic Notation "inv_bind" hyp(H) "as" ident(a) ident(s) ident(H1) :=
  apply bind_returns in H as (a & s & H1 & H).

(** ** Invoice service *)

Section InvoiceServiceFacts.
Import InvoiceService.
Variable tz : Z.
Variable invoiceNumberDefault : Z -> option string.



Lemma rollbackAndRethrow_throws {A} before text e (w : World) :
  exists e', @rollbackAndRethrow A before text e w
             = (Throws e', withDb (rollbackTo (db before)) w).
Proof.
  unfold rollbackAndRethrow, bind, modify, throw.
  destruct (instanceofAppError e); eauto.
Qed.

Lemma tryCatch_rethrow_returns {A} (m : M World A) before text s a s' :
  tryCatch m (rollbackAndRethrow before text) s = (Returns a, s') ->
  m s = (Returns a, s').
Proof.
  unfold tryCatch. destruct (m s) as [[x|e|] s1]; [done| |done].
  destruct (@rollbackAndRethrow_throws A before text e s1) as [e' ->]. done.
Qed.

(** The item loop only writes invoice_items. *)
Lemma insertItems_writes invoiceId uid l (w : World) :
  exists rows,
    (insertItems invoiceId uid l w).2 = withDb (setInvoiceItems rows) w.
Proof.
  revert w. induction l as [|item rest IH]; intros w; simpl.
  - exists (invoice_items (db w)). destruct w as [[] ?]; done.
  - unfold bind, get. simpl.
    destruct (ownedBy _ _ _ _).
    + unfold modify. simpl.
      match goal with
      | |- context [insertItems _ _ _ ?s] => destruct (IH s) as [rows Hrows]
      end.
      exists rows.
      match goal with
      | |- context [insertItems ?a ?b ?c ?d] =>
        destruct (insertItems a b c d) as [[] ?]
      end; simpl in *; rewrite Hrows; done.
    + exists (invoice_items (db w)). destruct w as [[] ?]; done.
Qed.

Lemma createPaymentReminders_writes fault invoiceId due rep (w : World) :
  exists rems,
    tryCatch (createPaymentReminders fault invoiceId due rep)
             (fun _ => ret tt) w
    = (Returns tt, withDb (setPaymentReminders rems) w).
Proof.
  unfold tryCatch, createPaymentReminders, bind, failWhen, modify, throw, ret.
  destruct fault; simpl.
  - exists (payment_reminders (db w)). destruct w as [[] ?]; done.
  - eexists. done.
Qed.

(** A completed [createInvoice]: what it returns and what it wrote. *)
Lemma createInvoice_returns f rf now d (w : World) inv w' :
  createInvoice tz invoiceNumberDefault f rf now d w = (Returns inv, w') ->
  let row := newInvoiceRow tz invoiceNumberDefault w now d in
  inv = mapInvoiceToResponse row
  ∧ (exists rows rems,
       w' = withDb (setPaymentReminders rems)
              (withDb (setInvoiceItems rows)
                 (withDb (fun t =>
                    setInvoices (<[Database.id row := row]> (invoices t))
                      (setInvoicesSeq (Database.id row) t)) w)))
  ∧ is_Some (users (db w) !! cd_userId d)
  ∧ ownedBy c_userId (master_clients (db w)) (cd_clientId d) (cd_userId d)
    = true.
Proof.
  unfold createInvoice. intros H.
  inv_bind H as before s0 H0. unfold get in H0. injection H0 as <- <-.
  apply tryCatch_rethrow_returns in H.
  inv_bind H as x1 s1 H1. apply failWhen_returns in H1 as [-> ->].
  inv_bind H as x2 s2 H2. unfold get in H2. injection H2 as <- <-.
  inv_bind H as x3 s3 H3. apply guard_returns in H3 as [Husers ->].
  inv_bind H as x4 s4 H4. apply guard_returns in H4 as [Hclient ->].
  inv_bind H as x5 s5 H5.
  assert (s5 = w) as ->.
  { destruct (truthyZ (cd_projectId d)); [|by injection H5].
    by apply guard_returns in H5 as [_ ->]. }
  clear H5.
  set (row := newInvoiceRow tz invoiceNumberDefault w now d) in *.
  inv_bind H as x6 s6 H6. unfold modify in H6. injection H6 as <- <-.
  inv_bind H as x7 s7 H7.
  match type of H7 with
  | insertItems ?a ?b ?c ?s = _ =>
    destruct (insertItems_writes a b c s) as [rows Hrows]
  end.
  rewrite H7 in Hrows. simpl in Hrows. subst s7.
  inv_bind H as x8 s8 H8. unfold ret in H. injection H as <- <-.
  apply bool_decide_eq_true in Husers.
  split; [done|]. split; [|done].
  destruct (cd_paymentReminderRepetition d) as [rep|].
  - match type of H8 with
    | tryCatch _ _ ?s = _ =>
      destruct (createPaymentReminders_writes rf (Database.id row)
                  (cd_dueDate d) rep s) as [rems Hrems]
    end.
    rewrite Hrems in H8. injection H8 as <-. eauto.
  - unfold ret in H8. injection H8 as <-.
    exists rows, (payment_reminders (db w)). destruct w as [[] ?]; done.
Qed.

Lemma reminders_step_writes f2 f3 invoiceId (r : InvoiceRow) due (s : World) :
  exists rems,
    tryCatch
      (deletePaymentRemindersByInvoiceId f2 invoiceId ;;;
       match paymentReminderRepetition r with
       | Some repetition => createPaymentReminders f3 invoiceId due repetition
       | None => ret tt
       end)
      (fun _ => ret tt) s
    = (Returns tt, withDb (setPaymentReminders rems) s).
Proof.
  unfold tryCatch, bind, deletePaymentRemindersByInvoiceId,
    createPaymentReminders, bind, failWhen, modify, throw, ret.
  destruct f2; simpl.
  { exists (payment_reminders (db s)). destruct s as [[] ?]; done. }
  destruct (paymentReminderRepetition r); simpl; [destruct f3; simpl|];
    eauto.
Qed.


(** No row for the (id, owner) pair: each operation answers NotFound and
    leaves both stores as they were. *)
Lemma getInvoiceById_not_found invoiceId uid (w : World) :
  selectInvoice (db w) invoiceId uid = None ->
  getInvoiceById None invoiceId uid w = (Throws notFound, w).
Proof.
  intros H. unfold getInvoiceById, tryCatch, bind, failWhen, get, ret.
  simpl. by rewrite H.
Qed.

Lemma updateInvoice_not_found f2 f3 now invoiceId uid u (w : World) :
  selectInvoice (db w) invoiceId uid = None ->
  updateInvoice tz None f2 f3 now invoiceId uid u w = (Throws notFound, w).
Proof.
  intros H. unfold updateInvoice, tryCatch, bind, failWhen, get, ret. simpl.
  rewrite H. simpl. unfold rollbackAndRethrow, bind, modify, throw. simpl.
  by rewrite rollback_same.
Qed.

Lemma deleteInvoice_not_found bf invoiceId uid (w : World) :
  selectInvoice (db w) invoiceId uid = None ->
  deleteInvoice None bf invoiceId uid w = (Throws notFound, w).
Proof.
  intros H. unfold deleteInvoice, tryCatch, bind, failWhen, get, ret. simpl.
  by rewrite H.
Qed.

Lemma selectInvoice_other_owner (t : Tables) invoiceId uid r :
  invoices t !! invoiceId = Some r -> Database.userId r ≠ uid ->
  selectInvoice t invoiceId uid = None.
Proof.
  intros H Hne. unfold selectInvoice. rewrite H. by rewrite decide_False.
Qed.

Lemma selectInvoice_missing (t : Tables) invoiceId uid :
  invoices t !! invoiceId = None -> selectInvoice t invoiceId uid = None.
Proof. intros H. unfold selectInvoice. by rewrite H. Qed.

(** A patch that pushes no SET clause has every field undefined. *)
Lemma updateFields_nil u : updateFields u = [] -> u = emptyUpdate.
Proof.
  unfold updateFields. intros H.
  repeat (apply app_eq_nil in H as [? H]).
  destruct u as [a1 a2 a3 a4 a5 a6 a7 a8 a9 a10 a11 a12 a13 a14 a15 a16 a17 a18].
  simpl in *.
  destruct a1; [done|]. destruct a2; [done|]. destruct a3; [done|].
  destruct a4; [done|]. destruct a5; [done|]. destruct a6; [done|].
  destruct a7; [done|]. destruct a8; [done|]. destruct a9; [done|].
  destruct a10; [done|]. destruct a11; [done|]. destruct a12; [done|].
  destruct a13; [done|]. destruct a14; [done|]. destruct a15; [done|].
  destruct a16; [done|]. destruct a17; [done|]. destruct a18; [done|].
  reflexivity.
Qed.

Lemma updateInvoice_no_fields f2 f3 now invoiceId uid (w : World) existing :
  selectInvoice (db w) invoiceId uid = Some existing ->
  updateInvoice tz None f2 f3 now invoiceId uid emptyUpdate w
  = (Throws (AppError "No fields to update" 400), w).
Proof.
  intros H. unfold updateInvoice, tryCatch, bind, failWhen, get, ret. simpl.
  rewrite H. simpl. rewrite andb_false_r. simpl.
  unfold rollbackAndRethrow, bind, modify, throw. simpl.
  by rewrite rollback_same.
Qed.
End InvoiceServiceFacts.

Section InvoiceServiceClaims.
Import InvoiceService Scenarios.



(** C9.  For getInvoiceById, updateInvoice and deleteInvoice, a call on a
    store where the id exists under another owner and the same call on a
    store where the id does not exist have the same outcome, the NotFound
    ["Invoice not found", 404], and each leaves its store unchanged;
    with the same driver failure injected in both, the outcomes are again
    equal. *)
Theorem foreign_record_is_not_found (tz : Z) (w1 w2 : World)
    invoiceId uid r :
  invoices (db w1) !! invoiceId = Some r -> Database.userId r ≠ uid ->
  invoices (db w2) !! invoiceId = None ->
  (getInvoiceById None invoiceId uid w1 = (Throws notFound, w1)
   ∧ getInvoiceById None invoiceId uid w2 = (Throws notFound, w2))
  ∧ (forall f2 f3 now u,
       updateInvoice tz None f2 f3 now invoiceId uid u w1
         = (Throws notFound, w1)
       ∧ updateInvoice tz None f2 f3 now invoiceId uid u w2
         = (Throws notFound, w2))
  ∧ (forall bf,
       deleteInvoice None bf invoiceId uid w1 = (Throws notFound, w1)
       ∧ deleteInvoice None bf invoiceId uid w2 = (Throws notFound, w2))
  ∧ (forall f f2 f3 bf now u,
       (getInvoiceById f invoiceId uid w1).1
         = (getInvoiceById f invoiceId uid w2).1
       ∧ (updateInvoice tz f f2 f3 now invoiceId uid u w1).1
         = (updateInvoice tz f f2 f3 now invoiceId uid u w2).1
       ∧ (deleteInvoice f bf invoiceId uid w1).1
         = (deleteInvoice f bf invoiceId uid w2).1).
Proof.
  intros Hr Hne Hnone.
  pose proof (selectInvoice_other_owner _ _ _ _ Hr Hne) as H1.
  pose proof (selectInvoice_missing _ _ uid Hnone) as H2.
  split; [|split; [|split]].
  - split; by apply getInvoiceById_not_found.
  - intros. split; by apply updateInvoice_not_found.
  - intros. split; by apply deleteInvoice_not_found.
  - intros [e|] f2 f3 bf now u.
    + unfold getInvoiceById, updateInvoice, deleteInvoice, tryCatch, bind,
        failWhen, get, throw, rollbackAndRethrow, modify. simpl.
      destruct (instanceofAppError e); done.
    + rewrite !getInvoiceById_not_found, !deleteInvoice_not_found,
        !updateInvoice_not_found by done. done.
Qed.

Lemma foreign_record_is_not_found_witness :
  getInvoiceById None 1 8 office = (Throws notFound, office)
  ∧ getInvoiceById None 1 8 officeWithoutInvoices
    = (Throws notFound, officeWithoutInvoices)
  ∧ updateInvoice 0 None None None clock 1 8 (moveDueDate clock) office
    = (Throws notFound, office)
  ∧ deleteInvoice None None 1 8 office = (Throws notFound, office).
Proof.
  assert (Hne : Database.userId paidInvoice ≠ 8) by (vm_compute; discriminate).
  destruct (foreign_record_is_not_found 0 office officeWithoutInvoices 1 8
              paidInvoice eq_refl Hne eq_refl) as ([G1 G2] & U & D & _).
  split; [exact G1|]. split; [exact G2|].
  split; [exact (proj1 (U None None clock (moveDueDate clock)))|].
  exact (proj1 (D None)).
Defined.

(** C10.  updateInvoice on an existing invoice of the caller, with a patch
    that sets none of the updatable fields, fails with
    ["No fields to update", 400] and leaves the relational store and the
    artifact store exactly as they were: the row with its updatedAt, the
    payments and the payment reminders. *)
Theorem empty_patch_is_rejected_unchanged (tz : Z) f2 f3 now invoiceId uid u
    (w : World) existing :
  selectInvoice (db w) invoiceId uid = Some existing ->
  updateFields u = [] ->
  updateInvoice tz None f2 f3 now invoiceId uid u w
  = (Throws (AppError "No fields to update" 400), w).
Proof.
  intros Hsel Hu. apply updateFields_nil in Hu as ->.
  by apply (updateInvoice_no_fields tz f2 f3 now invoiceId uid w existing).
Qed.

Lemma empty_patch_is_rejected_unchanged_witness :
  updateInvoice 0 None None None clock 2 7 emptyUpdate office
  = (Throws (AppError "No fields to update" 400), office).
Proof.
  apply (empty_patch_is_rejected_unchanged 0 None None clock 2 7 emptyUpdate
           office openInvoice); reflexivity.
Defined.
End InvoiceServiceClaims.

(** ** Agreement of computations up to a relation on stores *)

Section Agreement.
Context {S : Type} (R : S -> S -> Prop).

Lemma agree_ret {A} (a : A) : agree R (ret a) (ret a).
Proof. by intros s1 s2 H. Qed.

Lemma agree_throw {A} e : agree R (@throw S A e) (throw e).
Proof. by intros s1 s2 H. Qed.

Lemma agree_bind {A B} (m1 m2 : M S A) (k1 k2 : A -> M S B) :
  agree R m1 m2 -> (forall a, agree R (k1 a) (k2 a)) ->
  agree R (bind m1 k1) (bind m2 k2).
Proof.
  intros Hm Hk s1 s2 H. unfold bind.
  destruct (Hm s1 s2 H) as [Ho Hs].
  destruct (m1 s1) as [[a1|e1|] s1'], (m2 s2) as [[a2|e2|] s2']; simpl in *;
    simplify_eq; [by apply Hk | done..].
Qed.

Lemma agree_tryCatch {A} (m1 m2 : M S A) (h1 h2 : Exn -> M S A) :
  agree R m1 m2 -> (forall e, agree R (h1 e) (h2 e)) ->
  agree R (tryCatch m1 h1) (tryCatch m2 h2).
Proof.
  intros Hm Hh s1 s2 H. unfold tryCatch.
  destruct (Hm s1 s2 H) as [Ho Hs].
  destruct (m1 s1) as [[a1|e1|] s1'], (m2 s2) as [[a2|e2|] s2']; simpl in *;
    simplify_eq; [done | by apply Hh | done].
Qed.

Lemma agree_get {B} (k1 k2 : S -> M S B) :
  (forall a1 a2, R a1 a2 -> agree R (k1 a1) (k2 a2)) ->
  agree R (bind get k1) (bind get k2).
Proof. intros Hk s1 s2 H. unfold bind, get. by apply Hk. Qed.

Lemma agree_modify (f1 f2 : S -> S) :
  (forall s1 s2, R s1 s2 -> R (f1 s1) (f2 s2)) ->
  agree R (modify f1) (modify f2).
Proof. intros Hf s1 s2 H. split; [done | by apply Hf]. Qed.

Lemma agree_failWhen f : agree R (@failWhen S f) (failWhen f).
Proof. destruct f; [apply agree_throw | apply agree_ret]. Qed.

Lemma agree_guard (c : bool) e :
  agree R (if c then ret tt else throw e) (if c then ret tt else throw e).
Proof. destruct c; [apply agree_ret | apply agree_throw]. Qed.

Lemma agree_forOf {A} (l : list A) (b1 b2 : A -> M S unit) :
  (forall x, agree R (b1 x) (b2 x)) ->
  agree R (MilestoneInvoiceService.forOf l b1)
          (MilestoneInvoiceService.forOf l b2).
Proof.
  intros Hb. induction l as [|x l IH]; simpl.
  - apply agree_ret.
  - apply agree_bind; [apply Hb | intros _; apply IH].
Qed.
End Agreement.

(** ** Computations that settle *)

Section Settling.
Context {S : Type}.








End Settling.

(** ** Milestone invoice service *)

Section RecordsFacts.
Import InvoiceService MilestoneInvoiceService.

Lemma sameRecords_proj (w1 w2 : World) :
  sameRecords w1 w2 ->
  users (db w1) = users (db w2)
  ∧ master_clients (db w1) = master_clients (db w2)
  ∧ projects (db w1) = projects (db w2)
  ∧ project_clients (db w1) = project_clients (db w2)
  ∧ items (db w1) = items (db w2)
  ∧ items_seq (db w1) = items_seq (db w2)
  ∧ invoices_seq (db w1) = invoices_seq (db w2)
  ∧ agreement_payment_milestones (db w1) = agreement_payment_milestones (db w2)
  ∧ agreement_payment_terms (db w1) = agreement_payment_terms (db w2)
  ∧ agreements (db w1) = agreements (db w2).
Proof.
  unfold sameRecords, records. destruct w1 as [[] ?], w2 as [[] ?]. simpl.
  intros H. by simplify_eq.
Qed.

Lemma selectInvoice_lookup t invoiceId uid r :
  selectInvoice t invoiceId uid = Some r -> invoices t !! invoiceId = Some r.
Proof.
  unfold selectInvoice. destruct (invoices t !! invoiceId); [|done].
  destruct (decide _); by intros; simplify_eq.
Qed.

Lemma ownedBy_is_Some {T} (owner : T -> Z) (t : gmap Z T) k uid :
  ownedBy owner t k uid = true -> is_Some (t !! k).
Proof. unfold ownedBy. destruct (t !! k); [eauto | done]. Qed.
End RecordsFacts.

(** Related stores stay related under the same write. *)
Ltac same_crush :=
  repeat match goal with
  | w : World |- _ => destruct w as [[] ?]
  end;
  unfold MilestoneInvoiceService.sameRecords, MilestoneInvoiceService.records,
    withDb, setInvoices, setInvoicesSeq, setInvoiceItems,
    setPayments, setPaymentReminders, setItems, setMilestones, rollbackTo in *;
  simpl in *;
  repeat match goal with
  | H : Build_Tables _ _ _ _ _ _ _ _ _ _ _ _ _ _ = _ |- _ =>
    injection H; clear H; intros; subst
  end;
  rewrite ?fmap_insert;
  repeat (first [done | f_equal]).

Section ServiceAgreement.
Import InvoiceService MilestoneInvoiceService.
Variable tz : Z.
Variable invoiceNumberDefault : Z -> option string.
Variable render : InvoiceRow -> list InvoiceItemRow -> Buffer.

Lemma agree_insertItems invoiceId uid l :
  agree sameRecords (insertItems invoiceId uid l) (insertItems invoiceId uid l).
Proof.
  induction l as [|item rest IH]; simpl.
  - apply agree_ret.
  - apply agree_get. intros a1 a2 Ha.
    destruct (sameRecords_proj _ _ Ha) as (_ & _ & _ & _ & -> & _).
    destruct (ownedBy _ _ _ _); [|apply agree_throw].
    apply agree_bind; [|intros _; apply IH].
    apply agree_modify. clear. intros s1 s2 H. same_crush.
Qed.

Lemma newInvoiceRow_same (w1 w2 : World) now d :
  sameRecords w1 w2 ->
  newInvoiceRow tz invoiceNumberDefault w1 now d
  = newInvoiceRow tz invoiceNumberDefault w2 now d.
Proof.
  intros H.
  destruct (sameRecords_proj _ _ H) as (Hu & _ & _ & _ & _ & _ & Hs & _).
  unfold newInvoiceRow. by rewrite Hu, Hs.
Qed.

Lemma agree_rollbackAndRethrow {A} b1 b2 text e :
  sameRecords b1 b2 ->
  agree sameRecords (@rollbackAndRethrow A b1 text e)
                    (rollbackAndRethrow b2 text e).
Proof.
  intros Hb. unfold rollbackAndRethrow.
  apply agree_bind.
  - apply agree_modify. intros s1 s2 H. same_crush.
  - intros _. destruct (instanceofAppError e); apply agree_throw.
Qed.

Lemma agree_createPaymentReminders f invoiceId due rep :
  agree sameRecords (createPaymentReminders f invoiceId due rep)
                    (createPaymentReminders f invoiceId due rep).
Proof.
  unfold createPaymentReminders.
  apply agree_bind; [apply agree_failWhen|]. intros _.
  apply agree_modify. intros s1 s2 H. same_crush.
Qed.

(** [createInvoice] reads no artifact pointer. *)
Lemma agree_createInvoice f rf now d :
  agree sameRecords (createInvoice tz invoiceNumberDefault f rf now d)
                    (createInvoice tz invoiceNumberDefault f rf now d).
Proof.
  unfold createInvoice.
  apply agree_get. intros b1 b2 Hb.
  apply agree_tryCatch; [|intros e; by apply agree_rollbackAndRethrow].
  apply agree_bind; [apply agree_failWhen|]. intros _.
  apply agree_get. intros a1 a2 Ha.
  destruct (sameRecords_proj _ _ Ha) as (-> & -> & -> & _).
  rewrite (newInvoiceRow_same a1 a2 now d Ha).
  apply agree_bind; [apply agree_guard|]. intros _.
  apply agree_bind; [apply agree_guard|]. intros _.
  apply agree_bind.
  { destruct (truthyZ _); [apply agree_guard | apply agree_ret]. }
  intros _.
  apply agree_bind.
  { apply agree_modify. clear. intros s1 s2 H. same_crush. }
  intros _.
  apply agree_bind; [apply agree_insertItems|]. intros _.
  apply agree_bind; [|intros _; apply agree_ret].
  destruct (cd_paymentReminderRepetition d); [|apply agree_ret].
  apply agree_tryCatch; [apply agree_createPaymentReminders|].
  intros _. apply agree_ret.
Qed.



(** The PDF steps of a client write nothing but the artifact and its
    pointer. *)
Lemma generateAndUpload_records flt now m c inv (w : World) :
  records (generateAndUpload render flt now m c inv w).2 = records w.
Proof.
  unfold generateAndUpload, tryCatch, bind, generateInvoicePdf, uploadFile,
    updateInvoicePdfFilename, bind, get, failWhen, hangWhen, never, modify,
    throw, ret.
  simpl.
  destruct (selectInvoice (db w) (Database.id inv) (userId m)) as [r|] eqn:Hsel;
    [|done].
  destruct (_ && _); [|done].
  destruct (renderFails flt (id m) c); [done|].
  destruct (uploadFails flt (id m) c); [done|]. simpl.
  destruct (patchFails flt (id m) c); [done|]. simpl.
  rewrite Hsel. simpl.
  apply selectInvoice_lookup in Hsel.
  unfold records. simpl. rewrite fmap_insert.
  rewrite insert_id; [done|]. rewrite lookup_fmap, Hsel. done.
Qed.

(** They complete unless the layout fails on an invoice whose joined
    SELECT found its row: then the await of line 209 never resumes. *)
Lemma generateAndUpload_outcome flt now m c inv (w : World) :
  (generateAndUpload render flt now m c inv w).1
  = match selectInvoice (db w) (Database.id inv) (userId m) with
    | Some r =>
      if bool_decide (is_Some (users (db w) !! userId m))
         && bool_decide (is_Some (master_clients (db w) !! clientId r))
      then match renderFails flt (id m) c with
           | Some _ => Pending
           | None => Returns tt
           end
      else Returns tt
    | None => Returns tt
    end.
Proof.
  unfold generateAndUpload, tryCatch, bind, generateInvoicePdf, uploadFile,
    updateInvoicePdfFilename, bind, get, failWhen, hangWhen, never, modify,
    throw, ret.
  simpl.
  destruct (selectInvoice (db w) (Database.id inv) (userId m)) as [r|] eqn:Hsel;
    [|done].
  destruct (_ && _); [|done].
  destruct (renderFails flt (id m) c); [done|].
  destruct (uploadFails flt (id m) c); [done|]. simpl.
  destruct (patchFails flt (id m) c); [done|]. simpl.
  by rewrite Hsel.
Qed.


Lemma generateAndUpload_completes flt now m c inv (w : World) :
  (generateAndUpload render flt now m c inv w).1 = Returns tt
  ∨ (generateAndUpload render flt now m c inv w).1 = Pending.
Proof.
  rewrite generateAndUpload_outcome.
  destruct (selectInvoice _ _ _); [|by left].
  destruct (_ && _); [|by left].
  destruct (renderFails _ _ _); [by right | by left].
Qed.

Lemma sameRecords_selectInvoice (w1 w2 : World) invoiceId uid :
  sameRecords w1 w2 ->
  withoutArtifact <$> selectInvoice (db w1) invoiceId uid
  = withoutArtifact <$> selectInvoice (db w2) invoiceId uid.
Proof.
  intros H.
  assert (Hl : withoutArtifact <$> invoices (db w1) !! invoiceId
               = withoutArtifact <$> invoices (db w2) !! invoiceId).
  { rewrite <- !lookup_fmap.
    change (invoices (records w1) !! invoiceId
            = invoices (records w2) !! invoiceId).
    by rewrite H. }
  unfold selectInvoice.
  destruct (invoices (db w1) !! invoiceId) as [r1|],
           (invoices (db w2) !! invoiceId) as [r2|];
    cbn [fmap option_fmap option_map] in *; try done.
  assert (Hl' : withoutArtifact r1 = withoutArtifact r2) by congruence.
  assert (Hu : Database.userId r1 = Database.userId r2).
  { change (Database.userId (withoutArtifact r1)
            = Database.userId (withoutArtifact r2)). by rewrite Hl'. }
  rewrite Hu.
  destruct (decide _); cbn [fmap option_fmap option_map]; [by rewrite Hl' | done].
Qed.

Lemma agree_generateAndUpload flt1 flt2 now m c inv :
  renderFails flt1 (id m) c = renderFails flt2 (id m) c ->
  agree sameRecords (generateAndUpload render flt1 now m c inv)
                    (generateAndUpload render flt2 now m c inv).
Proof.
  intros Hr w1 w2 H.
  pose proof (generateAndUpload_records flt1 now m c inv w1) as H1.
  pose proof (generateAndUpload_records flt2 now m c inv w2) as H2.
  split; [|unfold sameRecords in *; congruence].
  rewrite !generateAndUpload_outcome, Hr.
  pose proof (sameRecords_selectInvoice w1 w2 (Database.id inv) (userId m) H)
    as Hsel.
  destruct (sameRecords_proj _ _ H) as (-> & -> & _).
  destruct (selectInvoice (db w1) _ _) as [r1|],
           (selectInvoice (db w2) _ _) as [r2|];
    cbn [fmap option_fmap option_map] in Hsel; try done.
  assert (Hsel' : withoutArtifact r1 = withoutArtifact r2) by congruence.
  assert (Hc : clientId r1 = clientId r2).
  { change (clientId (withoutArtifact r1) = clientId (withoutArtifact r2)).
    by rewrite Hsel'. }
  by rewrite Hc.
Qed.

Lemma agree_liftW {A} (m1 m2 : M World A) :
  agree sameRecords m1 m2 -> agree sameRun (liftW m1) (liftW m2).
Proof.
  intros Hm r1 r2 [Hw Hr]. unfold liftW.
  destruct (Hm _ _ Hw) as [Ho Hs].
  destruct (m1 (world r1)) as [o1 w1], (m2 (world r2)) as [o2 w2]; simpl in *.
  split; [done|]. by split.
Qed.

Lemma agree_onResult f : agree sameRun (onResult f) (onResult f).
Proof.
  apply agree_modify. intros r1 r2 [Hw Hr].
  split; simpl; [done | by rewrite Hr].
Qed.

Lemma agree_getClientsByProjectId f project uid :
  agree sameRecords (getClientsByProjectId f project uid)
                    (getClientsByProjectId f project uid).
Proof.
  unfold getClientsByProjectId.
  apply agree_bind; [apply agree_failWhen|]. intros _.
  apply agree_get. intros a1 a2 Ha.
  destruct (sameRecords_proj _ _ Ha) as (_ & _ & _ & -> & _).
  apply agree_ret.
Qed.

Lemma agree_getOrCreateItemByName f uid name :
  agree sameRecords (getOrCreateItemByName f uid name)
                    (getOrCreateItemByName f uid name).
Proof.
  unfold getOrCreateItemByName.
  apply agree_tryCatch; [|intros e; apply agree_throw].
  unfold getItemsByUserId.
  apply agree_bind.
  - apply agree_bind; [apply agree_failWhen|]. intros _.
    apply agree_get. intros a1 a2 Ha.
    destruct (sameRecords_proj _ _ Ha) as (_ & _ & _ & _ & -> & _).
    apply agree_ret.
  - intros existing. destruct (find _ _); [apply agree_ret|].
    unfold createItem. apply agree_get. intros a1 a2 Ha.
    destruct (sameRecords_proj _ _ Ha) as (_ & _ & _ & _ & _ & -> & _).
    apply agree_bind; [|intros _; apply agree_ret].
    apply agree_modify. clear. intros s1 s2 H. same_crush.
Qed.

Lemma agree_markCreated f milestoneId :
  agree sameRecords (markCreated f milestoneId) (markCreated f milestoneId).
Proof.
  unfold markCreated.
  apply agree_bind; [apply agree_failWhen|]. intros _.
  apply agree_modify. clear. intros s1 s2 H. same_crush.
Qed.

Lemma agree_processClient flt1 flt2 now m itemId c :
  sameButUploadSteps flt1 flt2 ->
  agree sameRun
    (processClient tz invoiceNumberDefault render flt1 now m itemId c)
    (processClient tz invoiceNumberDefault render flt2 now m itemId c).
Proof.
  intros (_ & _ & _ & _ & Hc & Hr & _). unfold processClient. rewrite Hc.
  apply agree_tryCatch; [|intros e; apply agree_onResult].
  apply agree_bind; [apply agree_liftW, agree_createInvoice|]. intros inv.
  apply agree_bind; [by apply agree_liftW, agree_generateAndUpload|].
  intros _.
  apply agree_onResult.
Qed.

Lemma agree_processMilestone flt1 flt2 now m :
  sameButUploadSteps flt1 flt2 ->
  agree sameRun (processMilestone tz invoiceNumberDefault render flt1 now m)
                (processMilestone tz invoiceNumberDefault render flt2 now m).
Proof.
  intros Hf. pose proof Hf as (_ & _ & Hcl & Hit & _ & _ & Hmk).
  unfold processMilestone. rewrite Hcl, Hit, Hmk.
  apply agree_bind; [apply agree_onResult|]. intros _.
  apply agree_tryCatch; [|intros e; apply agree_onResult].
  apply agree_bind; [apply agree_liftW, agree_getClientsByProjectId|].
  intros clients. destruct (length clients =? 0)%nat; [apply agree_onResult|].
  apply agree_bind.
  - apply agree_tryCatch.
    + apply agree_bind; [apply agree_liftW, agree_getOrCreateItemByName|].
      intros itemId. apply agree_ret.
    + intros e. apply agree_bind; [apply agree_onResult|]. intros _.
      apply agree_ret.
  - intros [itemId|]; [|apply agree_ret].
    apply agree_bind.
    + apply agree_forOf. intros c. by apply agree_processClient.
    + intros _. apply agree_liftW, agree_markCreated.
Qed.

(** The run as a whole, under two plans that differ in the upload and the
    file-name patch. *)
Lemma processMilestoneInvoices_upload_steps flt1 flt2 now (w : World) :
  sameButUploadSteps flt1 flt2 ->
  (processMilestoneInvoices tz invoiceNumberDefault render flt1 now w).1
    = (processMilestoneInvoices tz invoiceNumberDefault render flt2 now w).1
  ∧ records (processMilestoneInvoices tz invoiceNumberDefault render flt1 now w).2
    = records (processMilestoneInvoices tz invoiceNumberDefault render flt2 now w).2.
Proof.
  intros Hf. pose proof Hf as (Hcn & Hq & _).
  unfold processMilestoneInvoices. rewrite Hcn, Hq.
  destruct (connectFails flt2) as [e|]; [done|].
  rewrite !bind_failWhen_None.
  set (start := {| world := w; result := _ |}).
  assert (Hrun : agree sameRun
    (tryCatch
       (failWhen (queryFails flt2) ;;;
        r <- get ;;
        let milestones := selectDueMilestones (db (world r)) (todayOf tz now) in
        if (length milestones =? 0)%nat then ret (result r)
        else
          forOf milestones
            (processMilestone tz invoiceNumberDefault render flt1 now) ;;;
          r' <- get ;; ret (result r'))
       (fun error =>
          throw (AppError ("Failed to process milestone invoices: "
                             +:+ message error) 500)))
    (tryCatch
       (failWhen (queryFails flt2) ;;;
        r <- get ;;
        let milestones := selectDueMilestones (db (world r)) (todayOf tz now) in
        if (length milestones =? 0)%nat then ret (result r)
        else
          forOf milestones
            (processMilestone tz invoiceNumberDefault render flt2 now) ;;;
          r' <- get ;; ret (result r'))
       (fun error =>
          throw (AppError ("Failed to process milestone invoices: "
                             +:+ message error) 500)))).
  { apply agree_tryCatch; [|intros e; apply agree_throw].
    apply agree_bind; [apply agree_failWhen|]. intros _.
    apply agree_get. intros a1 a2 [Ha Hr].
    destruct (sameRecords_proj _ _ Ha)
      as (_ & _ & _ & _ & _ & _ & _ & Hm & Ht & Hag).
    assert (Hsel : selectDueMilestones (db (world a1)) (todayOf tz now)
                   = selectDueMilestones (db (world a2)) (todayOf tz now)).
    { unfold selectDueMilestones. by rewrite Hm, Ht, Hag. }
    cbv zeta. rewrite Hsel, Hr.
    destruct (length _ =? 0)%nat; [apply agree_ret|].
    apply agree_bind;
      [apply agree_forOf; intros x; by apply agree_processMilestone|].
    intros _. apply agree_get. intros b1 b2 [_ Hb]. rewrite Hb.
    apply agree_ret. }
  destruct (Hrun start start) as [Ho Hs]; [done|].
  match type of Ho with
  | (?r1 _).1 = (?r2 _).1 =>
    destruct (r1 start) as [o1 s1], (r2 start) as [o2 s2]
  end.
  simpl in *. destruct Hs as [Hs _]. done.
Qed.

(** One client whose file-name patch fails, after the invoice was created
    and the PDF rendered and uploaded. *)
Lemma processClient_patch_failure flt now m itemId c (r : Run) inv w1 err :
  createInvoice tz invoiceNumberDefault (createFails flt (id m) c) None now
    (invoiceDataFor m itemId c) (world r) = (Returns inv, w1) ->
  renderFails flt (id m) c = None ->
  uploadFails flt (id m) c = None ->
  patchFails flt (id m) c = Some err ->
  exists w' row,
    processClient tz invoiceNumberDefault render flt now m itemId c r
      = (Returns tt, {| world := w'; result := incCreated (result r) |})
    ∧ blobs w' !! pathOf INVOICE None (userId m)
                     (template (invoiceNumber inv) +:+ ".pdf")
        = Some {| content := render row
                    (filter (fun i => ii_invoiceId i = Database.id inv)
                            (invoice_items (db w')));
                  contentType := "application/pdf" |}
    ∧ invoices (db w') !! Database.id inv = Some row
    ∧ invoiceFileName row = None.
Proof.
  intros Hcreate Hrender Hupload Hpatch.
  pose proof (createInvoice_returns tz invoiceNumberDefault _ _ _ _ _ _ _ Hcreate)
    as (Hinv & (rows & rems & Hw1) & Husers & Hclient).
  set (row := newInvoiceRow tz invoiceNumberDefault (world r) now
                (invoiceDataFor m itemId c)) in *.
  assert (Hfile : invoiceFileName row = None) by done.
  assert (Howner : Database.userId row = userId m) by done.
  assert (Hid : Database.id inv = Database.id row) by (by rewrite Hinv).
  assert (Hcl : clientId row = c) by done.
  clearbody row.
  assert (Hrow : invoices (db w1) !! Database.id row = Some row).
  { subst w1. simpl. apply lookup_insert_eq. }
  assert (Hsel : selectInvoice (db w1) (Database.id inv) (userId m) = Some row).
  { unfold selectInvoice. rewrite Hid, Hrow. by rewrite decide_True. }
  assert (Hjoin :
    bool_decide (is_Some (users (db w1) !! userId m))
    && bool_decide (is_Some (master_clients (db w1) !! clientId row)) = true).
  { subst w1. simpl. apply andb_true_iff. split; apply bool_decide_eq_true.
    - exact Husers.
    - rewrite Hcl. exact (ownedBy_is_Some _ _ _ _ Hclient). }
  exists (withBlobs
            (<[pathOf INVOICE None (userId m)
                 (template (invoiceNumber inv) +:+ ".pdf")
               := {| content := render row
                       (filter (fun i => ii_invoiceId i = Database.id inv)
                               (invoice_items (db w1)));
                     contentType := "application/pdf" |}]> (blobs w1)) w1), row.
  split; [|split; [apply lookup_insert_eq | split; [|done]]].
  - unfold processClient, tryCatch, bind, liftW at 1. rewrite Hcreate.
    unfold liftW, generateAndUpload, tryCatch, bind, generateInvoicePdf,
      uploadFile, updateInvoicePdfFilename, bind, get, failWhen, modify,
      throw, ret, onResult, modify.
    simpl. rewrite Hsel, Hjoin, Hrender, Hupload. simpl. rewrite Hpatch. done.
  - simpl. by rewrite Hid.
Qed.
(** A milestone whose project has no client: the failure is recorded and
    the loop body is left before the status UPDATE, so no table changes. *)
Lemma processMilestone_without_clients flt now m (r : Run) :
  clientsFail flt (id m) = None ->
  filter (fun pc : Z * Z => pc.1 = projectId m)
         (project_clients (db (world r))) = [] ->
  processMilestone tz invoiceNumberDefault render flt now m r
  = (Returns tt,
     {| world := world r;
        result := recordFailure (id m)
                    ("No clients found for project " +:+ num (projectId m))
                    (incProcessed (result r)) |}).
Proof.
  intros Hf Hnone.
  unfold processMilestone, tryCatch, bind, onResult, modify, liftW,
    getClientsByProjectId, bind, failWhen, get, ret.
  simpl. rewrite Hf. simpl. rewrite Hnone. simpl.
  by destruct r as [[] ?].
Qed.
End ServiceAgreement.

Section MilestoneClaims.
Import InvoiceService MilestoneInvoiceService Scenarios.

(** C2, counterexample.  A run over milestone 1 (clients 31 and 32) in which
    the file-name patch for client 31 fails: the run returns normally with
    two invoices created, nothing failed and no error entry, so the error
    did not propagate; the object uploaded for that invoice is still in the
    artifact store, so no compensating delete took place; the invoice row
    is there with an empty artifact file name. *)
Lemma batch_patch_failure_keeps_artifact :
  let out := processMilestoneInvoices 0 invoiceNumbers pdfBytes
               patchFailsOnce clock studio in
  out.1 = Returns {| processed := 1; created := 2; failed := 0; errors := [] |}
  ∧ is_Some (blobs out.2 !! "Invoices/7/INV-3.pdf")
  ∧ (clientId <$> invoices (db out.2) !! 3) = Some 31
  ∧ (invoiceFileName <$> invoices (db out.2) !! 3) = Some None.
Proof.
  vm_compute. repeat apply conj; try reflexivity. eexists. reflexivity.
Qed.

(** C2, amended.  In the batch's create-with-render flow for one client,
    when the invoice was inserted, rendered and uploaded and the final
    patch of the artifact file name fails, the failure is caught and
    dropped: the client's step completes without an exception, the invoice
    is counted as created and nothing is added to the failure count or the
    error list, the just-uploaded artifact stays in the artifact store
    under [Invoices/{owner}/{invoiceNumber}.pdf], and the invoice row is not
    rolled back: it remains, with an empty artifact file name. *)
Theorem failed_patch_in_batch_is_logged_only (tz : Z)
    (numbering : Z -> option string)
    (render : InvoiceRow -> list InvoiceItemRow -> Buffer)
    flt now m itemId c (r : Run) inv w1 err :
  createInvoice tz numbering (createFails flt (id m) c) None now
    (invoiceDataFor m itemId c) (world r) = (Returns inv, w1) ->
  renderFails flt (id m) c = None ->
  uploadFails flt (id m) c = None ->
  patchFails flt (id m) c = Some err ->
  exists w' row,
    processClient tz numbering render flt now m itemId c r
      = (Returns tt, {| world := w'; result := incCreated (result r) |})
    ∧ created (incCreated (result r)) = created (result r) + 1
    ∧ failed (incCreated (result r)) = failed (result r)
    ∧ errors (incCreated (result r)) = errors (result r)
    ∧ is_Some (blobs w' !! pathOf INVOICE None (userId m)
                              (template (invoiceNumber inv) +:+ ".pdf"))
    ∧ invoices (db w') !! Database.id inv = Some row
    ∧ invoiceFileName row = None.
Proof.
  intros Hcreate Hrender Hupload Hpatch.
  destruct (processClient_patch_failure tz numbering render flt now m itemId c
              r inv w1 err Hcreate Hrender Hupload Hpatch)
    as (w' & row & Hrun & Hblob & Hrow & Hfile).
  exists w', row. split; [done|]. split; [done|]. split; [done|].
  split; [done|]. split; [by rewrite Hblob|]. by split.
Qed.

Lemma failed_patch_in_batch_is_logged_only_witness :
  exists inv w1 w' row,
    createInvoice 0 invoiceNumbers None None clock
      (invoiceDataFor dueMilestone1 1 31) studio = (Returns inv, w1)
    ∧ processClient 0 invoiceNumbers pdfBytes patchFailsOnce clock
        dueMilestone1 1 31 studioRun
      = (Returns tt, {| world := w'; result := incCreated (result studioRun) |})
    ∧ is_Some (blobs w' !! pathOf INVOICE None 7
                              (template (invoiceNumber inv) +:+ ".pdf"))
    ∧ invoices (db w') !! Database.id inv = Some row
    ∧ invoiceFileName row = None.
Proof.
  destruct (createInvoice 0 invoiceNumbers None None clock
              (invoiceDataFor dueMilestone1 1 31) studio)
    as [[inv|e|] w1] eqn:E; [|vm_compute in E; discriminate..].
  destruct (failed_patch_in_batch_is_logged_only 0 invoiceNumbers pdfBytes
              patchFailsOnce clock dueMilestone1 1 31 studioRun inv w1 dbDown
              E eq_refl eq_refl eq_refl)
    as (w' & row & Hrun & _ & _ & _ & Hblob & Hrow & Hfile).
  exists inv, w1, w', row. repeat split; assumption.
Defined.

(** C3 (the code departs from the claim).  The claim: every milestone a run
    examines ends with status [created], also when its project has no
    client.  A run over milestones 1 and 2, both due today and pending,
    where the project of milestone 2 has no client: both are examined, the
    error for milestone 2 is recorded, milestone 1 ends [created], and
    milestone 2 is still [pending], because the [continue] of line 143
    leaves the loop body before the UPDATE of lines 264-269. *)
Theorem milestone_without_clients_stays_pending :
  let out := processMilestoneInvoices 0 invoiceNumbers pdfBytes noFaults
               clock office in
  map id (selectDueMilestones (db office) (todayOf 0 clock)) = [1; 2]
  ∧ out.1 = Returns {| processed := 2; created := 2; failed := 1;
                       errors := [(2, "No clients found for project 6")] |}
  ∧ (m_status <$> agreement_payment_milestones (db out.2) !! 1)
      = Some (Some "created")
  ∧ (m_status <$> agreement_payment_milestones (db out.2) !! 2)
      = Some (Some "pending").
Proof. vm_compute. repeat split; reflexivity. Qed.

(** C4 (the code departs from the claim).  The claim: after a first run, the
    query of a second run on the same day finds no milestone that is still
    pending.  After the first run over milestones 1 and 2, the query of the
    second run returns milestone 2 again, and the second run examines it
    again and records its error again: the milestone whose project has no
    client was never marked (the defect of C3). *)
Theorem second_run_finds_unmarked_milestone :
  let first := processMilestoneInvoices 0 invoiceNumbers pdfBytes noFaults
                 clock office in
  let second := processMilestoneInvoices 0 invoiceNumbers pdfBytes noFaults
                  clock first.2 in
  map id (selectDueMilestones (db first.2) (todayOf 0 clock)) = [2]
  ∧ second.1 = Returns {| processed := 1; created := 0; failed := 1;
                          errors := [(2, "No clients found for project 6")] |}.
Proof. vm_compute. split; reflexivity. Qed.

(** C5, counterexample.  A run over milestone 1 in which the upload of the
    PDF fails for client 32: the failure is caught by the inner try of
    lines 207-238, which only logs it.  The run returns an empty error list
    and a failure count of zero, with both invoices counted as created. *)
Lemma upload_failure_leaves_no_error_entry :
  uploadFails uploadFailsOnce 1 32 = Some (Error "StoreUnavailable")
  ∧ (processMilestoneInvoices 0 invoiceNumbers pdfBytes uploadFailsOnce
       clock studio).1
    = Returns {| processed := 1; created := 2; failed := 0; errors := [] |}.
Proof. vm_compute. split; reflexivity. Qed.

(** C5, the renderer.  When the layout of the PDF fails for client 31 of
    milestone 1, the promise of generateInvoicePdf never settles (its catch
    block releases a client that line 603 already released): the await of
    line 209 never resumes, no catch block runs, and the run neither
    returns nor throws.  The invoice of client 31 is in the store (id 3),
    client 32 is never reached (no invoice 4) and the milestone stays
    pending. *)
Lemma layout_failure_never_settles :
  let out := processMilestoneInvoices 0 invoiceNumbers pdfBytes
               renderFailsOnce clock studio in
  out.1 = Pending
  ∧ (clientId <$> invoices (db out.2) !! 3) = Some 31
  ∧ invoices (db out.2) !! 4 = None
  ∧ (m_status <$> agreement_payment_milestones (db out.2) !! 1)
      = Some (Some "pending").
Proof. vm_compute. repeat split; reflexivity. Qed.

(** C5, amended.  A failure of the artifact upload, or of the file-name
    patch that follows it, while producing a client's document is caught
    and only logged: it adds no entry to the returned error list, the
    invoice still counts as created, and it stops neither the remaining
    clients of the milestone nor the remaining milestones.  Stated as
    independence: two runs from the same store whose fault plans differ
    only in those two steps end in the same way (the same counts and error
    list, or the same exception) and leave the same relational records:
    all tables, the milestone statuses and the invoice rows included, up to
    the artifact file name and the updatedAt of the invoices. *)
Theorem upload_failures_do_not_change_the_run (tz : Z)
    (numbering : Z -> option string)
    (render : InvoiceRow -> list InvoiceItemRow -> Buffer)
    flt1 flt2 now (w : World) :
  sameButUploadSteps flt1 flt2 ->
  (processMilestoneInvoices tz numbering render flt1 now w).1
    = (processMilestoneInvoices tz numbering render flt2 now w).1
  ∧ records (processMilestoneInvoices tz numbering render flt1 now w).2
    = records (processMilestoneInvoices tz numbering render flt2 now w).2.
Proof. apply processMilestoneInvoices_upload_steps. Qed.

Lemma upload_failures_do_not_change_the_run_witness :
  (processMilestoneInvoices 0 invoiceNumbers pdfBytes uploadFailsOnce
     clock studio).1
    = (processMilestoneInvoices 0 invoiceNumbers pdfBytes noFaults
         clock studio).1
  ∧ records (processMilestoneInvoices 0 invoiceNumbers pdfBytes
               uploadFailsOnce clock studio).2
    = records (processMilestoneInvoices 0 invoiceNumbers pdfBytes
                 noFaults clock studio).2.
Proof.
  apply (upload_failures_do_not_change_the_run 0 invoiceNumbers pdfBytes
           uploadFailsOnce noFaults clock studio).
  repeat split; intros; reflexivity.
Defined.
End MilestoneClaims.

(** * Further properties of the services *)

(** ** Rules for pre- and postconditions *)

Section TripleRules.
Context {S : Type}.

Lemma triple_ret {A} (P : S -> Prop) (a : A) Q X :
  (forall s, P s -> Q a s) -> triple P (ret a) Q X.
Proof. intros H s Hs. by apply H. Qed.

Lemma triple_throw {A} (P : S -> Prop) e (Q : A -> S -> Prop) X :
  (forall s, P s -> X e s) -> triple P (throw e) Q X.
Proof. intros H s Hs. by apply H. Qed.

Lemma triple_bind {A B} (P : S -> Prop) (m : M S A) (k : A -> M S B)
    (Q : A -> S -> Prop) (R : B -> S -> Prop) X :
  triple P m Q X -> (forall a, triple (Q a) (k a) R X) ->
  triple P (bind m k) R X.
Proof.
  intros Hm Hk s Hs. unfold bind. specialize (Hm s Hs).
  destruct (m s) as [[a|e|] s1]; [by apply Hk | done..].
Qed.

Lemma triple_tryCatch {A} (P : S -> Prop) (m : M S A) (h : Exn -> M S A)
    (Q : A -> S -> Prop) (X' X : Exn -> S -> Prop) :
  triple P m Q X' -> (forall e, triple (X' e) (h e) Q X) ->
  triple P (tryCatch m h) Q X.
Proof.
  intros Hm Hh s Hs. unfold tryCatch. specialize (Hm s Hs).
  destruct (m s) as [[a|e|] s1]; [done | by apply Hh | done].
Qed.

Lemma triple_get_bind {B} (P : S -> Prop) (k : S -> M S B) R X :
  (forall s0, P s0 -> triple (fun s => s = s0) (k s0) R X) ->
  triple P (bind get k) R X.
Proof. intros Hk s Hs. unfold bind, get. by apply (Hk s Hs). Qed.

Lemma triple_modify (P : S -> Prop) (f : S -> S) (Q : unit -> S -> Prop) X :
  (forall s, P s -> Q tt (f s)) -> triple P (modify f) Q X.
Proof. intros H s Hs. by apply H. Qed.

Lemma triple_failWhen (P : S -> Prop) f (Q : unit -> S -> Prop)
    (X : Exn -> S -> Prop) :
  (forall s, P s -> Q tt s) -> (forall e s, f = Some e -> P s -> X e s) ->
  triple P (failWhen f) Q X.
Proof. intros HQ HX s Hs. destruct f; simpl; [by apply HX | by apply HQ]. Qed.

Lemma triple_guard (P : S -> Prop) (c : bool) e (Q : unit -> S -> Prop)
    (X : Exn -> S -> Prop) :
  (forall s, c = true -> P s -> Q tt s) -> (forall s, c = false -> P s -> X e s) ->
  triple P (if c then ret tt else throw e) Q X.
Proof. intros HQ HX s Hs. destruct c; simpl; [by apply HQ | by apply HX]. Qed.

Lemma triple_weaken {A} (P P' : S -> Prop) (m : M S A)
    (Q Q' : A -> S -> Prop) (X X' : Exn -> S -> Prop) :
  triple P' m Q' X' ->
  (forall s, P s -> P' s) -> (forall a s, Q' a s -> Q a s) ->
  (forall e s, X' e s -> X e s) ->
  triple P m Q X.
Proof.
  intros Hm HP HQ HX s Hs. specialize (Hm s (HP s Hs)).
  destruct (m s) as [[a|e|] s1]; auto.
Qed.

Lemma triple_forOf {A} (I : S -> Prop) (l : list A) (body : A -> M S unit) X :
  (forall x, x ∈ l -> triple I (body x) (fun _ => I) X) ->
  triple I (MilestoneInvoiceService.forOf l body) (fun _ => I) X.
Proof.
  induction l as [|x l IH]; intros Hb; simpl.
  - by apply triple_ret.
  - eapply triple_bind; [apply Hb; by left|]. intros ?.
    apply IH. intros y Hy. apply Hb. by right.
Qed.
End TripleRules.

Section InvoiceAtomicity.
Import InvoiceService.
Variable tz : Z.
Variable invoiceNumberDefault : Z -> option string.

Lemma insertItems_untouched (w : World) invoiceId uid l :
  triple (untouchedOutside w) (insertItems invoiceId uid l)
         (fun _ => untouchedOutside w) (fun _ => untouchedOutside w).
Proof.
  induction l as [|item rest IH]; simpl.
  - by apply triple_ret.
  - intros s Hs. unfold bind at 1, get.
    destruct (ownedBy _ _ _ _); [|done].
    unfold bind, modify.
    apply IH. destruct Hs as [Hb Hr]. split; simpl; done.
Qed.

Lemma rollback_after_throw {A} (w : World) text e :
  triple (untouchedOutside w) (@rollbackAndRethrow A w text e)
         (fun _ _ => False)
         (fun _ s' => s' = withDb (setInvoicesSeq (invoices_seq (db s'))) w).
Proof.
  intros s [Hb Hr]. unfold rollbackAndRethrow, bind, modify, throw.
  destruct (instanceofAppError e); simpl;
    unfold withDb, rollbackTo; simpl; rewrite Hb, Hr;
    by destruct w as [[] ?].
Qed.

Lemma createInvoice_throws f rf now d (w : World) e w' :
  createInvoice tz invoiceNumberDefault f rf now d w = (Throws e, w') ->
  w' = withDb (setInvoicesSeq (invoices_seq (db w'))) w.
Proof.
  intros H.
  assert (Ht : triple (fun s => s = w)
                 (createInvoice tz invoiceNumberDefault f rf now d)
                 (fun _ _ => True)
                 (fun _ s' => s' = withDb (setInvoicesSeq (invoices_seq (db s'))) w)).
  { unfold createInvoice. apply triple_get_bind. intros s0 ->.
    apply (triple_tryCatch _ _ _ _ (fun _ => untouchedOutside w));
      [|intros e0; eapply triple_weaken;
        [apply (rollback_after_throw w) | done | done | done]].
    apply (triple_bind _ _ _ (fun _ => untouchedOutside w)).
    { apply triple_failWhen; intros; subst; by split. }
    intros _. apply triple_get_bind. intros s1 Hs1.
    apply (triple_bind _ _ _ (fun _ => untouchedOutside w)).
    { apply triple_guard; intros; by subst. }
    intros _. apply (triple_bind _ _ _ (fun _ => untouchedOutside w)).
    { apply triple_guard; intros; by subst. }
    intros _. apply (triple_bind _ _ _ (fun _ => untouchedOutside w)).
    { destruct (truthyZ _); [apply triple_guard; intros; by subst|].
      by apply triple_ret. }
    intros _. apply (triple_bind _ _ _ (fun _ => untouchedOutside w)).
    { apply triple_modify. intros s [Hb Hr]. by split. }
    intros _. apply (triple_bind _ _ _ (fun _ => untouchedOutside w)).
    { apply insertItems_untouched. }
    intros _. apply (triple_bind _ _ _ (fun _ _ => True)).
    { intros s Hs.
      destruct (cd_paymentReminderRepetition d) as [rep|]; [|done].
      destruct (createPaymentReminders_writes rf
                  (Database.id (newInvoiceRow tz invoiceNumberDefault s1 now d))
                  (cd_dueDate d) rep s) as [rems ->]. done. }
    intros _. by apply triple_ret. }
  specialize (Ht w eq_refl). by rewrite H in Ht.
Qed.
End InvoiceAtomicity.

Section UpdateFacts.
Import InvoiceService.
Variable tz : Z.

Lemma updateInvoice_returns_full f f2 f3 now invoiceId uid u (w : World) inv w' :
  updateInvoice tz f f2 f3 now invoiceId uid u w = (Returns inv, w') ->
  exists existing rems,
    selectInvoice (db w) invoiceId uid = Some existing
    ∧ (forall st, ud_status u = Some st -> validStatus st = true)
    ∧ updateFields u ≠ []
    ∧ inv = mapInvoiceToResponse
              (statusAfterUpdate tz u now (updatedRow existing u now))
    ∧ w' = withDb (setPaymentReminders rems)
             (withDb (fun t => setInvoices
                        (<[invoiceId := statusAfterUpdate tz u now
                                          (updatedRow existing u now)]>
                           (invoices t)) t)
                (withDb (fun t => setPayments
                           (paymentsAfter existing u invoiceId uid (payments t)) t)
                   w)).
Proof.
  unfold updateInvoice. intros H.
  inv_bind H as before s0 H0. unfold get in H0. injection H0 as <- <-.
  apply tryCatch_rethrow_returns in H.
  inv_bind H as x1 s1 H1. apply failWhen_returns in H1 as [-> ->].
  inv_bind H as x2 s2 H2. unfold get in H2. injection H2 as <- <-.
  destruct (selectInvoice (db w) invoiceId uid) as [existing|] eqn:Hsel;
    [|done].
  exists existing.
  inv_bind H as x3 s3 H3.
  assert (Hs3 : s3 = withDb (fun t => setPayments
                  (paymentsAfter existing u invoiceId uid (payments t)) t) w).
  { unfold paymentsAfter, leavesPaid.
    destruct (_ && _).
    - unfold deletePaymentsByInvoiceId, modify in H3. by injection H3 as <-.
    - unfold ret in H3. injection H3 as <-. by destruct w as [[] ?]. }
  clear H3.
  inv_bind H as x4 s4 H4.
  assert (s4 = s3) as ->.
  { destruct (truthyZ _); [|by injection H4].
    by apply guard_returns in H4 as [_ ->]. }
  clear H4.
  inv_bind H as x5 s5 H5.
  assert (s5 = s3) as ->.
  { destruct (ud_projectId u) as [[p|]|]; try by injection H5.
    by apply guard_returns in H5 as [_ ->]. }
  clear H5.
  inv_bind H as x6 s6 H6.
  assert (Hvalid : s6 = s3 ∧ forall st, ud_status u = Some st -> validStatus st = true).
  { destruct (ud_status u) as [st|].
    - apply guard_returns in H6 as [Hv ->]. split; [done|]. by intros ? [= <-].
    - unfold ret in H6. injection H6 as <-. done. }
  destruct Hvalid as [-> Hvalid]. clear H6.
  inv_bind H as x7 s7 H7.
  assert (Hfields : s7 = s3 ∧ updateFields u ≠ []).
  { destruct (updateFields u) eqn:Hf; simpl in H7; [done|].
    unfold ret in H7. injection H7 as <-. done. }
  destruct Hfields as [-> Hfields]. clear H7.
  inv_bind H as x8 s8 H8. unfold modify in H8. injection H8 as <- <-.
  inv_bind H as final s9 H9. inv_bind H as x10 s10 H10.
  unfold ret in H. injection H as <- <-.
  assert (Hfinal :
    final = statusAfterUpdate tz u now (updatedRow existing u now)
    ∧ s9 = withDb (fun t => setInvoices
                     (<[invoiceId := final]> (invoices t)) t) s3).
  { unfold statusAfterUpdate.
    destruct (ud_dueDate u) as [due|], (ud_status u) as [st|];
      try (unfold ret in H9; injection H9 as <- <-; done).
    destruct (bool_decide _).
    - unfold ret in H9; injection H9 as <- <-; done.
    - inv_bind H9 as y1 t1 G1. unfold modify in G1. injection G1 as <- <-.
      unfold ret in H9. injection H9 as <- <-. split; [done|].
      unfold withDb. simpl. f_equal. unfold setInvoices. simpl. f_equal.
      apply map_eq. intros k. destruct (decide (k = invoiceId)) as [->|Hne].
      + by rewrite lookup_alter_eq, !lookup_insert_eq.
      + by rewrite lookup_alter_ne, !lookup_insert_ne. }
  destruct Hfinal as [-> Hs9].
  assert (Hrem : exists rems, s10 = withDb (setPaymentReminders rems) s9).
  { destruct (_ || _).
    - match type of H10 with
      | tryCatch (bind _ (fun _ =>
          match _ with
          | Some _ => createPaymentReminders _ _ ?due _
          | None => _
          end)) _ _ = _ =>
        destruct (reminders_step_writes f2 f3 invoiceId
                    (statusAfterUpdate tz u now (updatedRow existing u now))
                    due s9) as [rems Hrems]
      end.
      rewrite Hrems in H10. exists rems. by simplify_eq.
    - assert (s10 = s9) as -> by (unfold ret in H10; by injection H10).
      exists (payment_reminders (db s9)). clear. by destruct s9 as [[] ?]. }
  destruct Hrem as [rems ->]. exists rems.
  split; [done|]. split; [done|]. split; [done|]. split; [done|].
  by rewrite Hs9, Hs3.
Qed.
End UpdateFacts.

Section UpdateAtomicity.
Import InvoiceService.
Variable tz : Z.

Lemma rollback_restores {A} (w : World) text e :
  triple (outsideTransaction w) (@rollbackAndRethrow A w text e)
         (fun _ _ => False) (fun _ s' => s' = w).
Proof.
  intros s (Hb & Hr & Hq). unfold rollbackAndRethrow, bind, modify, throw.
  destruct (instanceofAppError e); simpl;
    unfold withDb, rollbackTo; simpl; rewrite Hb, Hr, Hq;
    by destruct w as [[] ?].
Qed.

Lemma updateInvoice_throws f f2 f3 now invoiceId uid u (w : World) e w' :
  updateInvoice tz f f2 f3 now invoiceId uid u w = (Throws e, w') -> w' = w.
Proof.
  intros H.
  assert (Ht : triple (fun s => s = w)
                 (updateInvoice tz f f2 f3 now invoiceId uid u)
                 (fun _ _ => True) (fun _ s' => s' = w)).
  { unfold updateInvoice. apply triple_get_bind. intros s0 ->.
    apply (triple_tryCatch _ _ _ _ (fun _ => outsideTransaction w));
      [|intros e0; eapply triple_weaken;
        [apply (rollback_restores w) | done | done | done]].
    apply (triple_bind _ _ _ (fun _ => outsideTransaction w)).
    { apply triple_failWhen; intros; subst; by repeat split. }
    intros _. apply triple_get_bind. intros s1 Hs1.
    destruct (selectInvoice (db s1) invoiceId uid) as [existing|];
      [|apply triple_throw; intros; by subst].
    apply (triple_bind _ _ _ (fun _ => outsideTransaction w)).
    { destruct (_ && _); [|apply triple_ret; intros; by subst].
      apply triple_modify. intros s ->. destruct Hs1 as (?&?&?). by repeat split. }
    intros _. apply (triple_bind _ _ _ (fun _ => outsideTransaction w)).
    { destruct (truthyZ _); [apply triple_guard; intros; done|].
      by apply triple_ret. }
    intros _. apply (triple_bind _ _ _ (fun _ => outsideTransaction w)).
    { destruct (ud_projectId u) as [[p|]|]; try by apply triple_ret.
      apply triple_guard; intros; done. }
    intros _. apply (triple_bind _ _ _ (fun _ => outsideTransaction w)).
    { destruct (ud_status u) as [st|]; [|by apply triple_ret].
      apply triple_guard; intros; done. }
    intros _. apply (triple_bind _ _ _ (fun _ => outsideTransaction w)).
    { destruct (length (updateFields u) =? 0)%nat;
        [by apply triple_throw | by apply triple_ret]. }
    intros _. apply (triple_bind _ _ _ (fun _ => outsideTransaction w)).
    { apply triple_modify. intros s (?&?&?). by repeat split. }
    intros _. apply (triple_bind _ _ _ (fun _ => outsideTransaction w)).
    { destruct (ud_dueDate u) as [due|], (ud_status u) as [st|];
        try by apply triple_ret.
      destruct (bool_decide _); [by apply triple_ret|].
      apply (triple_bind _ _ _ (fun _ => outsideTransaction w));
        [|intros _; by apply triple_ret].
      apply triple_modify. intros s (?&?&?). by repeat split. }
    intros final. apply (triple_bind _ _ _ (fun _ _ => True));
      [|intros _; by apply triple_ret].
    intros s Hs. destruct (_ || _); [|done].
    match goal with
    | |- context [createPaymentReminders _ _ ?due _] =>
      destruct (reminders_step_writes f2 f3 invoiceId final due s)
        as [rems ->]
    end. done. }
  specialize (Ht w eq_refl). by rewrite H in Ht.
Qed.
End UpdateAtomicity.

Section ListingFacts.
Import InvoiceService InvoiceListing.

Lemma newerFirst_spec a b :
  newerFirst a b
  <-> invoiceDate b < invoiceDate a
      ∨ (invoiceDate a = invoiceDate b ∧ createdAt b <= createdAt a).
Proof.
  unfold newerFirst.
  rewrite orb_True, andb_True, !Is_true_true, Z.ltb_lt, Z.eqb_eq, Z.leb_le.
  done.
Qed.

Lemma newerFirst_total : Total (fun a b => Is_true (newerFirst a b)).
Proof. intros a b. rewrite !newerFirst_spec. lia. Qed.

Lemma newerFirst_trans : Transitive (fun a b => Is_true (newerFirst a b)).
Proof. intros a b c. rewrite !newerFirst_spec. lia. Qed.

Lemma selectInvoicesOf_perm t uid :
  selectInvoicesOf t uid
  ≡ₚ filter (fun r => Database.userId r = uid) (map snd (map_to_list (invoices t))).
Proof. unfold selectInvoicesOf. apply merge_sort_Permutation. Qed.

Lemma selectInvoicesOf_elem t uid r :
  r ∈ selectInvoicesOf t uid
  <-> (exists k, invoices t !! k = Some r) ∧ Database.userId r = uid.
Proof.
  rewrite selectInvoicesOf_perm, list_elem_of_filter, list_elem_of_fmap.
  split.
  - intros [Hu ([k r'] & -> & Hin)]. apply elem_of_map_to_list in Hin. eauto.
  - intros [[k Hk] Hu]. split; [done|]. exists (k, r). split; [done|].
    by apply elem_of_map_to_list.
Qed.

Lemma selectInvoicesOf_sorted t uid :
  StronglySorted (fun a b => Is_true (newerFirst a b)) (selectInvoicesOf t uid).
Proof.
  unfold selectInvoicesOf.
  apply StronglySorted_merge_sort;
    [apply newerFirst_trans | apply newerFirst_total].
Qed.
End ListingFacts.

Section MoreInvoiceFacts.
Import InvoiceService InvoiceListing Scenarios.
Variable tz : Z.
Variable invoiceNumberDefault : Z -> option string.

Lemma deleteInvoice_found bf invoiceId uid (w : World) r :
  selectInvoice (db w) invoiceId uid = Some r ->
  deleteInvoice None bf invoiceId uid w
  = (Returns tt,
     {| db := setInvoiceItems
                (filter (fun i => ii_invoiceId i ≠ invoiceId)
                        (invoice_items (db w)))
                (setInvoices (delete invoiceId (invoices (db w))) (db w));
        blobs := if truthy (invoiceFileName r)
                 then match bf with
                      | None => delete ("Invoices/" +:+ num uid +:+ "/"
                                          +:+ orElse (invoiceFileName r) "")
                                       (blobs w)
                      | Some _ => blobs w
                      end
                 else blobs w |}).
Proof.
  intros Hsel. unfold deleteInvoice, tryCatch, bind, failWhen, get, modify,
    deleteFile, bind, failWhen, modify, ret, throw. simpl.
  rewrite Hsel. simpl.
  destruct (truthy (invoiceFileName r)); [|done].
  destruct bf; done.
Qed.

Lemma getInvoiceById_found invoiceId uid (w : World) r :
  selectInvoice (db w) invoiceId uid = Some r ->
  getInvoiceById None invoiceId uid w = (Returns (mapInvoiceToResponse r), w).
Proof.
  intros H. unfold getInvoiceById, tryCatch, bind, failWhen, get, ret.
  simpl. by rewrite H.
Qed.

Lemma selectInvoice_insert (t : Tables) invoiceId uid r :
  Database.userId r = uid ->
  selectInvoice (setInvoices (<[invoiceId := r]> (invoices t)) t) invoiceId uid
  = Some r.
Proof.
  intros H. unfold selectInvoice. simpl. rewrite lookup_insert_eq.
  by rewrite decide_True.
Qed.

Lemma selectInvoice_owner (t : Tables) invoiceId uid r :
  selectInvoice t invoiceId uid = Some r -> Database.userId r = uid.
Proof.
  unfold selectInvoice. destruct (invoices t !! invoiceId); [|done].
  destruct (decide _); by intros; simplify_eq.
Qed.

Lemma updateInvoicePdfFilename_found now invoiceId uid fileName (w : World) r :
  selectInvoice (db w) invoiceId uid = Some r ->
  updateInvoicePdfFilename None now invoiceId uid fileName w
  = (Returns tt,
     withDb (fun t => setInvoices
               (<[invoiceId := withFileName fileName now r]> (invoices t)) t) w).
Proof.
  intros H. unfold updateInvoicePdfFilename, bind, failWhen, get, modify, ret.
  simpl. by rewrite H.
Qed.

Lemma updateInvoicePdfFilename_missing now invoiceId uid fileName (w : World) :
  selectInvoice (db w) invoiceId uid = None ->
  updateInvoicePdfFilename None now invoiceId uid fileName w
  = (Throws notFound, w).
Proof.
  intros H. unfold updateInvoicePdfFilename, bind, failWhen, get, modify, ret.
  simpl. by rewrite H.
Qed.
End MoreInvoiceFacts.

Ltac rem_crush :=
  repeat match goal with
  | w : World |- _ => destruct w as [[] ?]
  end;
  unfold sameButReminders, withDb, setInvoices, setInvoicesSeq,
    setInvoiceItems, setPayments, setPaymentReminders, setItems,
    setMilestones, rollbackTo in *;
  simpl in *;
  repeat match goal with
  | H : Build_World _ _ = Build_World _ _ |- _ =>
    injection H; clear H; intros; subst
  | H : Build_Tables _ _ _ _ _ _ _ _ _ _ _ _ _ _ = _ |- _ =>
    injection H; clear H; intros; subst
  end;
  repeat (first [done | f_equal]).

Section ReminderIndependence.
Import InvoiceService.
Variable tz : Z.

Lemma sameButReminders_refl w : sameButReminders w w.
Proof. done. Qed.

Lemma sameButReminders_db (w1 w2 : World) :
  sameButReminders w1 w2 ->
  invoices (db w1) = invoices (db w2)
  ∧ master_clients (db w1) = master_clients (db w2)
  ∧ projects (db w1) = projects (db w2).
Proof. intros H. rem_crush. Qed.

Lemma agree_reminders_step f2 f3 g2 g3 invoiceId r due :
  agree sameButReminders
    (tryCatch
       (deletePaymentRemindersByInvoiceId f2 invoiceId ;;;
        match paymentReminderRepetition r with
        | Some repetition => createPaymentReminders f3 invoiceId due repetition
        | None => ret tt
        end)
       (fun _ => ret tt))
    (tryCatch
       (deletePaymentRemindersByInvoiceId g2 invoiceId ;;;
        match paymentReminderRepetition r with
        | Some repetition => createPaymentReminders g3 invoiceId due repetition
        | None => ret tt
        end)
       (fun _ => ret tt)).
Proof.
  intros s1 s2 H.
  destruct (reminders_step_writes f2 f3 invoiceId r due s1) as [r1 ->].
  destruct (reminders_step_writes g2 g3 invoiceId r due s2) as [r2 ->].
  split; [done|]. simpl. rem_crush.
Qed.

Lemma updateInvoice_reminder_faults f f2 f3 g2 g3 now invoiceId uid u :
  agree sameButReminders (updateInvoice tz f f2 f3 now invoiceId uid u)
                         (updateInvoice tz f g2 g3 now invoiceId uid u).
Proof.
  unfold updateInvoice.
  apply agree_get. intros b1 b2 Hb.
  apply agree_tryCatch.
  2:{ intros e. unfold rollbackAndRethrow. apply agree_bind.
      - apply agree_modify. intros s1 s2 H. rem_crush.
      - intros _. destruct (instanceofAppError e); apply agree_throw. }
  apply agree_bind; [apply agree_failWhen|]. intros _.
  apply agree_get. intros a1 a2 Ha.
  destruct (sameButReminders_db _ _ Ha) as (Hi & -> & ->).
  unfold selectInvoice. rewrite Hi.
  destruct (invoices (db a2) !! invoiceId) as [r|]; [|apply agree_throw].
  destruct (decide _); [|apply agree_throw].
  apply agree_bind.
  { destruct (_ && _); [|apply agree_ret].
    apply agree_modify. clear. intros s1 s2 H. rem_crush. }
  intros _. apply agree_bind.
  { destruct (truthyZ _); [apply agree_guard | apply agree_ret]. }
  intros _. apply agree_bind.
  { destruct (ud_projectId u) as [[p|]|]; try apply agree_ret.
    apply agree_guard. }
  intros _. apply agree_bind.
  { destruct (ud_status u); [apply agree_guard | apply agree_ret]. }
  intros _. apply agree_bind.
  { destruct (length _ =? 0)%nat; [apply agree_throw | apply agree_ret]. }
  intros _. apply agree_bind.
  { apply agree_modify. clear. intros s1 s2 H. rem_crush. }
  intros _. apply agree_bind.
  { destruct (ud_dueDate u), (ud_status u); try apply agree_ret.
    destruct (bool_decide _); [apply agree_ret|].
    apply agree_bind; [|intros _; apply agree_ret].
    apply agree_modify. clear. intros s1 s2 H. rem_crush. }
  intros final. apply agree_bind; [|intros _; apply agree_ret].
  destruct (_ || _); [|apply agree_ret].
  apply agree_reminders_step.
Qed.
End ReminderIndependence.

(** ** Milestone batch: items, the due query and the counters *)

Section ItemFacts.
Import InvoiceService MilestoneInvoiceService.

Lemma rowsById_elem {R} (t : gmap Z R) k r :
  (k, r) ∈ rowsById t <-> t !! k = Some r.
Proof.
  unfold rowsById. rewrite merge_sort_Permutation. apply elem_of_map_to_list.
Qed.

Lemma getOrCreateItemByName_existing uid itemName (w : World) k it :
  find (sameName itemName)
       (filter (fun i : Z * ItemRow => i_userId i.2 = uid) (rowsById (items (db w))))
    = Some (k, it) ->
  getOrCreateItemByName None uid itemName w = (Returns k, w).
Proof.
  intros H. unfold getOrCreateItemByName, tryCatch, bind, getItemsByUserId,
    bind, failWhen, get, ret. simpl.
  unfold sameName in H. by rewrite H.
Qed.

Lemma getOrCreateItemByName_new uid itemName (w : World) :
  find (sameName itemName)
       (filter (fun i : Z * ItemRow => i_userId i.2 = uid) (rowsById (items (db w))))
    = None ->
  getOrCreateItemByName None uid itemName w
  = (Returns (items_seq (db w) + 1),
     withDb (fun t => setItems
               (<[items_seq t + 1 := {| i_userId := uid; i_name := itemName |}]>
                  (items t))
               (items_seq t + 1) t) w).
Proof.
  intros H. unfold getOrCreateItemByName, tryCatch, bind, getItemsByUserId,
    createItem, bind, failWhen, get, modify, ret. simpl.
  unfold sameName in H. by rewrite H.
Qed.

Lemma find_owned_match uid itemName (t : gmap Z ItemRow) k it :
  find (sameName itemName)
       (filter (fun i : Z * ItemRow => i_userId i.2 = uid) (rowsById t))
    = Some (k, it) ->
  t !! k = Some it ∧ i_userId it = uid
  ∧ toLowerCase (i_name it) = toLowerCase itemName.
Proof.
  intros H. apply find_some in H as [Hin Hm].
  apply list_elem_of_In, list_elem_of_filter in Hin as [Hu Hin].
  apply rowsById_elem in Hin. unfold sameName in Hm.
  apply String.eqb_eq in Hm. done.
Qed.

Lemma find_after_create uid itemName (t : gmap Z ItemRow) newId :
  find (sameName itemName)
       (filter (fun i : Z * ItemRow => i_userId i.2 = uid) (rowsById t)) = None ->
  find (sameName itemName)
       (filter (fun i : Z * ItemRow => i_userId i.2 = uid)
               (rowsById (<[newId := {| i_userId := uid; i_name := itemName |}]> t)))
    = Some (newId, {| i_userId := uid; i_name := itemName |}).
Proof.
  intros Hnone.
  set (new := {| i_userId := uid; i_name := itemName |}).
  destruct (find _ (filter _ (rowsById (<[newId:=new]> t)))) as [[k it]|] eqn:Hf.
  - pose proof Hf as Hf'. apply find_owned_match in Hf' as (Hl & Hu & Hn).
    destruct (decide (k = newId)) as [->|Hne].
    + rewrite lookup_insert_eq in Hl. by injection Hl as <-.
    + rewrite lookup_insert_ne in Hl by done.
      assert (Hin : In (k, it)
                (filter (fun i : Z * ItemRow => i_userId i.2 = uid) (rowsById t))).
      { apply list_elem_of_In, list_elem_of_filter. split; [done|].
        by apply rowsById_elem. }
      pose proof (find_none _ _ Hnone (k, it) Hin) as Hfalse.
      unfold sameName in Hfalse. simpl in Hfalse.
      rewrite Hn, String.eqb_refl in Hfalse. done.
  - assert (Hin : In (newId, new)
              (filter (fun i : Z * ItemRow => i_userId i.2 = uid)
                      (rowsById (<[newId:=new]> t)))).
    { apply list_elem_of_In, list_elem_of_filter. split; [done|].
      apply rowsById_elem. apply lookup_insert_eq. }
    pose proof (find_none _ _ Hf (newId, new) Hin) as Hfalse.
    unfold sameName in Hfalse. simpl in Hfalse.
    rewrite String.eqb_refl in Hfalse. done.
Qed.
End ItemFacts.

Section QueryFacts.
Import InvoiceService MilestoneInvoiceService.
Variable tz : Z.

Lemma selectDueMilestones_omap t today :
  selectDueMilestones t today
  = omap (fun kv : Z * MilestoneRow => dueRow t today kv.1 kv.2)
         (rowsById (agreement_payment_milestones t)).
Proof.
  unfold selectDueMilestones. apply list_omap_ext.
  apply Forall2_same_length_lookup. split; [done|].
  intros i [k m] y Hx Hy. by simplify_eq.
Qed.

Lemma dueRow_id t today k m d : dueRow t today k m = Some d -> id d = k.
Proof.
  unfold dueRow. intros H.
  destruct (agreement_payment_terms t !! _) as [term|]; [|done]. simpl in H.
  destruct (agreements t !! _) as [a|]; [|done]. simpl in H.
  destruct (_ && _); [|done]. by injection H as <-.
Qed.

Lemma dueRow_due t today k m d :
  dueRow t today k m = Some d ->
  m_milestoneDate m = today
  ∧ (m_status m = Some "pending" ∨ m_status m = None)
  ∧ status d = m_status m ∧ milestoneDate d = today.
Proof.
  unfold dueRow. intros H.
  destruct (agreement_payment_terms t !! _) as [term|]; [|done]. simpl in H.
  destruct (agreements t !! _) as [a|]; [|done]. simpl in H.
  destruct (_ && _) eqn:Hc; [|done]. injection H as <-. simpl.
  apply andb_true_iff in Hc as [Hd Hs]. apply bool_decide_eq_true in Hd.
  apply orb_true_iff in Hs. rewrite !bool_decide_eq_true in Hs. done.
Qed.

Lemma selectDueMilestones_elem t today d :
  d ∈ selectDueMilestones t today
  <-> exists m, agreement_payment_milestones t !! id d = Some m
                ∧ dueRow t today (id d) m = Some d.
Proof.
  rewrite selectDueMilestones_omap, list_elem_of_omap. split.
  - intros ([k m] & Hin & Hd). simpl in Hd.
    pose proof (dueRow_id _ _ _ _ _ Hd) as ->.
    apply rowsById_elem in Hin. eauto.
  - intros (m & Hl & Hd). exists (id d, m). split; [|done].
    by apply rowsById_elem.
Qed.

Lemma rowsById_sorted {R} (t : gmap Z R) :
  StronglySorted (fun a b : Z * R => a.1 < b.1) (rowsById t).
Proof.
  assert (Hs : StronglySorted (fun a b : Z * R => Is_true (a.1 <=? b.1))
                 (rowsById t)).
  { unfold rowsById. apply StronglySorted_merge_sort.
    - intros a b c. rewrite !Is_true_true, !Z.leb_le. lia.
    - intros a b. rewrite !Is_true_true, !Z.leb_le. lia. }
  assert (Hnd : NoDup (rowsById t).*1).
  { unfold rowsById. rewrite merge_sort_Permutation.
    apply NoDup_fst_map_to_list. }
  induction Hs as [|x l Hs IH Hall]; [constructor|].
  simpl in Hnd. apply NoDup_cons in Hnd as [Hx Hnd].
  constructor; [by apply IH|].
  apply Forall_forall. intros y Hy.
  rewrite Forall_forall in Hall. specialize (Hall y Hy).
  apply Is_true_true, Z.leb_le in Hall.
  assert (x.1 ≠ y.1).
  { intros Heq. apply Hx. rewrite Heq. by apply list_elem_of_fmap_2. }
  lia.
Qed.

Lemma selectDueMilestones_sorted t today :
  StronglySorted (fun a b => id a < id b) (selectDueMilestones t today).
Proof.
  rewrite selectDueMilestones_omap.
  pose proof (rowsById_sorted (agreement_payment_milestones t)) as Hs.
  induction Hs as [|[k m] l Hs IH Hall]; simpl; [constructor|].
  destruct (dueRow t today k m) as [d|] eqn:Hd; [|done].
  constructor; [done|].
  apply Forall_forall. intros y Hy.
  apply list_elem_of_omap in Hy as ([k' m'] & Hin & Hy). simpl in Hy.
  rewrite Forall_forall in Hall. specialize (Hall _ Hin). simpl in Hall.
  rewrite (dueRow_id _ _ _ _ _ Hd), (dueRow_id _ _ _ _ _ Hy). done.
Qed.
End QueryFacts.

Section Counters.
Import InvoiceService MilestoneInvoiceService.
Variable tz : Z.
Variable invoiceNumberDefault : Z -> option string.
Variable render : InvoiceRow -> list InvoiceItemRow -> Buffer.

Lemma triple_liftW_result {A} (P : ProcessMilestoneInvoicesResult -> Prop)
    (m : M World A) :
  triple (fun r => P (result r)) (liftW m)
         (fun _ r => P (result r)) (fun _ r => P (result r)).
Proof.
  intros r Hr. unfold liftW. by destruct (m (world r)) as [[a|e|] w'].
Qed.

Lemma liftW_counted {A} ids n (m : M World A) :
  triple (counted ids n) (liftW m)
         (fun _ => counted ids n) (fun _ => counted ids n).
Proof.
  apply (triple_liftW_result
           (fun x => processed x = n
                     ∧ failed x = Z.of_nat (length (errors x))
                     ∧ Forall (fun e : Z * string => e.1 ∈ ids) (errors x)
                     ∧ 0 <= created x)).
Qed.

Lemma recordFailure_counted ids n k text X :
  k ∈ ids ->
  triple (counted ids n) (onResult (recordFailure k text))
         (fun _ => counted ids n) X.
Proof.
  intros Hk. apply triple_modify. intros r (Hp & Hf & He & Hc).
  unfold counted. simpl. rewrite List.length_app. simpl.
  split; [done|]. split; [lia|]. split; [|done].
  apply Forall_app. split; [done|]. by constructor.
Qed.

Lemma incCreated_counted ids n X :
  triple (counted ids n) (onResult incCreated) (fun _ => counted ids n) X.
Proof.
  apply triple_modify. intros r (Hp & Hf & He & Hc).
  unfold counted. simpl. split; [done|]. split; [done|]. split; [done|]. lia.
Qed.

Lemma processClient_counted ids n flt now m itemId c X :
  id m ∈ ids ->
  triple (counted ids n)
         (processClient tz invoiceNumberDefault render flt now m itemId c)
         (fun _ => counted ids n) X.
Proof.
  intros Hm. unfold processClient.
  apply (triple_tryCatch _ _ _ _ (fun _ => counted ids n));
    [|intros e; by apply recordFailure_counted].
  apply (triple_bind _ _ _ (fun _ => counted ids n)); [apply liftW_counted|].
  intros inv.
  apply (triple_bind _ _ _ (fun _ => counted ids n)); [apply liftW_counted|].
  intros _. apply incCreated_counted.
Qed.

Lemma processMilestone_counted ids n flt now m :
  id m ∈ ids ->
  triple (counted ids n)
         (processMilestone tz invoiceNumberDefault render flt now m)
         (fun _ => counted ids (n + 1)) (fun _ _ => False).
Proof.
  intros Hm. unfold processMilestone.
  apply (triple_bind _ _ _ (fun _ => counted ids (n + 1))).
  { apply triple_modify. intros r (Hp & Hf & He & Hc).
    unfold counted. simpl. split; [lia|]. done. }
  intros _.
  apply (triple_tryCatch _ _ _ _ (fun _ => counted ids (n + 1)));
    [|intros e; by apply recordFailure_counted].
  apply (triple_bind _ _ _ (fun _ => counted ids (n + 1)));
    [apply liftW_counted|].
  intros clients.
  destruct (length clients =? 0)%nat; [by apply recordFailure_counted|].
  apply (triple_bind _ _ _ (fun _ => counted ids (n + 1))).
  { apply (triple_tryCatch _ _ _ _ (fun _ => counted ids (n + 1))).
    - apply (triple_bind _ _ _ (fun _ => counted ids (n + 1)));
        [apply liftW_counted|].
      intros itemId. by apply triple_ret.
    - intros e.
      apply (triple_bind _ _ _ (fun _ => counted ids (n + 1)));
        [by apply recordFailure_counted|].
      intros _. by apply triple_ret. }
  intros [itemId|]; [|by apply triple_ret].
  apply (triple_bind _ _ _ (fun _ => counted ids (n + 1))).
  - apply (triple_forOf (counted ids (n + 1))). intros c _.
    by apply processClient_counted.
  - intros _. apply liftW_counted.
Qed.

Lemma forOf_counted ids n flt now (l : list DueMilestone) :
  (forall m, m ∈ l -> id m ∈ ids) ->
  triple (counted ids n)
         (forOf l (processMilestone tz invoiceNumberDefault render flt now))
         (fun _ => counted ids (n + Z.of_nat (length l))) (fun _ _ => False).
Proof.
  revert n. induction l as [|m l IH]; intros n Hl; simpl.
  - apply triple_ret. intros r. by rewrite Z.add_0_r.
  - apply (triple_bind _ _ _ (fun _ => counted ids (n + 1))).
    + apply processMilestone_counted. apply Hl. by left.
    + intros _. eapply triple_weaken.
      * apply (IH (n + 1)). intros x Hx. apply Hl. by right.
      * done.
      * intros a r. by replace (n + 1 + Z.of_nat (length l))
                         with (n + Z.pos (Pos.of_succ_nat (length l))) by lia.
      * done.
Qed.

Lemma processMilestoneInvoices_counts flt now (w : World) res w' :
  processMilestoneInvoices tz invoiceNumberDefault render flt now w
    = (Returns res, w') ->
  let due := selectDueMilestones (db w) (todayOf tz now) in
  processed res = Z.of_nat (length due)
  ∧ failed res = Z.of_nat (length (errors res))
  ∧ Forall (fun e : Z * string => e.1 ∈ map id due) (errors res)
  ∧ 0 <= created res.
Proof.
  intros H. cbv zeta.
  set (due := selectDueMilestones (db w) (todayOf tz now)).
  set (start := {| world := w;
                   result := {| processed := 0; created := 0; failed := 0;
                                errors := [] |} |}).
  assert (Ht : triple (fun r => r = start)
    (tryCatch
       (failWhen (queryFails flt) ;;;
        r <- get ;;
        let milestones := selectDueMilestones (db (world r)) (todayOf tz now) in
        if (length milestones =? 0)%nat then ret (result r)
        else
          forOf milestones
            (processMilestone tz invoiceNumberDefault render flt now) ;;;
          r' <- get ;; ret (result r'))
       (fun error =>
          throw (AppError ("Failed to process milestone invoices: "
                             +:+ message error) 500)))
    (fun res _ => processed res = Z.of_nat (length due)
                  ∧ failed res = Z.of_nat (length (errors res))
                  ∧ Forall (fun e : Z * string => e.1 ∈ map id due) (errors res)
                  ∧ 0 <= created res)
    (fun _ _ => True)).
  { apply (triple_tryCatch _ _ _ _ (fun _ _ => True));
      [|intros e; by apply triple_throw].
    apply (triple_bind _ _ _ (fun _ r => r = start)).
    { apply triple_failWhen; done. }
    intros _. apply triple_get_bind. intros s0 ->. cbv zeta.
    change (selectDueMilestones (db (world start)) (todayOf tz now)) with due.
    destruct (length due =? 0)%nat eqn:Hlen.
    { apply triple_ret. intros s ->. simpl.
      apply Nat.eqb_eq in Hlen. rewrite Hlen. done. }
    apply (triple_bind _ _ _
             (fun _ => counted (map id due) (0 + Z.of_nat (length due)))).
    { eapply triple_weaken.
      - apply (forOf_counted (map id due) 0). intros m Hm.
        by apply list_elem_of_fmap_2.
      - intros s ->. unfold counted. simpl. done.
      - done.
      - intros e s []. }
    intros _. apply triple_get_bind. intros s1 Hs1.
    apply triple_ret. intros s ->. destruct Hs1 as (Hp & Hf & He & Hc).
    split; [lia|]. done. }
  unfold processMilestoneInvoices in H.
  destruct (connectFails flt) as [e0|]; [done|].
  rewrite bind_failWhen_None in H. fold start in H.
  specialize (Ht start eq_refl).
  match type of Ht with
  | match ?run with _ => _ end => destruct run as [[a|e|] r1]
  end; [|done..].
  by injection H as <- _.
Qed.
End Counters.

(** ** Milestone batch: marking *)

Section Marking.
Import InvoiceService MilestoneInvoiceService.
Variable tz : Z.
Variable invoiceNumberDefault : Z -> option string.
Variable render : InvoiceRow -> list InvoiceItemRow -> Buffer.













End Marking.

(** ** Invoice service *)

Lemma StronglySorted_weaken {A} (R R' : A -> A -> Prop) (l : list A) :
  (forall a b, R a b -> R' a b) -> StronglySorted R l -> StronglySorted R' l.
Proof.
  intros H Hs. induction Hs as [|x l Hs IH Hall]; constructor; [done|].
  eapply Forall_impl; [exact Hall|]. intros y. apply H.
Qed.

Section InvoiceExtras.
Import InvoiceService MilestoneInvoiceService InvoiceListing Scenarios MoreScenarios.
Variable tz : Z.
Variable invoiceNumberDefault : Z -> option string.

(** X1. Deleting an invoice of the caller removes its record and its
    items and nothing else from the invoice table, whether or not the
    removal of its PDF from the store succeeds; the invoice is then
    NotFound. *)
Theorem deleted_invoice_is_gone bf invoiceId uid (w : World) r :
  selectInvoice (db w) invoiceId uid = Some r ->
  exists w',
    deleteInvoice None bf invoiceId uid w = (Returns tt, w')
    ∧ invoices (db w') !! invoiceId = None
    ∧ (forall k, k ≠ invoiceId -> invoices (db w') !! k = invoices (db w) !! k)
    ∧ (forall i, i ∈ invoice_items (db w')
                 <-> i ∈ invoice_items (db w) ∧ ii_invoiceId i ≠ invoiceId)
    ∧ (is_Some bf -> blobs w' = blobs w)
    ∧ getInvoiceById None invoiceId uid w' = (Throws notFound, w').
Proof.
  intros Hsel. rewrite (deleteInvoice_found bf invoiceId uid w r Hsel).
  eexists. split; [reflexivity|]. simpl.
  split; [apply lookup_delete_eq|].
  split; [intros k Hk; by apply lookup_delete_ne|].
  split.
  { intros i. rewrite list_elem_of_filter. split; intros [H1 H2]; by split. }
  split.
  { intros [e ->]. by destruct (truthy _). }
  apply getInvoiceById_not_found. apply selectInvoice_missing. simpl.
  apply lookup_delete_eq.
Qed.

Lemma deleted_invoice_is_gone_witness :
  exists w',
    deleteInvoice None (Some storeDown) 1 7 office = (Returns tt, w')
    ∧ invoices (db w') !! 1 = None
    ∧ blobs w' = blobs office
    ∧ getInvoiceById None 1 7 w' = (Throws notFound, w').
Proof.
  destruct (deleted_invoice_is_gone (Some storeDown) 1 7 office paidInvoice)
    as (w' & H1 & H2 & _ & _ & H5 & H6); [reflexivity|].
  exists w'. split; [exact H1|]. split; [exact H2|].
  split; [apply H5; by eexists | exact H6].
Defined.

(** X2. An update that throws, because its first statement failed or at
    any of its checks, leaves the whole store as it was: the payments it
    had already deleted for a reopened invoice are back. *)
Theorem failed_update_changes_nothing f f2 f3 now invoiceId uid u (w : World) e w' :
  updateInvoice tz f f2 f3 now invoiceId uid u w = (Throws e, w') -> w' = w.
Proof. apply updateInvoice_throws. Qed.

(** X3. A creation that throws, because its first statement failed or at
    any of its checks (the check of an item included, after the invoice row
    was inserted), leaves no row behind: the store is as before except
    that the invoice id sequence may have advanced. *)
Theorem failed_create_leaves_no_rows f rf now d (w : World) e w' :
  createInvoice tz invoiceNumberDefault f rf now d w = (Throws e, w') ->
  w' = withDb (setInvoicesSeq (invoices_seq (db w'))) w.
Proof. apply createInvoice_throws. Qed.

(** X4. The invoice that a creation returns is what a fetch by its id and
    owner returns afterwards. *)
Theorem created_invoice_can_be_fetched f rf now d (w : World) inv w' :
  createInvoice tz invoiceNumberDefault f rf now d w = (Returns inv, w') ->
  Database.id inv = invoices_seq (db w) + 1
  ∧ Database.userId inv = cd_userId d
  ∧ getInvoiceById None (Database.id inv) (Database.userId inv) w'
    = (Returns inv, w').
Proof.
  intros H. apply createInvoice_returns in H as (-> & (rows & rems & ->) & _).
  split; [done|]. split; [done|].
  apply getInvoiceById_found. simpl.
  unfold selectInvoice. simpl. rewrite lookup_insert_eq.
  by rewrite decide_True.
Qed.

(** X5. A successful update that takes a paid invoice back to pending or
    overdue deletes the payments recorded for that invoice and no other;
    any other successful update leaves the payments alone. *)
Theorem reopening_a_paid_invoice_deletes_its_payments
    f f2 f3 now invoiceId uid u (w : World) inv w' :
  updateInvoice tz f f2 f3 now invoiceId uid u w = (Returns inv, w') ->
  exists existing,
    selectInvoice (db w) invoiceId uid = Some existing
    ∧ (Database.status existing = Some "paid" ->
       ud_status u = Some "pending" ∨ ud_status u = Some "overdue" ->
       forall p, p ∈ payments (db w')
                 <-> p ∈ payments (db w)
                     ∧ ¬ (pay_invoiceId p = invoiceId ∧ pay_userId p = uid))
    ∧ (Database.status existing ≠ Some "paid"
       ∨ (ud_status u ≠ Some "pending" ∧ ud_status u ≠ Some "overdue") ->
       payments (db w') = payments (db w)).
Proof.
  intros H.
  apply updateInvoice_returns_full in H
    as (existing & rems & Hsel & _ & _ & _ & ->).
  exists existing. split; [done|]. simpl. unfold paymentsAfter, leavesPaid.
  split.
  - intros Hp Hs p. rewrite bool_decide_eq_true_2 by done.
    destruct Hs as [Hs|Hs]; rewrite Hs; simpl.
    + rewrite list_elem_of_filter. split; intros [H1 H2]; by split.
    + rewrite list_elem_of_filter. split; intros [H1 H2]; by split.
  - intros [Hp|[Hs1 Hs2]].
    + by rewrite bool_decide_eq_false_2.
    + rewrite (bool_decide_eq_false_2 (ud_status u = Some "pending")) by done.
      rewrite (bool_decide_eq_false_2 (ud_status u = Some "overdue")) by done.
      by rewrite andb_false_r.
Qed.

(** X6. Recording the PDF file name of an invoice of the caller changes
    that invoice only, and a fetch then shows the name; for an invoice
    that is missing or someone else's it is NotFound and writes nothing. *)
Theorem patched_file_name_is_served now invoiceId uid fileName (w : World) :
  match selectInvoice (db w) invoiceId uid with
  | Some r =>
    exists w' inv,
      updateInvoicePdfFilename None now invoiceId uid fileName w
        = (Returns tt, w')
      ∧ getInvoiceById None invoiceId uid w' = (Returns inv, w')
      ∧ invoiceFileName inv = Some fileName
      ∧ (forall k, k ≠ invoiceId ->
                   invoices (db w') !! k = invoices (db w) !! k)
      ∧ blobs w' = blobs w
  | None =>
    updateInvoicePdfFilename None now invoiceId uid fileName w
      = (Throws notFound, w)
  end.
Proof.
  destruct (selectInvoice (db w) invoiceId uid) as [r|] eqn:Hsel.
  - rewrite (updateInvoicePdfFilename_found now invoiceId uid fileName w r Hsel).
    eexists. eexists. split; [reflexivity|].
    split.
    { apply getInvoiceById_found. unfold selectInvoice. simpl.
      rewrite lookup_insert_eq. rewrite decide_True; [done|].
      simpl. by apply selectInvoice_owner in Hsel. }
    split; [done|]. split; [|done].
    intros k Hk. simpl. by rewrite lookup_insert_ne.
  - by apply updateInvoicePdfFilename_missing.
Qed.

(** X7. The listing returns exactly the caller's invoices, each once,
    newest invoice date first and, for equal dates, newest record first; it
    writes nothing, and any failure of the query becomes a 500. *)
Theorem listing_is_the_callers_invoices_newest_first uid (w : World) :
  (exists rows,
     getInvoicesByUserId None uid w
       = (Returns (map mapInvoiceToResponse rows), w)
     ∧ rows ≡ₚ filter (fun r => Database.userId r = uid)
                      (map snd (map_to_list (invoices (db w))))
     ∧ (forall r, r ∈ rows
                  <-> (exists k, invoices (db w) !! k = Some r)
                      ∧ Database.userId r = uid)
     ∧ StronglySorted
         (fun a b => invoiceDate b < invoiceDate a
                     ∨ (invoiceDate a = invoiceDate b
                        ∧ createdAt b <= createdAt a)) rows)
  ∧ forall e, getInvoicesByUserId (Some e) uid w
              = (Throws (AppError "Failed to fetch invoices" 500), w).
Proof.
  split; [|done].
  exists (selectInvoicesOf (db w) uid). split; [done|].
  split; [apply selectInvoicesOf_perm|].
  split; [apply selectInvoicesOf_elem|].
  eapply StronglySorted_weaken; [|apply selectInvoicesOf_sorted].
  intros a b Hab. by apply newerFirst_spec.
Qed.

(** X8. Whether the reminder service fails during an update makes no
    difference to the update: same outcome, and the same store up to the
    reminder table. *)
Theorem reminder_failures_do_not_change_an_update
    f f2 f3 g2 g3 now invoiceId uid u (w : World) :
  (updateInvoice tz f f2 f3 now invoiceId uid u w).1
  = (updateInvoice tz f g2 g3 now invoiceId uid u w).1
  ∧ sameButReminders (updateInvoice tz f f2 f3 now invoiceId uid u w).2
                     (updateInvoice tz f g2 g3 now invoiceId uid u w).2.
Proof.
  apply (updateInvoice_reminder_faults tz f f2 f3 g2 g3 now invoiceId uid u w w).
  apply sameButReminders_refl.
Qed.
End InvoiceExtras.

Section InvoiceExtrasWitnesses.
Import InvoiceService MilestoneInvoiceService InvoiceListing Scenarios MoreScenarios.

Lemma failed_update_changes_nothing_witness :
  exists e,
    updateInvoice 0 None None None clock 1 7 reopenForUnknownClient office
    = (Throws e, office).
Proof.
  destruct (updateInvoice 0 None None None clock 1 7 reopenForUnknownClient
              office) as [[inv|e|] w'] eqn:E;
      [vm_compute in E; discriminate| |vm_compute in E; discriminate].
  exists e.
  by rewrite (failed_update_changes_nothing 0 _ _ _ _ _ _ _ _ _ _ E).
Defined.

Lemma failed_create_leaves_no_rows_witness :
  exists e w',
    createInvoice 0 invoiceNumbers None None clock invoiceWithUnknownItem office
    = (Throws e, w')
    ∧ w' = withDb (setInvoicesSeq (invoices_seq (db w'))) office.
Proof.
  destruct (createInvoice 0 invoiceNumbers None None clock
              invoiceWithUnknownItem office)
    as [[inv|e|] w'] eqn:E;
      [vm_compute in E; discriminate| |vm_compute in E; discriminate].
  exists e, w'. split; [reflexivity|].
  exact (failed_create_leaves_no_rows 0 invoiceNumbers _ _ _ _ _ _ _ E).
Defined.

Lemma created_invoice_can_be_fetched_witness :
  exists inv w',
    createInvoice 0 invoiceNumbers None None clock
      (invoiceDue (today * msPerDay)) office = (Returns inv, w')
    ∧ getInvoiceById None 3 7 w' = (Returns inv, w').
Proof.
  destruct (createInvoice 0 invoiceNumbers None None clock
              (invoiceDue (today * msPerDay)) office)
    as [[inv|e|] w'] eqn:E; [|vm_compute in E; discriminate..].
  exists inv, w'. split; [reflexivity|].
  destruct (created_invoice_can_be_fetched 0 invoiceNumbers _ _ _ _ _ _ _ E)
    as (Hid & Hu & Hget).
  rewrite Hid, Hu in Hget. exact Hget.
Defined.

Lemma reopening_a_paid_invoice_deletes_its_payments_witness :
  exists inv w',
    updateInvoice 0 None None None clock 1 7 reopen office = (Returns inv, w')
    ∧ forall p, p ∈ payments (db w')
                <-> p ∈ payments (db office)
                    ∧ ¬ (pay_invoiceId p = 1 ∧ pay_userId p = 7).
Proof.
  destruct (updateInvoice 0 None None None clock 1 7 reopen office)
    as [[inv|e|] w'] eqn:E; [|vm_compute in E; discriminate..].
  exists inv, w'. split; [reflexivity|].
  destruct (reopening_a_paid_invoice_deletes_its_payments 0 _ _ _ _ _ _ _ _ _ _ E)
    as (existing & Hsel & Hp & _).
  vm_compute in Hsel. injection Hsel as <-.
  apply Hp; [reflexivity | left; reflexivity].
Defined.
End InvoiceExtrasWitnesses.

(** ** Milestone batch *)

Section MilestoneExtraFacts.
Import InvoiceService MilestoneInvoiceService.

Lemma sameName_lower itemName other :
  toLowerCase other = toLowerCase itemName ->
  forall l : list (Z * ItemRow), find (sameName other) l = find (sameName itemName) l.
Proof.
  intros H l. induction l as [|x l IH]; simpl; [done|].
  unfold sameName at 1 3. rewrite H.
  by destruct (String.eqb _ _).
Qed.

Lemma dueRow_join t today k m d :
  dueRow t today k m = Some d ->
  exists term a,
    agreement_payment_terms t !! m_agreementPaymentTermId m = Some term
    ∧ agreements t !! t_agreementId term = Some a
    ∧ projectId d = a_projectId a ∧ userId d = a_userId a
    ∧ serviceType d = a_serviceType a ∧ amount d = m_amount m
    ∧ description d = m_description m.
Proof.
  unfold dueRow. intros H.
  destruct (agreement_payment_terms t !! _) as [term|] eqn:Ht; [|done].
  simpl in H.
  destruct (agreements t !! t_agreementId term) as [a|] eqn:Ha; [|done].
  simpl in H.
  destruct (_ && _); [|done]. injection H as <-. by exists term, a.
Qed.

Lemma dueRow_complete t today k m term a :
  agreement_payment_terms t !! m_agreementPaymentTermId m = Some term ->
  agreements t !! t_agreementId term = Some a ->
  m_milestoneDate m = today ->
  m_status m = Some "pending" ∨ m_status m = None ->
  is_Some (dueRow t today k m).
Proof.
  intros Ht Ha Hd Hs. unfold dueRow. rewrite Ht. simpl. rewrite Ha. simpl.
  rewrite bool_decide_eq_true_2 by done.
  destruct Hs as [Hs|Hs]; rewrite Hs; by eexists.
Qed.
End MilestoneExtraFacts.

Section MilestoneExtras.
Import InvoiceService MilestoneInvoiceService Scenarios MoreScenarios.
Variable tz : Z.
Variable invoiceNumberDefault : Z -> option string.
Variable render : InvoiceRow -> list InvoiceItemRow -> Buffer.

(** X9. Looking an item up by name succeeds whenever the item service
    does, and the id it returns is an item of that user whose name equals
    the requested one up to letter case; asking again, in any letter case,
    returns the same id and creates nothing. *)
Theorem item_lookup_ignores_case_and_reuses (w : World) uid itemName :
  exists k w',
    getOrCreateItemByName None uid itemName w = (Returns k, w')
    ∧ (exists it, items (db w') !! k = Some it ∧ i_userId it = uid
                  ∧ toLowerCase (i_name it) = toLowerCase itemName)
    ∧ (forall other, toLowerCase other = toLowerCase itemName ->
         getOrCreateItemByName None uid other w' = (Returns k, w')).
Proof.
  destruct (find (sameName itemName)
              (filter (fun i : Z * ItemRow => i_userId i.2 = uid)
                      (rowsById (items (db w))))) as [[k it]|] eqn:Hf.
  - exists k, w. split; [by eapply getOrCreateItemByName_existing|].
    split; [exists it; by apply find_owned_match in Hf|].
    intros other Ho. eapply getOrCreateItemByName_existing.
    rewrite (sameName_lower _ _ Ho). exact Hf.
  - rewrite (getOrCreateItemByName_new uid itemName w Hf).
    eexists. eexists. split; [reflexivity|]. simpl.
    split.
    { eexists. split; [apply lookup_insert_eq|]. done. }
    intros other Ho. eapply getOrCreateItemByName_existing. simpl.
    rewrite (sameName_lower _ _ Ho). by apply find_after_create.
Qed.

(** X10. The due-milestone query returns the milestones dated today whose
    status is pending or NULL and that have a payment term and an
    agreement, each with its agreement's project, owner and service type;
    it returns every such milestone, and in strictly increasing id order. *)
Theorem due_query_selects_pending_milestones_of_today (t : Tables) today :
  (forall d, d ∈ selectDueMilestones t today ->
     exists m term a,
       agreement_payment_milestones t !! id d = Some m
       ∧ agreement_payment_terms t !! m_agreementPaymentTermId m = Some term
       ∧ agreements t !! t_agreementId term = Some a
       ∧ m_milestoneDate m = today
       ∧ (m_status m = Some "pending" ∨ m_status m = None)
       ∧ projectId d = a_projectId a ∧ userId d = a_userId a
       ∧ serviceType d = a_serviceType a ∧ amount d = m_amount m)
  ∧ (forall k m term a,
       agreement_payment_milestones t !! k = Some m ->
       agreement_payment_terms t !! m_agreementPaymentTermId m = Some term ->
       agreements t !! t_agreementId term = Some a ->
       m_milestoneDate m = today ->
       m_status m = Some "pending" ∨ m_status m = None ->
       exists d, d ∈ selectDueMilestones t today ∧ id d = k)
  ∧ StronglySorted (fun a b => id a < id b) (selectDueMilestones t today).
Proof.
  split; [|split].
  - intros d Hd. apply selectDueMilestones_elem in Hd as (m & Hl & Hd).
    destruct (dueRow_join _ _ _ _ _ Hd) as (term & a & Ht & Ha & H1 & H2 & H3 & H4 & _).
    destruct (dueRow_due _ _ _ _ _ Hd) as (Hdate & Hs & _).
    exists m, term, a. done.
  - intros k m term a Hl Ht Ha Hd Hs.
    destruct (dueRow_complete t today k m term a Ht Ha Hd Hs) as [d Hrow].
    exists d. pose proof (dueRow_id _ _ _ _ _ Hrow) as Hid.
    split; [|done]. apply selectDueMilestones_elem. exists m.
    rewrite Hid. done.
  - apply selectDueMilestones_sorted.
Qed.

(** X11. In the result of a batch run, [processed] is the number of
    milestones the query returned, [failed] is the number of recorded
    errors, every error names one of those milestones, and [created] is
    not negative. *)
Theorem batch_counters_add_up flt now (w : World) res w' :
  processMilestoneInvoices tz invoiceNumberDefault render flt now w
    = (Returns res, w') ->
  processed res
    = Z.of_nat (length (selectDueMilestones (db w) (todayOf tz now)))
  ∧ failed res = Z.of_nat (length (errors res))
  ∧ Forall (fun e : Z * string =>
              e.1 ∈ map id (selectDueMilestones (db w) (todayOf tz now)))
           (errors res)
  ∧ 0 <= created res.
Proof. apply processMilestoneInvoices_counts. Qed.


End MilestoneExtras.

Section MilestoneExtrasWitnesses.
Import InvoiceService MilestoneInvoiceService Scenarios MoreScenarios.

Lemma batch_counters_add_up_witness :
  exists res w',
    processMilestoneInvoices 0 invoiceNumbers pdfBytes client31Fails clock office
      = (Returns res, w')
    ∧ processed res = 2 ∧ failed res = Z.of_nat (length (errors res)).
Proof.
  destruct (processMilestoneInvoices 0 invoiceNumbers pdfBytes client31Fails
              clock office) as [[res|e|] w'] eqn:E;
    [|vm_compute in E; discriminate..].
  exists res, w'. split; [reflexivity|].
  destruct (batch_counters_add_up 0 invoiceNumbers pdfBytes _ _ _ _ _ E)
    as (Hp & Hf & _).
  split; [exact Hp | exact Hf].
Defined.


End MilestoneExtrasWitnesses.

(** ** Expense routes: downloads *)

Section TrimFacts.

Lemma trimEnd_ink (s : string) c r :
  isWhiteSpace c = false -> trimEnd (s +:+ String c r) ≠ EmptyString.
Proof.
  intros Hc. induction s as [|a s IH]; simpl.
  - destruct (trimEnd r); [by rewrite Hc | done].
  - destruct (trimEnd (s +:+ String c r)); [done | done].
Qed.

Lemma trimStart_ink (s : string) c r :
  isWhiteSpace c = false ->
  exists p, trimStart (s +:+ String c r) = p +:+ String c r.
Proof.
  intros Hc. induction s as [|a s IH]; simpl.
  - rewrite Hc. by exists EmptyString.
  - destruct (isWhiteSpace a); [done|]. by exists (String a s).
Qed.

(** A string with a character that is not white space does not trim to the
    empty string. *)
Lemma trim_ink (s : string) c r :
  isWhiteSpace c = false -> trim (s +:+ String c r) ≠ EmptyString.
Proof.
  intros Hc. unfold trim.
  destruct (trimStart_ink s c r Hc) as [p ->]. by apply trimEnd_ink.
Qed.

Lemma substring_full (s : string) : String.substring 0 (String.length s) s = s.
Proof. induction s as [|c s IH]; simpl; [done | by rewrite IH]. Qed.

Lemma substring_split (s : string) (i k : nat) :
  (i + k = String.length s)%nat ->
  s = String.substring 0 i s +:+ String.substring i k s.
Proof.
  revert i k. induction s as [|c s IH]; intros i k H.
  - destruct i, k; simpl in *; done.
  - destruct i as [|i].
    + simpl in H. subst k.
      change (String.substring 0 0 (String c s)) with EmptyString.
      change (S (String.length s)) with (String.length (String c s)).
      by rewrite substring_full.
    + simpl in H. injection H as H.
      change (String.substring 0 (S i) (String c s))
        with (String c (String.substring 0 i s)).
      change (String.substring (S i) k (String c s))
        with (String.substring i k s).
      change (String c s
              = String c (String.substring 0 i s +:+ String.substring i k s)).
      f_equal. by apply IH.
Qed.

Lemma endsWith_split (s suffix : string) :
  endsWith s suffix = true -> exists p, s = p +:+ suffix.
Proof.
  unfold endsWith. intros H. apply andb_true_iff in H as [Hle Heq].
  apply Nat.leb_le in Hle. apply String.eqb_eq in Heq.
  exists (String.substring 0 (String.length s - String.length suffix) s).
  rewrite <- Heq at 2. apply substring_split. lia.
Qed.

Lemma notBlank_pdf (s : string) : notBlank (Some (s +:+ ".pdf")) = true.
Proof.
  unfold notBlank, truthy, orElse.
  assert (Hne : s +:+ ".pdf" ≠ EmptyString) by (by destruct s).
  apply String.eqb_neq in Hne. rewrite Hne. simpl.
  apply negb_true_iff, String.eqb_neq.
  by apply (trim_ink s "."%char "pdf").
Qed.
End TrimFacts.

Section DownloadFacts.
Import ExpenseRoutes ExpenseDownloads.
Variable extname : string -> string.
Variable encodeURIComponent : string -> string.
Variable missing : Exn.

Lemma pdfName_ends e expenseId : exists s, pdfName e expenseId = s +:+ ".pdf".
Proof.
  unfold pdfName.
  destruct (truthy (billNumber e) && endsWith (orElse (billNumber e) "") ".pdf")
    eqn:H.
  - apply andb_true_iff in H as [_ H]. by apply endsWith_split.
  - by eexists.
Qed.

Lemma downloadName_after_upload e expenseId :
  downloadName {| id := id e; userId := userId e; billNumber := billNumber e;
                  attachmentFileName := attachmentFileName e;
                  expenseFileName := Some (pdfName e expenseId) |} expenseId
  = pdfName e expenseId.
Proof.
  unfold downloadName. simpl.
  destruct (pdfName_ends e expenseId) as [s Hs]. rewrite Hs.
  rewrite notBlank_pdf. unfold orElse.
  assert (Hne : s +:+ ".pdf" ≠ EmptyString) by (by destruct s).
  apply String.eqb_neq in Hne. by rewrite Hne.
Qed.

Lemma attachmentName_truthy e expenseId f now :
  truthy (Some (attachmentName extname e expenseId f now)) = true
  ∧ orElse (Some (attachmentName extname e expenseId f now)) EmptyString
    = attachmentName extname e expenseId f now.
Proof.
  assert (Hne : attachmentName extname e expenseId f now ≠ EmptyString).
  { unfold attachmentName. by destruct (orElse (billNumber e) _). }
  apply String.eqb_neq in Hne. unfold truthy, orElse. by rewrite Hne.
Qed.

Lemma getPdf_found df req (w : World) uid expenseId e :
  user req = Some uid -> decodedId req = Some expenseId -> 0 < expenseId ->
  expenses w !! expenseId = Some e -> userId e = uid ->
  getPdf encodeURIComponent missing df req w
  = match df with
    | Some err => (Returns (Replied (Next err)), w)
    | None =>
      match blobs w !! ("Expense/Generated_pdfs/" +:+ num uid +:+ "/"
                          +:+ downloadName e expenseId) with
      | Some b =>
        (Returns (Sent (contentType b) (Z.of_nat (length (content b)))
                       (disposition encodeURIComponent
                          (downloadName e expenseId))
                       (content b)), w)
      | None => (Returns (Replied (Next missing)), w)
      end
    end.
Proof.
  intros Hu Hd Hpos Hl Ho. unfold getPdf, tryCatch, bind.
  rewrite Hu, Hd.
  destruct (Z.leb_spec expenseId 0) as [?|_]; [lia|].
  rewrite (getExpenseById_owned _ _ _ _ Hl Ho).
  unfold BlobDownload.downloadFile, bind, failWhen, get, ret, throw.
  destruct df as [err|]; [done|]. simpl.
  by destruct (blobs w !! _).
Qed.

Lemma getAttachment_found df req (w : World) uid expenseId e :
  user req = Some uid -> decodedId req = Some expenseId -> 0 < expenseId ->
  expenses w !! expenseId = Some e -> userId e = uid ->
  truthy (attachmentFileName e) = true ->
  getAttachment encodeURIComponent missing df req w
  = match df with
    | Some err => (Returns (Replied (Next err)), w)
    | None =>
      match blobs w !! ("Expense/Uploaded_Documents/" +:+ num uid +:+ "/"
                          +:+ orElse (attachmentFileName e) EmptyString) with
      | Some b =>
        (Returns (Sent (contentType b) (Z.of_nat (length (content b)))
                       (disposition encodeURIComponent
                          (orElse (attachmentFileName e) EmptyString))
                       (content b)), w)
      | None => (Returns (Replied (Next missing)), w)
      end
    end.
Proof.
  intros Hu Hd Hpos Hl Ho Ht. unfold getAttachment, tryCatch, bind.
  rewrite Hu, Hd.
  destruct (Z.leb_spec expenseId 0) as [?|_]; [lia|].
  rewrite (getExpenseById_owned _ _ _ _ Hl Ho). rewrite Ht. simpl.
  unfold BlobDownload.downloadFile, bind, failWhen, get, ret, throw.
  destruct df as [err|]; [done|]. simpl.
  by destruct (blobs w !! _).
Qed.

Lemma getExpenseById_hidden (w : World) expenseId uid :
  (forall e, expenses w !! expenseId = Some e -> userId e ≠ uid) ->
  getExpenseById expenseId uid w = (Throws (AppError "Expense not found" 404), w).
Proof.
  intros H. unfold getExpenseById, bind, get.
  destruct (expenses w !! expenseId) as [e|] eqn:Hl; [|done].
  rewrite decide_False; [done|]. by apply H.
Qed.

Lemma getExpenseById_returns (w : World) expenseId uid e w' :
  getExpenseById expenseId uid w = (Returns e, w') ->
  w' = w ∧ expenses w !! expenseId = Some e ∧ userId e = uid.
Proof.
  unfold getExpenseById, bind, get.
  destruct (expenses w !! expenseId) as [e0|] eqn:Hl; [|done].
  destruct (decide (userId e0 = uid)); [|done].
  by intros [= <- <-].
Qed.

(** The upload of the attachment route without faults. *)
Lemma postAttachment_blobs now req (w : World) uid expenseId f e :
  user req = Some uid -> decodedId req = Some expenseId -> 0 < expenseId ->
  file req = Some f ->
  expenses w !! expenseId = Some e -> userId e = uid ->
  let name := attachmentName extname e expenseId f now in
  let newPath := "Expense/Uploaded_Documents/" +:+ num uid +:+ "/" +:+ name in
  let oldPath := "Expense/Uploaded_Documents/" +:+ num uid +:+ "/"
                   +:+ orElse (attachmentFileName e) EmptyString in
  let stored := <[newPath := {| content := buffer f;
                                contentType := mimetype f |}]> (blobs w) in
  blobs (postAttachment extname noFaults now req w).2
  = if truthy (attachmentFileName e) then delete oldPath stored else stored.
Proof.
  intros Hu Hd Hpos Hf Hl Ho.
  unfold postAttachment, tryCatch, bind.
  rewrite Hu, Hd, Hf.
  destruct (Z.leb_spec expenseId 0) as [?|_]; [lia|].
  rewrite (getExpenseById_owned _ _ _ _ Hl Ho).
  unfold uploadFile, deleteFile, updateExpenseAttachmentFilename,
    bind, failWhen, modify, ret, throw. simpl.
  destruct (truthy (attachmentFileName e)); simpl;
    (rewrite (getExpenseById_owned _ expenseId uid e); [|done..]); simpl;
    done.
Qed.
End DownloadFacts.

Section DownloadExtras.
Import ExpenseRoutes ExpenseDownloads.
Variable extname : string -> string.
Variable encodeURIComponent : string -> string.
Variable missing : Exn.

(** X14. After a PDF upload that answered 200, the PDF download of the
    same user and expense sends exactly the uploaded bytes, with the
    uploaded content type, their length, and the stored file name in the
    disposition header. *)
Theorem uploaded_pdf_can_be_downloaded req req' (w : World) uid expenseId f e :
  user req = Some uid -> decodedId req = Some expenseId -> 0 < expenseId ->
  file req = Some f ->
  expenses w !! expenseId = Some e -> userId e = uid ->
  user req' = Some uid -> decodedId req' = Some expenseId ->
  let out := postPdf noFaults req w in
  out.1 = Returns (Json 200 true "Expense PDF uploaded successfully"
                     (Some (pdfName e expenseId)))
  ∧ getPdf encodeURIComponent missing None req' out.2
    = (Returns (Sent (mimetype f) (Z.of_nat (length (buffer f)))
                     (disposition encodeURIComponent (pdfName e expenseId))
                     (buffer f)), out.2).
Proof.
  intros Hu Hd Hpos Hf Hl Ho Hu' Hd'. cbv zeta.
  destruct (postPdf_success req w uid expenseId f e Hu Hd Hpos Hf Hl Ho)
    as (Hreply & Hblob & Hrow).
  split; [done|].
  rewrite (getPdf_found encodeURIComponent missing None req' _ uid expenseId
             _ Hu' Hd' Hpos Hrow Ho).
  rewrite downloadName_after_upload.
  change ("Expense/Generated_pdfs/" +:+ num uid +:+ "/" +:+ pdfName e expenseId)
    with (pathOf EXPENSE (Some "Generated_pdfs") uid (pdfName e expenseId)).
  by rewrite Hblob.
Qed.

(** X15. After an attachment upload that answered 200, the attachment
    download of the same user and expense sends exactly the uploaded bytes
    when the new file name differs from the one the expense had; when the
    two names are equal (same bill number, instant and extension) the
    handler has deleted the object it had just written, and the download
    finds nothing. *)
Theorem uploaded_attachment_can_be_downloaded
    now req req' (w : World) uid expenseId f e :
  user req = Some uid -> decodedId req = Some expenseId -> 0 < expenseId ->
  file req = Some f ->
  expenses w !! expenseId = Some e -> userId e = uid ->
  user req' = Some uid -> decodedId req' = Some expenseId ->
  let name := attachmentName extname e expenseId f now in
  let out := postAttachment extname noFaults now req w in
  out.1 = Returns (Json 200 true "Expense attachment uploaded successfully"
                     (Some name))
  ∧ getAttachment encodeURIComponent missing None req' out.2
    = if decide (truthy (attachmentFileName e) = true
                 ∧ attachmentFileName e = Some name)
      then (Returns (Replied (Next missing)), out.2)
      else (Returns (Sent (mimetype f) (Z.of_nat (length (buffer f)))
                          (disposition encodeURIComponent name)
                          (buffer f)), out.2).
Proof.
  intros Hu Hd Hpos Hf Hl Ho Hu' Hd'. cbv zeta.
  destruct (postAttachment_success extname now req w uid expenseId f e
              Hu Hd Hpos Hf Hl Ho) as (Hreply & Hrow).
  pose proof (postAttachment_blobs extname now req w uid expenseId f e
                Hu Hd Hpos Hf Hl Ho) as Hblobs. cbv zeta in Hblobs.
  split; [done|].
  destruct (attachmentName_truthy extname e expenseId f now) as [Ht Hor].
  rewrite (getAttachment_found encodeURIComponent missing None req' _ uid
             expenseId _ Hu' Hd' Hpos Hrow Ho Ht).
  cbn [attachmentFileName]. rewrite Hor, Hblobs.
  destruct (decide _) as [[Hold Heq]|Hne].
  - rewrite Hold, Heq, Hor. by rewrite lookup_delete_eq.
  - destruct (truthy (attachmentFileName e)) eqn:Hold.
    + rewrite lookup_delete_ne, lookup_insert_eq; [done|].
      intros Hp. apply Hne. split; [done|].
      apply (inj (String.app _)) in Hp.
      apply (inj (String.app _)) in Hp.
      apply (inj (String.app _)) in Hp.
      unfold truthy, orElse in *.
      destruct (attachmentFileName e) as [old|]; [|done].
      destruct (String.eqb old ""); [done|]. by rewrite Hp.
    + by rewrite lookup_insert_eq.
Qed.

(** X16. A download sends a file only to the owner of the expense, taken
    from that owner's folder of the store, and writes nothing; for an
    expense of another user the answer is the NotFound of a missing
    expense. *)
Theorem download_serves_only_the_owner df req (w : World) :
  (forall ct len disp body w',
     getPdf encodeURIComponent missing df req w
       = (Returns (Sent ct len disp body), w') ->
     w' = w
     ∧ exists uid expenseId e name,
         user req = Some uid ∧ decodedId req = Some expenseId
         ∧ expenses w !! expenseId = Some e ∧ userId e = uid
         ∧ blobs w !! ("Expense/Generated_pdfs/" +:+ num uid +:+ "/" +:+ name)
           = Some {| content := body; contentType := ct |})
  ∧ (forall ct len disp body w',
       getAttachment encodeURIComponent missing df req w
         = (Returns (Sent ct len disp body), w') ->
       w' = w
       ∧ exists uid expenseId e,
           user req = Some uid ∧ decodedId req = Some expenseId
           ∧ expenses w !! expenseId = Some e ∧ userId e = uid
           ∧ blobs w !! ("Expense/Uploaded_Documents/" +:+ num uid +:+ "/"
                           +:+ orElse (attachmentFileName e) EmptyString)
             = Some {| content := body; contentType := ct |})
  ∧ (forall uid expenseId,
       user req = Some uid -> decodedId req = Some expenseId ->
       0 < expenseId ->
       (forall e, expenses w !! expenseId = Some e -> userId e ≠ uid) ->
       getPdf encodeURIComponent missing df req w
         = (Returns (Replied (Next (AppError "Expense not found" 404))), w)
       ∧ getAttachment encodeURIComponent missing df req w
         = (Returns (Replied (Next (AppError "Expense not found" 404))), w)).
Proof.
  split; [|split].
  - intros ct len disp body w'. unfold getPdf, tryCatch, bind.
    destruct (user req) as [uid|]; [|done].
    destruct (decodedId req) as [expenseId|]; [|done].
    destruct (expenseId <=? 0); [done|].
    destruct (getExpenseById expenseId uid w) as [[e|err|] w1] eqn:Hget; [|done..].
    apply getExpenseById_returns in Hget as (-> & Hl & Ho).
    unfold BlobDownload.downloadFile, bind, failWhen, get, ret, throw.
    destruct df as [err|]; [done|]. simpl.
    destruct (blobs w !! _) as [[c t]|] eqn:Hb; [|done]. simpl.
    intros [= <- _ _ <- <-]. split; [done|].
    exists uid, expenseId, e, (downloadName e expenseId). done.
  - intros ct len disp body w'. unfold getAttachment, tryCatch, bind.
    destruct (user req) as [uid|]; [|done].
    destruct (decodedId req) as [expenseId|]; [|done].
    destruct (expenseId <=? 0); [done|].
    destruct (getExpenseById expenseId uid w) as [[e|err|] w1] eqn:Hget; [|done..].
    apply getExpenseById_returns in Hget as (-> & Hl & Ho).
    destruct (truthy (attachmentFileName e)); [|done]. simpl.
    unfold BlobDownload.downloadFile, bind, failWhen, get, ret, throw.
    destruct df as [err|]; [done|]. simpl.
    destruct (blobs w !! _) as [[c t]|] eqn:Hb; [|done]. simpl.
    intros [= <- _ _ <- <-]. split; [done|].
    exists uid, expenseId, e. done.
  - intros uid expenseId Hu Hd Hpos Hhidden.
    unfold getPdf, getAttachment, tryCatch, bind. rewrite Hu, Hd.
    destruct (Z.leb_spec expenseId 0) as [?|_]; [lia|].
    by rewrite (getExpenseById_hidden w expenseId uid Hhidden).
Qed.

(** X17. When the upload itself fails, either upload route passes the
    error on and has written nothing; when the removal of the old
    attachment fails, the attachment route passes the error on with the
    expense record unchanged and every object of the store still there. *)
Theorem failure_before_the_patch_keeps_the_record
    flt now req (w : World) uid expenseId f e err :
  user req = Some uid -> decodedId req = Some expenseId -> 0 < expenseId ->
  file req = Some f ->
  expenses w !! expenseId = Some e -> userId e = uid ->
  (uploadFails flt = Some err ->
   postAttachment extname flt now req w = (Returns (Next err), w)
   ∧ postPdf flt req w = (Returns (Next err), w))
  ∧ (uploadFails flt = None -> deleteOldFails flt = Some err ->
     truthy (attachmentFileName e) = true ->
     let out := postAttachment extname flt now req w in
     out.1 = Returns (Next err)
     ∧ expenses out.2 = expenses w
     ∧ (forall p, is_Some (blobs w !! p) -> is_Some (blobs out.2 !! p))
     ∧ (resolves w (attachmentPath e) = true ->
        resolves out.2 (attachmentPath e) = true)).
Proof.
  intros Hu Hd Hpos Hf Hl Ho. split.
  - intros Hup. unfold postAttachment, postPdf, tryCatch, bind.
    rewrite Hu, Hd, Hf.
    destruct (Z.leb_spec expenseId 0) as [?|_]; [lia|].
    rewrite (getExpenseById_owned _ _ _ _ Hl Ho).
    unfold uploadFile, bind, failWhen, throw. by rewrite Hup.
  - intros Hup Hdel Ht. cbv zeta.
    unfold postAttachment, tryCatch, bind.
    rewrite Hu, Hd, Hf.
    destruct (Z.leb_spec expenseId 0) as [?|_]; [lia|].
    rewrite (getExpenseById_owned _ _ _ _ Hl Ho).
    unfold uploadFile, deleteFile, bind, failWhen, modify, ret, throw.
    rewrite Hup, Hdel, Ht. simpl.
    assert (Hkeep : forall p k (b : Blob),
              is_Some (blobs w !! p) -> is_Some (<[k := b]> (blobs w) !! p)).
    { intros p k b Hp. apply lookup_insert_is_Some'. by right. }
    split; [done|]. split; [done|]. split; [by auto|].
    unfold resolves, attachmentPath. rewrite Ht. simpl.
    rewrite !bool_decide_eq_true. apply Hkeep.
Qed.
End DownloadExtras.

Section DownloadExtrasWitnesses.
Import ExpenseRoutes ExpenseDownloads Scenarios DownloadScenarios.

Lemma uploaded_pdf_can_be_downloaded_witness :
  getPdf plainName blobNotFound None downloadRequest
    (postPdf noFaults pdfRequest expenseWorld).2
  = (Returns (Sent "application/pdf" 1 (disposition plainName "B1.pdf")
                   newBytes),
     (postPdf noFaults pdfRequest expenseWorld).2).
Proof.
  exact (proj2 (uploaded_pdf_can_be_downloaded plainName blobNotFound
                  pdfRequest downloadRequest expenseWorld 7 1 pdfUpload
                  expense1 eq_refl eq_refl eq_refl eq_refl eq_refl eq_refl
                  eq_refl eq_refl)).
Defined.

Lemma uploaded_attachment_can_be_downloaded_witness :
  getAttachment plainName blobNotFound None downloadRequest
    (postAttachment extnameOf noFaults uploadInstant attachmentRequest
       expenseWorld).2
  = (Returns (Sent "image/png" 1
                   (disposition plainName
                      (attachmentName extnameOf expense1 1 pngUpload
                         uploadInstant))
                   newBytes),
     (postAttachment extnameOf noFaults uploadInstant attachmentRequest
        expenseWorld).2).
Proof.
  destruct (uploaded_attachment_can_be_downloaded extnameOf plainName
              blobNotFound uploadInstant attachmentRequest downloadRequest
              expenseWorld 7 1 pngUpload expense1
              eq_refl eq_refl eq_refl eq_refl eq_refl eq_refl eq_refl eq_refl)
    as [_ H].
  rewrite decide_False in H; [exact H|].
  intros [_ Heq]. vm_compute in Heq. discriminate.
Defined.

Lemma download_serves_only_the_owner_witness :
  getPdf plainName blobNotFound None foreignDownloadRequest expenseWorld
  = (Returns (Replied (Next (AppError "Expense not found" 404))), expenseWorld)
  ∧ getAttachment plainName blobNotFound None foreignDownloadRequest
      expenseWorld
    = (Returns (Replied (Next (AppError "Expense not found" 404))),
       expenseWorld).
Proof.
  apply (proj2 (proj2 (download_serves_only_the_owner plainName blobNotFound
                         None foreignDownloadRequest expenseWorld)) 8 1);
    [reflexivity | reflexivity | reflexivity |].
  intros e He. vm_compute in He. injection He as <-. simpl. lia.
Defined.

Lemma failure_before_the_patch_keeps_the_record_witness :
  postAttachment extnameOf uploadFailure uploadInstant pdfRequest
    expenseWorld = (Returns (Next dbDown), expenseWorld)
  ∧ postPdf uploadFailure pdfRequest expenseWorld
    = (Returns (Next dbDown), expenseWorld).
Proof.
  apply (proj1 (failure_before_the_patch_keeps_the_record extnameOf
                  uploadFailure uploadInstant pdfRequest expenseWorld
                  7 1 pdfUpload expense1 dbDown
                  eq_refl eq_refl eq_refl eq_refl eq_refl eq_refl)).
  reflexivity.
Defined.
End DownloadExtrasWitnesses.

(** ** Client portal: invoices *)

Section ClientInvoiceFacts.
Import InvoiceService InvoiceListing ClientInvoiceService.

Lemma selectClientInvoice_Some t invoiceId cid r :
  selectClientInvoice t invoiceId cid = Some r
  <-> invoices t !! invoiceId = Some r ∧ clientId r = cid.
Proof.
  unfold selectClientInvoice.
  destruct (invoices t !! invoiceId) as [r0|]; [|by split; [|intros []]].
  destruct (decide (clientId r0 = cid)) as [Hc|Hc]; split.
  - by intros [= ->].
  - by intros [[= ->] _].
  - done.
  - intros [[= ->] ?]. done.
Qed.

Lemma selectClientInvoice_None t invoiceId cid :
  selectClientInvoice t invoiceId cid = None
  <-> forall r, invoices t !! invoiceId = Some r -> clientId r ≠ cid.
Proof.
  unfold selectClientInvoice.
  destruct (invoices t !! invoiceId) as [r0|]; [|by split].
  destruct (decide (clientId r0 = cid)) as [Hc|Hc]; split.
  - done.
  - intros H. by destruct (H r0 eq_refl).
  - by intros _ r [= <-].
  - done.
Qed.

Lemma selectInvoicesOfClient_perm t cid :
  selectInvoicesOfClient t cid
  ≡ₚ filter (fun r => clientId r = cid) (map snd (map_to_list (invoices t))).
Proof. unfold selectInvoicesOfClient. apply merge_sort_Permutation. Qed.

Lemma selectInvoicesOfClient_elem t cid r :
  r ∈ selectInvoicesOfClient t cid
  <-> (exists k, invoices t !! k = Some r) ∧ clientId r = cid.
Proof.
  rewrite selectInvoicesOfClient_perm, list_elem_of_filter, list_elem_of_fmap.
  split.
  - intros [Hu ([k r'] & -> & Hin)]. apply elem_of_map_to_list in Hin. eauto.
  - intros [[k Hk] Hu]. split; [done|]. exists (k, r). split; [done|].
    by apply elem_of_map_to_list.
Qed.

Lemma selectInvoicesOfClient_sorted t cid :
  StronglySorted (fun a b => Is_true (newerFirst a b))
                 (selectInvoicesOfClient t cid).
Proof.
  unfold selectInvoicesOfClient.
  apply StronglySorted_merge_sort;
    [apply newerFirst_trans | apply newerFirst_total].
Qed.

Lemma getClientInvoiceById_run invoiceId cid (w : World) :
  getClientInvoiceById None invoiceId cid w
  = match selectClientInvoice (db w) invoiceId cid with
    | Some r => (Returns (mapInvoiceToResponse r), w)
    | None => (Throws accessDenied, w)
    end.
Proof.
  unfold getClientInvoiceById, tryCatch, bind, failWhen, get, ret. simpl.
  by destruct (selectClientInvoice _ _ _).
Qed.

Lemma getClientInvoiceItems_run invoiceId cid (w : World) :
  getClientInvoiceItems None invoiceId cid w
  = match selectClientInvoice (db w) invoiceId cid with
    | Some r => (Returns (selectItemsOfInvoice (db w) invoiceId), w)
    | None => (Throws accessDenied, w)
    end.
Proof.
  unfold getClientInvoiceItems, tryCatch, bind, failWhen, get, ret. simpl.
  by destruct (selectClientInvoice _ _ _).
Qed.

Lemma getClientInvoicePdf_hidden df missing invoiceId cid (w : World) :
  selectClientInvoice (db w) invoiceId cid = None ->
  getClientInvoicePdf None df missing invoiceId cid w
  = (Throws accessDenied, w).
Proof.
  intros H. unfold getClientInvoicePdf, tryCatch, bind, failWhen, get, ret.
  simpl. by rewrite H.
Qed.


Lemma pdfFileName_returns r (w : World) name w' :
  pdfFileName r w = (Returns name, w') -> w' = w.
Proof.
  unfold pdfFileName. destruct (notBlank _); [by intros [= _ <-]|].
  destruct (invoiceNumber r); [by intros [= _ <-] | done].
Qed.

Lemma getClientInvoicePdf_returns f df missing invoiceId cid (w : World) pdf w' :
  getClientInvoicePdf f df missing invoiceId cid w = (Returns pdf, w') ->
  w' = w
  ∧ exists r b,
      invoices (db w) !! invoiceId = Some r ∧ clientId r = cid
      ∧ blobs w !! ("Invoices/" +:+ num (userId r) +:+ "/" +:+ fileName pdf)
        = Some b
      ∧ buffer pdf = content b.
Proof.
  unfold getClientInvoicePdf, tryCatch, bind.
  destruct f as [e|]; simpl.
  { unfold rethrowOr, throw. by destruct (instanceofAppError e). }
  unfold get.
  destruct (selectClientInvoice (db w) invoiceId cid) as [r|] eqn:Hsel; [|done].
  apply selectClientInvoice_Some in Hsel as [Hl Hc].
  destruct (pdfFileName r w) as [[name|e|] w1] eqn:Hname.
  2:{ unfold rethrowOr, throw. by destruct (instanceofAppError e). }
  2:{ done. }
  apply pdfFileName_returns in Hname as ->.
  unfold BlobDownload.downloadFile, bind, failWhen, get, ret, throw.
  destruct df as [e|]; simpl.
  { unfold rethrowOr, throw. by destruct (instanceofAppError e). }
  destruct (blobs w !! _) as [b|] eqn:Hb; simpl.
  - intros [= <- <-]. split; [done|]. exists r, b. done.
  - unfold rethrowOr, throw. by destruct (instanceofAppError missing).
Qed.
End ClientInvoiceFacts.

Section ClientInvoiceExtras.
Import InvoiceService InvoiceListing ClientInvoiceService.

(** X18. The portal's listing returns exactly the invoices addressed to
    the client, each once, newest first, and writes nothing; for an
    unknown client it is NotFound. *)
Theorem client_listing_is_the_clients_invoices cid (w : World) :
  if bool_decide (is_Some (master_clients (db w) !! cid))
  then
    exists rows,
      getClientInvoices None cid w
        = (Returns (map mapInvoiceToResponse rows), w)
      ∧ rows ≡ₚ filter (fun r => clientId r = cid)
                       (map snd (map_to_list (invoices (db w))))
      ∧ (forall r, r ∈ rows
                   <-> (exists k, invoices (db w) !! k = Some r)
                       ∧ clientId r = cid)
      ∧ StronglySorted
          (fun a b => invoiceDate b < invoiceDate a
                      ∨ (invoiceDate a = invoiceDate b
                         ∧ createdAt b <= createdAt a)) rows
  else
    getClientInvoices None cid w = (Throws (AppError "Client not found" 404), w).
Proof.
  unfold getClientInvoices, tryCatch, bind, failWhen, get, ret. simpl.
  destruct (bool_decide _); [|done].
  exists (selectInvoicesOfClient (db w) cid). split; [done|].
  split; [apply selectInvoicesOfClient_perm|].
  split; [apply selectInvoicesOfClient_elem|].
  eapply StronglySorted_weaken; [|apply selectInvoicesOfClient_sorted].
  intros a b Hab. by apply newerFirst_spec.
Qed.

(** X19. For an invoice addressed to another client the portal answers,
    for the invoice, its items and its PDF alike, exactly as for an
    invoice that does not exist, and writes nothing. *)
Theorem foreign_invoice_is_hidden_from_a_client
    df missing invoiceId cid (w : World) :
  (forall r, invoices (db w) !! invoiceId = Some r -> clientId r ≠ cid) ->
  getClientInvoiceById None invoiceId cid w = (Throws accessDenied, w)
  ∧ getClientInvoiceItems None invoiceId cid w = (Throws accessDenied, w)
  ∧ getClientInvoicePdf None df missing invoiceId cid w
    = (Throws accessDenied, w).
Proof.
  intros H. apply selectClientInvoice_None in H.
  rewrite getClientInvoiceById_run, getClientInvoiceItems_run, H.
  split; [done|]. split; [done|]. by apply getClientInvoicePdf_hidden.
Qed.

(** X20. Whatever the portal returns for an invoice id belongs to the
    calling client: the invoice returned is addressed to it, the items are
    the items of that invoice with the names of their item records, and the
    PDF bytes are the object stored under the invoice owner's folder with
    the returned file name; none of the three writes. *)
Theorem client_answers_belong_to_the_client
    f df missing invoiceId cid (w : World) :
  (forall inv w',
     getClientInvoiceById f invoiceId cid w = (Returns inv, w') ->
     w' = w ∧ clientId inv = cid
     ∧ exists r, invoices (db w) !! invoiceId = Some r
                 ∧ inv = mapInvoiceToResponse r)
  ∧ (forall l w',
       getClientInvoiceItems f invoiceId cid w = (Returns l, w') ->
       w' = w
       ∧ (exists r, invoices (db w) !! invoiceId = Some r ∧ clientId r = cid)
       ∧ forall x, x ∈ l ->
           ClientInvoiceService.invoiceId x = invoiceId
           ∧ exists ii i,
               ii ∈ invoice_items (db w) ∧ ii_invoiceId ii = invoiceId
               ∧ items (db w) !! ii_itemsId ii = Some i
               ∧ ClientInvoiceService.itemsId x = ii_itemsId ii
               ∧ itemName x = i_name i)
  ∧ (forall pdf w',
       getClientInvoicePdf f df missing invoiceId cid w = (Returns pdf, w') ->
       w' = w
       ∧ exists r b,
           invoices (db w) !! invoiceId = Some r ∧ clientId r = cid
           ∧ blobs w !! ("Invoices/" +:+ num (userId r) +:+ "/"
                           +:+ fileName pdf) = Some b
           ∧ buffer pdf = content b).
Proof.
  split; [|split].
  - intros inv w'. unfold getClientInvoiceById, tryCatch, bind.
    destruct f as [e|]; simpl.
    { unfold rethrowOr, throw. by destruct (instanceofAppError e). }
    unfold get.
    destruct (selectClientInvoice (db w) invoiceId cid) as [r|] eqn:Hsel;
      [|done].
    apply selectClientInvoice_Some in Hsel as [Hl Hc].
    intros [= <- <-]. split; [done|]. simpl.
    split; [done|]. by exists r.
  - intros l w'. unfold getClientInvoiceItems, tryCatch, bind.
    destruct f as [e|]; simpl.
    { unfold rethrowOr, throw. by destruct (instanceofAppError e). }
    unfold get.
    destruct (selectClientInvoice (db w) invoiceId cid) as [r|] eqn:Hsel;
      [|done].
    apply selectClientInvoice_Some in Hsel as [Hl Hc].
    intros [= <- <-]. split; [done|]. split; [by exists r|].
    intros x Hx. unfold selectItemsOfInvoice in Hx.
    apply list_elem_of_omap in Hx as (ii & Hin & Hx).
    destruct (decide (ii_invoiceId ii = invoiceId)) as [Hii|]; [|done].
    destruct (items (db w) !! ii_itemsId ii) as [i|] eqn:Hi; [|done].
    simpl in Hx. injection Hx as <-. simpl. split; [done|].
    exists ii, i. done.
  - intros pdf w'. apply getClientInvoicePdf_returns.
Qed.
End ClientInvoiceExtras.

Section BatchToPortal.
Import InvoiceService MilestoneInvoiceService ClientInvoiceService.
Variable tz : Z.
Variable invoiceNumberDefault : Z -> option string.
Variable render : InvoiceRow -> list InvoiceItemRow -> Buffer.




End BatchToPortal.

Section ClientInvoiceExtrasWitnesses.
Import InvoiceService MilestoneInvoiceService ClientInvoiceService.
Import Scenarios DownloadScenarios.

Lemma foreign_invoice_is_hidden_from_a_client_witness :
  getClientInvoiceById None 1 32 office = (Throws accessDenied, office)
  ∧ getClientInvoiceItems None 1 32 office = (Throws accessDenied, office)
  ∧ getClientInvoicePdf None None blobNotFound 1 32 office
    = (Throws accessDenied, office).
Proof.
  apply (foreign_invoice_is_hidden_from_a_client None blobNotFound 1 32 office).
  intros r Hr. vm_compute in Hr. injection Hr as <-. simpl. lia.
Defined.

End ClientInvoiceExtrasWitnesses.

(** ** Client portal: accounts and one-time codes *)

Section SelectionFacts.
Import ClientAuthService.

Lemma latestUnused_Some l cid k r :
  latestUnused l cid = Some (k, r) ->
  unusedCode l cid k r
  ∧ forall k' r', unusedCode l cid k' r' -> created_at r' <= created_at r.
Proof.
  unfold latestUnused. intros H.
  set (R := fun a b : nat * OtpRow => created_at b.2 <=? created_at a.2) in *.
  set (L := filter _ (imap pair l)) in *.
  assert (Hs : StronglySorted (fun a b => Is_true (R a b)) (merge_sort R L)).
  { apply StronglySorted_merge_sort.
    - intros a b c. unfold R. rewrite !Is_true_true, !Z.leb_le. lia.
    - intros a b. unfold R. rewrite !Is_true_true, !Z.leb_le. lia. }
  assert (Hp : merge_sort R L ≡ₚ L) by apply merge_sort_Permutation.
  assert (HinL : forall k' r', (k', r') ∈ L <-> unusedCode l cid k' r').
  { intros k' r'. subst L. rewrite list_elem_of_filter, elem_of_lookup_imap.
    unfold unusedCode. simpl. split.
    - intros [[H1 H2] (i & y & [= -> ->] & Hl)]. split; [exact Hl|]. split; [exact H1 | exact H2].
    - intros (Hl & H1 & H2). split; [done|]. by exists k', r'. }
  change (head (merge_sort R L) = Some (k, r)) in H.
  destruct (merge_sort R L) as [|x rest] eqn:Hm; [done|].
  simpl in H. injection H as ->.
  split.
  - apply HinL. rewrite <- Hp. by left.
  - intros k' r' Hu. apply HinL in Hu. rewrite <- Hp in Hu.
    apply elem_of_cons in Hu as [[= -> ->]|Hin]; [lia|].
    apply StronglySorted_inv in Hs as [_ Hall].
    rewrite Forall_forall in Hall. specialize (Hall _ Hin).
    unfold R in Hall. simpl in Hall. apply Is_true_true, Z.leb_le in Hall.
    done.
Qed.

Lemma latestUnused_None l cid :
  latestUnused l cid = None -> forall k r, ¬ unusedCode l cid k r.
Proof.
  unfold latestUnused. intros H k r (Hl & Hc & Hu).
  set (R := fun a b : nat * OtpRow => created_at b.2 <=? created_at a.2) in *.
  set (L := filter _ (imap pair l)) in *.
  assert (Hin : (k, r) ∈ L).
  { subst L. rewrite list_elem_of_filter, elem_of_lookup_imap. split; [done|].
    by exists k, r. }
  rewrite <- (merge_sort_Permutation R L) in Hin.
  change (head (merge_sort R L) = None) in H.
  destruct (merge_sort R L); [by apply elem_of_nil in Hin | done].
Qed.

Lemma latestUnused_newest l cid k r :
  newestCode l cid k r -> latestUnused l cid = Some (k, r).
Proof.
  intros [Hu Hmax].
  destruct (latestUnused l cid) as [[k' r']|] eqn:H.
  - apply latestUnused_Some in H as [Hu' Hmax'].
    destruct (decide (k' = k)) as [->|Hne].
    + destruct Hu as (Hl & _), Hu' as (Hl' & _). by simplify_eq.
    + specialize (Hmax k' r' Hu' Hne). specialize (Hmax' k r Hu). lia.
  - by destruct (latestUnused_None l cid H k r).
Qed.

Lemma newestCode_attempt l cid k r :
  newestCode l cid k r ->
  newestCode (alter oneMoreAttempt k l) cid k (oneMoreAttempt r).
Proof.
  intros [(Hl & Hc & Hu) Hmax]. split.
  - split; [by rewrite list_lookup_alter_eq, Hl|]. done.
  - intros k' r' (Hl' & Hc' & Hu') Hne.
    rewrite list_lookup_alter_ne in Hl' by done.
    simpl. apply (Hmax k' r'); done.
Qed.

Lemma unusedCode_after_markUsed l cid k k' r' :
  unusedCode (alter markUsed k l) cid k' r' ->
  k' ≠ k ∧ unusedCode l cid k' r'.
Proof.
  intros (Hl & Hc & Hu). destruct (decide (k' = k)) as [->|Hne].
  - rewrite list_lookup_alter_eq in Hl. destruct (l !! k); [|done].
    simpl in Hl. injection Hl as <-. done.
  - rewrite list_lookup_alter_ne in Hl by done. done.
Qed.
End SelectionFacts.

Section VerifyFacts.
Import ClientAuthService.
Variable hashPassword : string -> string -> string.
Variable comparePassword : string -> string -> bool.
Variable OTP_EXPIRY_MINUTES : Z.
Variable MAX_OTP_ATTEMPTS : Z.

(** One call of [verifyOTP] on a store whose account and newest code are
    known. *)
Lemma verifyOTP_run now mail otp (s : Store) auth k r :
  accountOf s mail = Some auth ->
  latestUnused (client_email_otp s) (client_id auth) = Some (k, r) ->
  verifyOTP comparePassword MAX_OTP_ATTEMPTS None now mail otp s
  = if expires_at r <? now
    then (Throws (AppError "OTP has expired. Please request a new OTP" 400), s)
    else if MAX_OTP_ATTEMPTS <=? attempts r
    then (Throws (AppError
            "Maximum OTP attempts exceeded. Please request a new OTP" 400),
          withOtps (alter markUsed k (client_email_otp s)) s)
    else if comparePassword otp (otp_hash r)
    then (Returns {| clientId := client_id auth;
                     clientEmail := MilestoneInvoiceService.toLowerCase mail; fullName := None |},
          withOtps (alter markUsed k (client_email_otp s)) s)
    else (Throws (invalidOtp (MAX_OTP_ATTEMPTS - (attempts r + 1))),
          withOtps (alter oneMoreAttempt k (client_email_otp s)) s).
Proof.
  intros Ha Hsel. pose proof Hsel as Hu.
  apply latestUnused_Some in Hu as [(_ & _ & Hu) _].
  unfold verifyOTP, tryCatch, bind at 1, failWhen, ret, bind at 1, get.
  unfold accountOf in Ha. rewrite Ha, Hsel, Hu.
  destruct (expires_at r <? now); [done|].
  destruct (MAX_OTP_ATTEMPTS <=? attempts r); [done|].
  destruct (comparePassword otp (otp_hash r)); done.
Qed.

Lemma verifyOTP_no_code now mail otp (s : Store) auth :
  accountOf s mail = Some auth ->
  latestUnused (client_email_otp s) (client_id auth) = None ->
  verifyOTP comparePassword MAX_OTP_ATTEMPTS None now mail otp s
  = (Throws (AppError "No valid OTP found. Please request a new OTP" 400), s).
Proof.
  intros Ha Hsel.
  unfold verifyOTP, tryCatch, bind at 1, failWhen, ret, bind at 1, get.
  unfold accountOf in Ha. by rewrite Ha, Hsel.
Qed.

Lemma verifyOTP_no_account now mail otp (s : Store) :
  accountOf s mail = None ->
  verifyOTP comparePassword MAX_OTP_ATTEMPTS None now mail otp s
  = (Throws (AppError "Invalid email" 401), s).
Proof.
  intros Ha.
  unfold verifyOTP, tryCatch, bind at 1, failWhen, ret, bind at 1, get.
  unfold accountOf in Ha. by rewrite Ha.
Qed.
End VerifyFacts.

Section AuthFacts.
Import ClientAuthService.
Variable hashPassword : string -> string -> string.
Variable comparePassword : string -> string -> bool.
Variable OTP_EXPIRY_MINUTES : Z.
Variable MAX_OTP_ATTEMPTS : Z.

Lemma existingAuth_false (s : Store) cid lowered :
  existingAuth s cid lowered = false ->
  forall a, a ∈ client_auth s -> client_id a ≠ cid ∧ email a ≠ lowered.
Proof.
  unfold existingAuth. intros H a Ha.
  assert (Hf : (client_id a =? cid) || String.eqb (email a) lowered = false).
  { destruct ((client_id a =? cid) || String.eqb (email a) lowered) eqn:E;
      [|done].
    assert (existsb (fun a => (client_id a =? cid)
                              || String.eqb (email a) lowered)
                    (client_auth s) = true); [|congruence].
    apply existsb_exists. exists a. split; [|done].
    by apply list_elem_of_In. }
  apply orb_false_iff in Hf as [H1 H2].
  apply Z.eqb_neq in H1. apply String.eqb_neq in H2. done.
Qed.

Lemma selectAuthWithClient_none (s : Store) lowered l :
  (forall a, a ∈ l -> email a ≠ lowered) ->
  omap (fun a =>
          if String.eqb (email a) lowered
          then mc ← master_clients s !! client_id a; Some (a, mc)
          else None) l = [].
Proof.
  induction l as [|a l IH]; intros H; simpl; [done|].
  assert (Ha : String.eqb (email a) lowered = false).
  { apply String.eqb_neq. apply H. by left. }
  rewrite Ha. apply IH. intros b Hb. apply H. by right.
Qed.

Lemma find_rowsById_lookup {R} (P : Z * R -> bool) (t : gmap Z R) k r :
  find P (MilestoneInvoiceService.rowsById t) = Some (k, r) ->
  t !! k = Some r ∧ P (k, r) = true.
Proof.
  intros H. apply find_some in H as [Hin HP]. split; [|done].
  apply list_elem_of_In in Hin.
  unfold MilestoneInvoiceService.rowsById in Hin.
  rewrite merge_sort_Permutation in Hin. by apply elem_of_map_to_list.
Qed.

Lemma registerClientAuth_returns salt mail password (s : Store) info s1 :
  registerClientAuth hashPassword None salt mail password s
    = (Returns info, s1) ->
  exists cid clientData,
    find (fun kv : Z * ClientAccount =>
            bool_decide (mc_email kv.2
                         = Some (MilestoneInvoiceService.toLowerCase mail)))
         (MilestoneInvoiceService.rowsById (master_clients s))
      = Some (cid, clientData)
    ∧ existingAuth s cid (MilestoneInvoiceService.toLowerCase mail) = false
    ∧ (8 <= String.length password)%nat
    ∧ info = {| clientId := cid;
                clientEmail := MilestoneInvoiceService.toLowerCase mail;
                fullName := Some (mc_fullName clientData) |}
    ∧ s1 = withAuth
             (client_auth s ++
                [{| client_id := cid;
                    email := MilestoneInvoiceService.toLowerCase mail;
                    password_hash := hashPassword salt password;
                    is_email_verified := true |}]) s.
Proof.
  unfold registerClientAuth, tryCatch, bind at 1, failWhen, ret, bind at 1, get.
  destruct (find _ _) as [[cid clientData]|] eqn:Hfind; [|done].
  destruct (existingAuth s cid _) eqn:Hex; [done|].
  destruct (String.length password <? 8)%nat eqn:Hlen; [done|].
  unfold bind, modify. intros [= <- <-].
  exists cid, clientData. apply Nat.ltb_ge in Hlen. done.
Qed.
End AuthFacts.

Section AuthExtras.
Import ClientAuthService.
Variable hashPassword : string -> string -> string.
Variable comparePassword : string -> string -> bool.
Variable OTP_EXPIRY_MINUTES : Z.
Variable MAX_OTP_ATTEMPTS : Z.

(** X22. A password login always completes and never writes; it answers
    an unknown email and a wrong password with the same 401, and when it
    returns a client there is an account with that email, in lower case,
    whose password hash the password matches. *)
Theorem login_rejections_are_uniform mail password (s : Store) :
  match validateClientPassword comparePassword None mail password s with
  | (Returns info, s') =>
    s' = s
    ∧ exists auth mc,
        auth ∈ client_auth s
        ∧ email auth = MilestoneInvoiceService.toLowerCase mail
        ∧ master_clients s !! client_id auth = Some mc
        ∧ comparePassword password (password_hash auth) = true
        ∧ info = {| clientId := client_id auth; clientEmail := email auth;
                    fullName := Some (mc_fullName mc) |}
  | (Throws e, s') =>
    s' = s ∧ e = AppError "Invalid email or password" 401
  | (Pending, _) => False
  end.
Proof.
  unfold validateClientPassword, tryCatch, bind at 1, failWhen, ret,
    bind at 1, get.
  destruct (head (selectAuthWithClient s _)) as [[auth mc]|] eqn:Hh; [|done].
  destruct (comparePassword password (password_hash auth)) eqn:Hc; [|done].
  simpl. split; [done|]. exists auth, mc.
  apply head_Some_elem_of in Hh. unfold selectAuthWithClient in Hh.
  apply list_elem_of_omap in Hh as (a & Ha & Hj).
  destruct (String.eqb (email a) _) eqn:He; [|done].
  destruct (master_clients s !! client_id a) as [mc'|] eqn:Hm; [|done].
  simpl in Hj. injection Hj as -> ->. apply String.eqb_eq in He. done.
Qed.

(** X23. Once a registration has returned, the same password logs that
    client in under the registered email in any letter case, and a second
    registration for that email is refused as already existing, whatever
    the password. *)
Theorem registered_client_can_log_in salt mail password (s : Store) info s1 :
  (forall salt' p, comparePassword p (hashPassword salt' p) = true) ->
  registerClientAuth hashPassword None salt mail password s
    = (Returns info, s1) ->
  forall mail',
    MilestoneInvoiceService.toLowerCase mail'
      = MilestoneInvoiceService.toLowerCase mail ->
    validateClientPassword comparePassword None mail' password s1
      = (Returns info, s1)
    ∧ forall salt' password',
        registerClientAuth hashPassword None salt' mail' password' s1
        = (Throws (AppError "Account already exists. Please login instead."
                     400), s1).
Proof.
  intros Hhash Hreg mail' Hmail.
  apply (registerClientAuth_returns hashPassword) in Hreg
    as (cid & clientData & Hfind & Hex & _ & -> & ->).
  pose proof (find_rowsById_lookup _ _ _ _ Hfind) as [Hmc _].
  pose proof (existingAuth_false s cid _ Hex) as Hold.
  split.
  - unfold validateClientPassword, tryCatch, bind at 1, failWhen, ret,
      bind at 1, get.
    unfold selectAuthWithClient. rewrite Hmail. cbn [client_auth withAuth].
    rewrite omap_app.
    rewrite (selectAuthWithClient_none _ _ (client_auth s));
      [|intros a Ha; by apply Hold].
    cbn [omap list_omap app]. rewrite String.eqb_refl.
    cbn [master_clients withAuth client_id]. rewrite Hmc.
    cbn [mbind option_bind head password_hash]. rewrite Hhash. done.
  - intros salt' password'.
    unfold registerClientAuth, tryCatch, bind at 1, failWhen, ret,
      bind at 1, get.
    rewrite Hmail. cbn [master_clients withAuth]. rewrite Hfind.
    assert (Hnow : existingAuth
                     (withAuth
                        (client_auth s ++
                           [{| client_id := cid;
                               email := MilestoneInvoiceService.toLowerCase mail;
                               password_hash := hashPassword salt password;
                               is_email_verified := true |}]) s)
                     cid (MilestoneInvoiceService.toLowerCase mail) = true).
    { unfold existingAuth. cbn [client_auth withAuth].
      rewrite existsb_app. apply orb_true_iff. right. simpl.
      by rewrite Z.eqb_refl. }
    by rewrite Hnow.
Qed.

Lemma accountOf_withOtps (s : Store) v mail :
  accountOf (withOtps v s) mail = accountOf s mail.
Proof. done. Qed.

(** X24. After as many wrong codes as the attempt limit allows, entered
    against the newest unused code of a client before it expires, the next
    verification is refused with the attempts-exceeded error and burns the
    code, even when it carries the right code. *)
Theorem code_is_locked_after_the_allowed_wrong_guesses
    mail (s : Store) auth k r guesses now otp :
  accountOf s mail = Some auth ->
  newestCode (client_email_otp s) (client_id auth) k r ->
  attempts r + Z.of_nat (length guesses) = MAX_OTP_ATTEMPTS ->
  Forall (fun g : Instant * string =>
            (expires_at r <? g.1) = false
            ∧ comparePassword g.2 (otp_hash r) = false) guesses ->
  (expires_at r <? now) = false ->
  let s' := guessAll comparePassword MAX_OTP_ATTEMPTS mail guesses s in
  verifyOTP comparePassword MAX_OTP_ATTEMPTS None now mail otp s'
  = (Throws (AppError
       "Maximum OTP attempts exceeded. Please request a new OTP" 400),
     withOtps (alter markUsed k (client_email_otp s')) s')
  ∧ (is_used <$> alter markUsed k (client_email_otp s') !! k) = Some true.
Proof.
  intros Ha Hn Hlen Hg Hnow. cbv zeta.
  revert s r Ha Hn Hlen Hg Hnow.
  induction guesses as [|g guesses IH]; intros s r Ha Hn Hlen Hg Hnow.
  - simpl in *.
    rewrite (verifyOTP_run comparePassword MAX_OTP_ATTEMPTS now mail otp s
               auth k r Ha (latestUnused_newest _ _ _ _ Hn)).
    rewrite Hnow.
    assert (Hmax : (MAX_OTP_ATTEMPTS <=? attempts r) = true)
      by (apply Z.leb_le; lia).
    rewrite Hmax. split; [done|].
    destruct Hn as [(Hl & _) _]. by rewrite list_lookup_alter_eq, Hl.
  - apply Forall_cons in Hg as [[Hexp Hwrong] Hg].
    cbn [guessAll].
    rewrite (verifyOTP_run comparePassword MAX_OTP_ATTEMPTS g.1 mail g.2 s
               auth k r Ha (latestUnused_newest _ _ _ _ Hn)).
    rewrite Hexp, Hwrong.
    assert (Hmax : (MAX_OTP_ATTEMPTS <=? attempts r) = false).
    { apply Z.leb_gt. simpl in Hlen. lia. }
    rewrite Hmax. cbn [snd].
    apply (IH _ (oneMoreAttempt r)).
    + by rewrite accountOf_withOtps.
    + by apply newestCode_attempt.
    + simpl in *. lia.
    + exact Hg.
    + exact Hnow.
Qed.

Lemma newestCode_generated (l : list OtpRow) cid dbNow new :
  otp_client_id new = cid -> is_used new = false -> created_at new = dbNow ->
  (forall r, r ∈ l -> otp_client_id r = cid -> created_at r < dbNow) ->
  newestCode
    (map (fun r =>
            if bool_decide (otp_client_id r = cid)
               && negb (is_used r) && (dbNow <? expires_at r)
            then markUsed r else r) l ++ [new])
    cid (length l) new.
Proof.
  intros Hc Hu Ht Hold.
  set (inval := fun r => if bool_decide (otp_client_id r = cid)
                            && negb (is_used r) && (dbNow <? expires_at r)
                         then markUsed r else r).
  assert (Hlen : length (map inval l) = length l) by apply length_map.
  split.
  - split; [|done].
    rewrite lookup_app_r by lia. by rewrite Hlen, Nat.sub_diag.
  - intros k' r' (Hl & Hc' & Hu') Hne.
    destruct (decide (k' < length l)%nat) as [Hlt|Hge].
    + rewrite lookup_app_l in Hl by lia.
      rewrite list_lookup_fmap in Hl.
      destruct (l !! k') as [r0|] eqn:Hl0; [|done].
      simpl in Hl. injection Hl as <-.
      assert (Hin : r0 ∈ l) by (by eapply list_elem_of_lookup_2).
      unfold inval in *.
      destruct (bool_decide (otp_client_id r0 = cid) && negb (is_used r0)
                && (dbNow <? expires_at r0)); simpl in *; [done|].
      rewrite Ht. by apply Hold.
    + rewrite lookup_app_r in Hl by lia. rewrite Hlen in Hl.
      destruct (k' - length l)%nat as [|j] eqn:Hj; [lia|]. done.
Qed.

Lemma unused_after_generate (l : list OtpRow) cid dbNow new k r :
  unusedCode
    (map (fun r =>
            if bool_decide (otp_client_id r = cid)
               && negb (is_used r) && (dbNow <? expires_at r)
            then markUsed r else r) l ++ [new]) cid k r ->
  k ≠ length l ->
  expires_at r <= dbNow.
Proof.
  intros (Hl & Hc & Hu) Hne.
  destruct (decide (k < length l)%nat) as [Hlt|Hge].
  - rewrite lookup_app_l in Hl by (rewrite length_map; lia).
    rewrite list_lookup_fmap in Hl.
    destruct (l !! k) as [r0|] eqn:Hl0; [|done].
    simpl in Hl. injection Hl as <-.
    destruct (bool_decide (otp_client_id r0 = cid)) eqn:Hb; simpl in *.
    + destruct (is_used r0) eqn:Hu0; simpl in *; [congruence|].
      destruct (dbNow <? expires_at r0) eqn:He; simpl in *; [done|].
      apply Z.ltb_ge in He. done.
    + apply bool_decide_eq_false in Hb. done.
  - rewrite lookup_app_r in Hl by (rewrite length_map; lia).
    rewrite length_map in Hl.
    destruct (k - length l)%nat as [|j] eqn:Hj; [lia|]. done.
Qed.

(** X25. A code that was just generated for a client logs that client in
    when it is entered before it expires, provided the attempt limit is
    positive and every earlier code of the client is older; it does so
    once: every later verification for that email, with any code, is
    refused. *)
Theorem fresh_code_logs_in_once
    salt draw now dbNow cid mail mail' (s : Store) auth t :
  (forall salt' p, comparePassword p (hashPassword salt' p) = true) ->
  accountOf s mail = Some auth -> client_id auth = cid ->
  (forall r, r ∈ client_email_otp s -> otp_client_id r = cid ->
             created_at r < dbNow) ->
  0 < MAX_OTP_ATTEMPTS ->
  t <= now + OTP_EXPIRY_MINUTES * 60000 ->
  exists s1 s2,
    generateOTP hashPassword OTP_EXPIRY_MINUTES None salt draw now dbNow
      cid mail' s = (Returns (num draw), s1)
    ∧ verifyOTP comparePassword MAX_OTP_ATTEMPTS None t mail (num draw) s1
      = (Returns {| clientId := cid;
                    clientEmail := MilestoneInvoiceService.toLowerCase mail;
                    fullName := None |}, s2)
    ∧ forall t' otp, dbNow < t' ->
        exists e,
          verifyOTP comparePassword MAX_OTP_ATTEMPTS None t' mail otp s2
          = (Throws e, s2)
          ∧ (e = AppError "No valid OTP found. Please request a new OTP" 400
             ∨ e = AppError "OTP has expired. Please request a new OTP" 400).
Proof.
  intros Hhash Ha Hcid Hold Hmax Ht.
  set (new := {| otp_client_id := cid;
                 otp_hash := hashPassword salt (num draw);
                 expires_at := now + OTP_EXPIRY_MINUTES * 60000;
                 attempts := 0; is_used := false; created_at := dbNow |}).
  set (l1 := (map (fun r =>
                     if bool_decide (otp_client_id r = cid)
                        && negb (is_used r) && (dbNow <? expires_at r)
                     then markUsed r else r) (client_email_otp s)
                ++ [new])%list).
  set (k := length (client_email_otp s)).
  exists (withOtps l1 s), (withOtps (alter markUsed k l1) s).
  assert (Hnew : newestCode l1 cid k new).
  { by apply newestCode_generated. }
  split; [done|]. split.
  - rewrite (verifyOTP_run comparePassword MAX_OTP_ATTEMPTS t mail (num draw)
               (withOtps l1 s) auth k new Ha);
      [|rewrite Hcid; by apply latestUnused_newest].
    cbn [expires_at attempts otp_hash new].
    assert (H1 : (now + OTP_EXPIRY_MINUTES * 60000 <? t) = false)
      by (apply Z.ltb_ge; lia).
    assert (H2 : (MAX_OTP_ATTEMPTS <=? 0) = false) by (apply Z.leb_gt; lia).
    rewrite H1, H2, Hhash, Hcid. done.
  - intros t' otp Ht'.
    set (s2 := withOtps (alter markUsed k l1) s).
    assert (Ha2 : accountOf s2 mail = Some auth) by done.
    destruct (latestUnused (client_email_otp s2) (client_id auth))
      as [[k' r']|] eqn:Hsel.
    + rewrite (verifyOTP_run comparePassword MAX_OTP_ATTEMPTS t' mail otp s2
                 auth k' r' Ha2 Hsel).
      apply latestUnused_Some in Hsel as [Hu _].
      rewrite Hcid in Hu.
      apply unusedCode_after_markUsed in Hu as [Hne Hu].
      pose proof (unused_after_generate _ _ _ _ _ _ Hu Hne) as Hexp.
      assert (H1 : (expires_at r' <? t') = true) by (apply Z.ltb_lt; lia).
      rewrite H1. eexists. split; [reflexivity|]. by right.
    + rewrite (verifyOTP_no_code comparePassword MAX_OTP_ATTEMPTS t' mail otp
                 s2 auth Ha2 Hsel).
      eexists. split; [reflexivity|]. by left.
Qed.

(** X26. A verification writes nothing but the code table, where it
    changes at most the newest unused code of the account's client, by
    burning it or by counting one more attempt; it accepts a code only when
    that row is unexpired, under the attempt limit and matches, and then
    burns it; and it never answers that the code was already used. *)
Theorem verification_touches_one_unused_code now mail otp (s : Store) :
  let out := verifyOTP comparePassword MAX_OTP_ATTEMPTS None now mail otp s in
  master_clients out.2 = master_clients s
  ∧ client_auth out.2 = client_auth s
  ∧ (out.2 = s
     ∨ exists auth k r,
         accountOf s mail = Some auth
         ∧ unusedCode (client_email_otp s) (client_id auth) k r
         ∧ (client_email_otp out.2 = alter markUsed k (client_email_otp s)
            ∨ client_email_otp out.2
              = alter oneMoreAttempt k (client_email_otp s)))
  ∧ (forall info, out.1 = Returns info ->
       exists auth k r,
         accountOf s mail = Some auth
         ∧ clientId info = client_id auth
         ∧ unusedCode (client_email_otp s) (client_id auth) k r
         ∧ (expires_at r <? now) = false
         ∧ attempts r < MAX_OTP_ATTEMPTS
         ∧ comparePassword otp (otp_hash r) = true
         ∧ client_email_otp out.2 = alter markUsed k (client_email_otp s)
         ∧ client_email_otp out.2 !! k = Some (markUsed r))
  ∧ out.1 ≠ Throws (AppError "OTP has already been used" 400).
Proof.
  cbv zeta.
  destruct (accountOf s mail) as [auth|] eqn:Ha.
  2:{ rewrite (verifyOTP_no_account comparePassword MAX_OTP_ATTEMPTS now mail
                 otp s Ha). simpl.
      split; [done|]. split; [done|]. split; [by left|]. split; [|done].
      intros info H. discriminate. }
  destruct (latestUnused (client_email_otp s) (client_id auth))
    as [[k r]|] eqn:Hsel.
  2:{ rewrite (verifyOTP_no_code comparePassword MAX_OTP_ATTEMPTS now mail
                 otp s auth Ha Hsel). simpl.
      split; [done|]. split; [done|]. split; [by left|]. split; [|done].
      intros info H. discriminate. }
  rewrite (verifyOTP_run comparePassword MAX_OTP_ATTEMPTS now mail otp s
             auth k r Ha Hsel).
  apply latestUnused_Some in Hsel as [Hu _].
  destruct (expires_at r <? now) eqn:Hexp; simpl.
  { split; [done|]. split; [done|]. split; [by left|]. split; [|done].
    intros info H. discriminate. }
  destruct (MAX_OTP_ATTEMPTS <=? attempts r) eqn:Hmax; simpl.
  { split; [done|]. split; [done|]. split; [|split; [|done]].
    - right. exists auth, k, r. split; [done|]. split; [done|]. by left.
    - intros info H. discriminate. }
  destruct (comparePassword otp (otp_hash r)) eqn:Hcmp; simpl.
  - split; [done|]. split; [done|]. split; [|split; [|done]].
    + right. exists auth, k, r. split; [done|]. split; [done|]. by left.
    + intros info [= <-]. exists auth, k, r. simpl.
      apply Z.leb_gt in Hmax. destruct Hu as (Hl & Hc & Hused).
      split; [done|]. split; [done|]. split; [done|]. split; [done|].
      split; [done|]. split; [done|]. split; [done|].
      by rewrite list_lookup_alter_eq, Hl.
  - split; [done|]. split; [done|]. split; [|split].
    + right. exists auth, k, r. split; [done|]. split; [done|]. by right.
    + intros info H. discriminate.
    + unfold invalidOtp. intros H. by injection H.
Qed.
End AuthExtras.

Section AuthExtrasWitnesses.
Import ClientAuthService.

Lemma registered_client_can_log_in_witness :
  exists info s1,
    registerClientAuth plainHash None "s1" "Ana@Example.com" "correct horse"
      portal = (Returns info, s1)
    ∧ validateClientPassword plainCompare None "ANA@example.com"
        "correct horse" s1 = (Returns info, s1).
Proof.
  destruct (registerClientAuth plainHash None "s1" "Ana@Example.com"
              "correct horse" portal) as [[info|e|] s1] eqn:E;
    [|vm_compute in E; discriminate..].
  exists info, s1. split; [reflexivity|].
  apply (registered_client_can_log_in plainHash plainCompare "s1"
           "Ana@Example.com" "correct horse" portal info s1);
    [intros salt p; apply String.eqb_refl | exact E | reflexivity].
Defined.

Lemma code_is_locked_after_the_allowed_wrong_guesses_witness :
  verifyOTP plainCompare 3 None 5000 "ana@example.com" "123456"
    (guessAll plainCompare 3 "ana@example.com"
       [(2000, "000000"); (3000, "111111"); (4000, "222222")] portalWithCode)
  = (Throws (AppError
       "Maximum OTP attempts exceeded. Please request a new OTP" 400),
     withOtps
       (alter markUsed 0%nat
          (client_email_otp
             (guessAll plainCompare 3 "ana@example.com"
                [(2000, "000000"); (3000, "111111"); (4000, "222222")]
                portalWithCode)))
       (guessAll plainCompare 3 "ana@example.com"
          [(2000, "000000"); (3000, "111111"); (4000, "222222")]
          portalWithCode)).
Proof.
  apply (code_is_locked_after_the_allowed_wrong_guesses plainCompare 3
           "ana@example.com" portalWithCode anaAccount 0%nat anaCode
           [(2000, "000000"); (3000, "111111"); (4000, "222222")] 5000
           "123456").
  - reflexivity.
  - split; [by split|].
    intros k' r' (Hl & _) Hne. destruct k' as [|k']; [done|].
    simpl in Hl. discriminate.
  - reflexivity.
  - repeat constructor.
  - reflexivity.
Defined.

Lemma fresh_code_logs_in_once_witness :
  exists s1 s2,
    generateOTP plainHash 5 None "s3" 654321 400000 400000 31
      "ana@example.com" portalWithCode = (Returns "654321", s1)
    ∧ verifyOTP plainCompare 3 None 500000 "Ana@example.com" "654321" s1
      = (Returns {| clientId := 31; clientEmail := "ana@example.com";
                    fullName := None |}, s2)
    ∧ exists e,
        verifyOTP plainCompare 3 None 500001 "Ana@example.com" "654321" s2
        = (Throws e, s2).
Proof.
  destruct (fresh_code_logs_in_once plainHash plainCompare 5 3 "s3" 654321
              400000 400000 31 "Ana@example.com" "ana@example.com"
              portalWithCode anaAccount 500000)
    as (s1 & s2 & Hgen & Hverify & Hreplay).
  - intros salt p. apply String.eqb_refl.
  - reflexivity.
  - reflexivity.
  - intros r Hr _. apply list_elem_of_singleton in Hr as ->. reflexivity.
  - reflexivity.
  - vm_compute. discriminate.
  - exists s1, s2. split; [exact Hgen|]. split; [exact Hverify|].
    destruct (Hreplay 500001 "654321") as (e & He & _); [reflexivity|].
    by exists e.
Defined.
End AuthExtrasWitnesses.

Section AccountFacts.
Import ClientAuthService.
Variable hashPassword : string -> string -> string.

Lemma lowerAscii_idem c :
  MilestoneInvoiceService.lowerAscii (MilestoneInvoiceService.lowerAscii c)
  = MilestoneInvoiceService.lowerAscii c.
Proof. destruct c as [[] [] [] [] [] [] [] []]; reflexivity. Qed.

Lemma toLowerCase_idem s :
  MilestoneInvoiceService.toLowerCase (MilestoneInvoiceService.toLowerCase s)
  = MilestoneInvoiceService.toLowerCase s.
Proof.
  induction s as [|c s IH]; simpl; [done|].
  by rewrite lowerAscii_idem, IH.
Qed.

Lemma uniqueAccounts_insert (s : Store) cid lowered hash verified :
  uniqueAccounts s ->
  existingAuth s cid lowered = false ->
  MilestoneInvoiceService.toLowerCase lowered = lowered ->
  uniqueAccounts
    (withAuth (client_auth s ++
                 [{| client_id := cid; email := lowered;
                     password_hash := hash;
                     is_email_verified := verified |}]) s).
Proof.
  intros (He & Hc & Hl) Hex Hlow.
  pose proof (existingAuth_false s cid lowered Hex) as Hnew.
  unfold uniqueAccounts. cbn [client_auth withAuth].
  rewrite !fmap_app. simpl.
  split; [|split].
  - apply NoDup_app. split; [done|]. split; [|apply NoDup_singleton].
    intros x Hx Hx'. apply list_elem_of_singleton in Hx' as ->.
    apply list_elem_of_fmap in Hx as (a & Ha & Hin).
    destruct (Hnew a Hin) as [_ H]. by apply H.
  - apply NoDup_app. split; [done|]. split; [|apply NoDup_singleton].
    intros x Hx Hx'. apply list_elem_of_singleton in Hx' as ->.
    apply list_elem_of_fmap in Hx as (a & Ha & Hin).
    destruct (Hnew a Hin) as [H _]. by apply H.
  - apply Forall_app. split; [done|]. by constructor.
Qed.

(** X27. Neither way of creating an account, whatever its outcome, ever
    leaves two accounts with one email or for one client, or an account
    whose email is not in lower case. *)
Theorem accounts_stay_unique f salt cid mail password (s : Store) :
  uniqueAccounts s ->
  uniqueAccounts (createClientAuth hashPassword f salt cid mail password s).2
  ∧ uniqueAccounts (registerClientAuth hashPassword f salt mail password s).2.
Proof.
  intros Hs. split.
  - unfold createClientAuth, tryCatch, bind at 1.
    destruct f as [e|]; simpl.
    { unfold rethrowOr, throw. by destruct (instanceofAppError e). }
    unfold bind, get.
    destruct (negb _); [done|].
    destruct (existingAuth s cid _) eqn:Hex; [done|].
    unfold modify. simpl.
    apply uniqueAccounts_insert; [done | done | apply toLowerCase_idem].
  - unfold registerClientAuth, tryCatch, bind at 1.
    destruct f as [e|]; simpl.
    { unfold rethrowOr, throw. by destruct (instanceofAppError e). }
    unfold bind, get.
    destruct (find _ _) as [[k clientData]|]; [|done].
    destruct (existingAuth s k _) eqn:Hex; [done|].
    destruct (String.length password <? 8)%nat; [done|].
    unfold modify. simpl.
    apply uniqueAccounts_insert; [done | done | apply toLowerCase_idem].
Qed.
End AccountFacts.

Section AccountWitness.
Import ClientAuthService.

Lemma accounts_stay_unique_witness :
  uniqueAccounts
    (createClientAuth plainHash None "s1" 31 "Ana@Example.com"
       "correct horse" portal).2
  ∧ uniqueAccounts
      (registerClientAuth plainHash None "s1" "Ana@Example.com"
         "correct horse" portal).2.
Proof.
  apply (accounts_stay_unique plainHash None "s1" 31 "Ana@Example.com"
           "correct horse" portal).
  split; [apply NoDup_nil_2 | split; [apply NoDup_nil_2 | constructor]].
Defined.
End AccountWitness.
